(** * CCPM: fuzzy c-means engine, dataset loading, output-directory
      validation, report pages and bar plots

    A shallow embedding of

      - [CCPM/clustering/cluster.py]  ([cmeans0], [fp_coeff], [cmeans],
        [cmeans_predict], [cmeans_predict0]),
      - [CCPM/io/utils.py]            ([load_df_in_any_format],
        [assert_input], [assert_output], [assert_output_dir_exist],
        [PDF.print_chapter]),
      - [CCPM/io/viz.py]              ([autolabel], [determine_layout] and
        the axis loop of [flexible_barplot]),
      - [CCPM/clustering/viz.py]      ([sort_int_labels_legend] and the bars
        and pairs of [plot_grouped_barplot]).

    Conventions.

      - The clustering code is embedded twice.  In [Numpy] and [Cluster] a
        float64 is a real number of [R]: arithmetic is exact, there is no
        rounding, overflow, infinity or NaN; [x ** y] with a float exponent
        is [Rpower] (every base the code raises to such a power has been
        clamped to [eps] or more), [x ** 2] is [x ^ 2].  In [Float64] a
        float64 is a binary64 float and every operation rounds as IEEE 754
        has it.  What is proved of the exact model is a statement about the
        formulas of the code, not about the floats it returns; the theorems
        on the floats are stated on [Float64].
      - [-2. / (m - 1)] raises [ZeroDivisionError] for [m = 1].  The exact
        model divides as [R] does; every theorem on it that states what a
        step or a loop returns assumes [m <> 1] or [1 < m].
      - A 2-d numpy array is a list of rows.  In the exact model every array
        operation builds its result with [mk_matrix] from the shape numpy
        gives it; numpy's broadcasting and its shape errors are not
        modelled, the theorems assume the shapes the docstrings give.
      - Python exceptions are values of [pyerr]; a function that can raise
        returns a [result].
      - A function that writes into an array argument returns the final
        content of that argument next to its results. *)

From Stdlib Require Import Reals Lra Lia ZArith String Ascii Bool List.
From Stdlib Require Import QArith Sorted Permutation.
From Stdlib Require Lqa.
From Stdlib Require Floats.
Import ListNotations.

(** ** Python exceptions *)

Inductive pyerr : Type :=
| UnboundLocalError (var : string)
| FileExistsError (path : list string)
| FileNotFoundError (path : list string)
| NotADirectoryError (path : list string)
| SystemExit (msg : string)
| AttributeError (attr : string)
| ZeroDivisionError
| LibraryError (what : string).

Inductive result (A : Type) : Type :=
| Ok (a : A)
| Raise (e : pyerr).
Arguments Ok {A} a.
Arguments Raise {A} e.

Definition bind {A B : Type} (r : result A) (k : A -> result B) : result B :=
  match r with
  | Ok a => k a
  | Raise e => Raise e
  end.

Declare Scope py_scope.
Delimit Scope py_scope with py.
Notation "x <- r ;; k" := (bind r (fun x => k))
  (at level 61, r at next level, right associativity) : py_scope.

(** Reading a local variable that may not have been assigned yet. *)
Definition read_local {A : Type} (name : string) (v : option A) : result A :=
  match v with
  | Some a => Ok a
  | None => Raise (UnboundLocalError name)
  end.

(** ** The numpy operations the clustering code uses *)

Module Numpy.
Open Scope R_scope.

Definition vector := list R.
Definition matrix := list (list R).

(** [a.shape[0]] and [a.shape[1]]. *)
Definition nrows (a : matrix) : nat := length a.
Definition ncols (a : matrix) : nat := length (hd [] a).

(** [a[i, j]] for an index inside the array. *)
Definition item (a : matrix) (i j : nat) : R := nth j (nth i a []) 0.

Definition has_shape (a : matrix) (r c : nat) : Prop :=
  length a = r /\ Forall (fun row => length row = c) a.

(** The array of shape [(r, c)] whose entry at [(i, j)] is [f i j]. *)
Definition mk_matrix (r c : nat) (f : nat -> nat -> R) : matrix :=
  map (fun i => map (fun j => f i j) (seq 0 c)) (seq 0 r).

Definition Rsum (l : list R) : R := fold_right Rplus 0 l.

(** [np.finfo(np.float64).eps] *)
Definition eps : R := / 2 ^ 52.

(** [np.ones((r, c))] *)
Definition ones (r c : nat) : matrix := mk_matrix r c (fun _ _ => 1).

(** [np.atleast_2d(v)] for a 1-d [v]: one row. *)
Definition atleast_2d (v : vector) : matrix := [v].

(** [a.sum(axis=0)]: one sum per column. *)
Definition sum_axis0 (a : matrix) : vector :=
  map (fun j => Rsum (map (fun i => item a i j) (seq 0 (nrows a))))
      (seq 0 (ncols a)).

(** [a.sum(axis=1)]: one sum per row. *)
Definition sum_axis1 (a : matrix) : vector := map Rsum a.

(** [a.sum()] *)
Definition sum_all (a : matrix) : R := Rsum (map Rsum a).

(** [a.dot(b)] *)
Definition dot (a b : matrix) : matrix :=
  mk_matrix (nrows a) (ncols b)
    (fun i k => Rsum (map (fun j => item a i j * item b j k)
                          (seq 0 (ncols a)))).

(** [a.T] *)
Definition transpose (a : matrix) : matrix :=
  mk_matrix (ncols a) (nrows a) (fun i j => item a j i).

(** [a.copy()] *)
Definition copy (a : matrix) : matrix := a.

(** [np.fmax(a, x)] with a scalar [x]. *)
Definition fmax (a : matrix) (x : R) : matrix := map (map (fun v => Rmax v x)) a.

(** [a ** y] with a float [y]. *)
Definition power (a : matrix) (y : R) : matrix :=
  map (map (fun v => Rpower v y)) a.

(** [a ** 2] *)
Definition square (a : matrix) : matrix := map (map (fun v => v ^ 2)) a.

(** [a * b], [a / b] and [a - b], entry by entry; [a /= b] stores [a / b]
    in [a].  The result has the shape of [a]. *)
Definition zip_with (op : R -> R -> R) (a b : matrix) : matrix :=
  mk_matrix (nrows a) (ncols a) (fun i j => op (item a i j) (item b i j)).
Definition mul : matrix -> matrix -> matrix := zip_with Rmult.
Definition div : matrix -> matrix -> matrix := zip_with Rdiv.
Definition sub : matrix -> matrix -> matrix := zip_with Rminus.

(** [np.linalg.norm(a)] of a 2-d array: the Frobenius norm. *)
Definition norm (a : matrix) : R := sqrt (sum_all (square a)).

(** [np.trace(a)] *)
Definition trace (a : matrix) : R :=
  Rsum (map (fun i => item a i i) (seq 0 (Nat.min (nrows a) (ncols a)))).

End Numpy.

(** ** CCPM/clustering/cluster.py *)

Module Cluster.
Import Numpy.
Open Scope R_scope.
Open Scope py_scope.

(** What one training step hands back: the four returned values and the
    content of the argument array [u_old], which the step divides in place. *)
Record step_out : Type := {
  so_cntr : matrix;
  so_u : matrix;
  so_jm : R;
  so_d : matrix;
  so_u_old_arg : matrix
}.

(** What one prediction step hands back: the three returned values and the
    content, after the call, of the three array arguments. *)
Record pstep_out : Type := {
  po_u : matrix;
  po_jm : R;
  po_d : matrix;
  po_u_old_arg : matrix;
  po_cntr_arg : matrix;
  po_test_data_arg : matrix
}.

(** The tuple [cmeans] returns. *)
Record cmeans_result : Type := {
  r_cntr : matrix;
  r_u : matrix;
  r_u0 : matrix;
  r_d : matrix;
  r_jm : list R;
  r_p : Z;
  r_fpc : R
}.

(** The tuple [cmeans_predict] returns, and the content of the argument
    array [cntr_trained] when it returns. *)
Record predict_result : Type := {
  q_u : matrix;
  q_u0 : matrix;
  q_d : matrix;
  q_jm : list R;
  q_p : Z;
  q_fpc : R;
  q_cntr_trained_arg : matrix
}.

(** The local variables of [cmeans] that the main loop reads or assigns.
    [u2], [cntr] and [d] are assigned inside the loop only. *)
Record train_locals : Type := {
  t_u : matrix;
  t_u2 : option matrix;
  t_cntr : option matrix;
  t_d : option matrix;
  t_jm : list R;
  t_p : Z
}.

(** The same for [cmeans_predict]; [cntr_trained] is an argument. *)
Record predict_locals : Type := {
  p_u : matrix;
  p_u2 : option matrix;
  p_d : option matrix;
  p_jm : list R;
  p_p : Z;
  p_cntr_trained : matrix
}.

(** The default of the keyword argument [metric]. *)
Definition default_metric : string := "euclidean".

Definition keyword {A : Type} (given : option A) (default : A) : A :=
  match given with
  | Some a => a
  | None => default
  end.

Section Engine.

(** [CCPM.clustering.distance.compute_distance(x, y, metric=...)] is not part
    of the sources at hand: it is a parameter, called with the metric string
    and the two arrays, and returning the distance array. *)
Variable compute_distance : string -> matrix -> matrix -> matrix.

(** [np.random.rand(c, n)] after the optional [np.random.seed(seed=seed)]:
    the draw this call receives. *)
Variable random_rand : option Z -> nat -> nat -> matrix.

Definition cmeans0 (data u_old : matrix) (c : nat) (m : R) (metric : string)
  : step_out :=
  (* u_old /= np.ones((c, 1)).dot(np.atleast_2d(u_old.sum(axis=0))) *)
  let u_old_arg :=
    div u_old (dot (ones c 1) (atleast_2d (sum_axis0 u_old))) in
  let u_old := fmax u_old_arg eps in
  let um := power u_old m in
  let data := transpose data in
  let cntr :=
    div (dot um data)
        (transpose (dot (ones (ncols data) 1) (atleast_2d (sum_axis1 um)))) in
  let d := compute_distance metric data cntr in
  let d := fmax d eps in
  let jm := sum_all (mul um (square d)) in
  let u := power d ((- 2) / (m - 1)) in
  let u := div u (dot (ones c 1) (atleast_2d (sum_axis0 u))) in
  {| so_cntr := cntr; so_u := u; so_jm := jm; so_d := d;
     so_u_old_arg := u_old_arg |}.

Definition fp_coeff (u : matrix) : R :=
  let n := ncols u in
  trace (dot u (transpose u)) / INR n.

Definition cmeans_predict0 (test_data cntr u_old : matrix) (c : nat) (m : R)
    (metric : string) : pstep_out :=
  let u_old_arg :=
    div u_old (dot (ones c 1) (atleast_2d (sum_axis0 u_old))) in
  let u_old := fmax u_old_arg eps in
  let um := power u_old m in
  let test_data_T := transpose test_data in
  let d := compute_distance metric test_data_T cntr in
  let d := fmax d eps in
  let jm := sum_all (mul um (square d)) in
  let u := power d ((- 2) / (m - 1)) in
  let u := div u (dot (ones c 1) (atleast_2d (sum_axis0 u))) in
  {| po_u := u; po_jm := jm; po_d := d;
     po_u_old_arg := u_old_arg; po_cntr_arg := cntr;
     po_test_data_arg := test_data |}.

(** The [# Setup u0] block shared by [cmeans] and [cmeans_predict]: the value
    of [init] after it. *)
Definition setup_u0 (n : nat) (c : nat) (init : option matrix)
    (seed : option Z) : matrix :=
  match init with
  | None =>
      let u0 := random_rand seed c n in
      let u0 := div u0 (dot (ones c 1) (atleast_2d (sum_axis0 u0))) in
      copy u0
  | Some init => init
  end.

(** One pass through the body of the main loop of [cmeans], up to and
    including [p += 1].  The name [u2] denotes the copy that [cmeans0] has
    divided in place. *)
Definition cmeans_body (data : matrix) (c : nat) (m : R) (metric : string)
    (st : train_locals) : train_locals :=
  let u2 := copy (t_u st) in
  let r := cmeans0 data u2 c m metric in
  {| t_u := so_u r;
     t_u2 := Some (so_u_old_arg r);
     t_cntr := Some (so_cntr r);
     t_d := Some (so_d r);
     t_jm := t_jm st ++ [so_jm r];
     t_p := t_p st + 1 |}.

(** [np.linalg.norm(u - u2) < error], read after the loop body. *)
Definition stopping_rule (u : matrix) (u2 : option matrix) (error : R) : bool :=
  match u2 with
  | Some u2 => if Rlt_dec (norm (sub u u2)) error then true else false
  | None => false
  end.

(** [while p < maxiter - 1: ...; if ...: break].  [None] when the fuel runs
    out before the loop is left. *)
Fixpoint cmeans_loop (fuel : nat) (data : matrix) (c : nat) (m error : R)
    (maxiter : Z) (metric : string) (st : train_locals)
  : option train_locals :=
  if (t_p st <? maxiter - 1)%Z then
    match fuel with
    | O => None
    | S fuel' =>
        let st' := cmeans_body data c m metric st in
        if stopping_rule (t_u st') (t_u2 st') error then Some st'
        else cmeans_loop fuel' data c m error maxiter metric st'
    end
  else Some st.

(** The [# Final calculations] block and the [return] of [cmeans]. *)
Definition cmeans_final (u0 : matrix) (st : train_locals)
  : result cmeans_result :=
  u2 <- read_local "u2" (t_u2 st) ;;
  let error := norm (sub (t_u st) u2) in
  let fpc := fp_coeff (t_u st) in
  cntr <- read_local "cntr" (t_cntr st) ;;
  d <- read_local "d" (t_d st) ;;
  Ok {| r_cntr := cntr; r_u := t_u st; r_u0 := u0; r_d := d;
        r_jm := t_jm st; r_p := t_p st; r_fpc := fpc |}.

Definition cmeans_start (u0 : matrix) : train_locals :=
  {| t_u := fmax u0 eps; t_u2 := None; t_cntr := None; t_d := None;
     t_jm := []; t_p := 0 |}.

Definition cmeans_fuel (fuel : nat) (data : matrix) (c : nat) (m error : R)
    (maxiter : Z) (metric : option string) (init : option matrix)
    (seed : option Z) : option (result cmeans_result) :=
  let metric := keyword metric default_metric in
  let u0 := setup_u0 (ncols data) c init seed in
  match cmeans_loop fuel data c m error maxiter metric (cmeans_start u0) with
  | Some st => Some (cmeans_final u0 st)
  | None => None
  end.

(** [cmeans(data, c, m, error, maxiter, metric=..., init=..., seed=...)]:
    the loop counter grows by one per pass and the loop is left at
    [maxiter - 1], so that many passes are fuel enough. *)
Definition cmeans (data : matrix) (c : nat) (m error : R) (maxiter : Z)
    (metric : option string) (init : option matrix) (seed : option Z)
  : option (result cmeans_result) :=
  cmeans_fuel (Z.to_nat (maxiter - 1)) data c m error maxiter metric init seed.

Definition predict_body (test_data : matrix) (c : nat) (m : R)
    (metric : string) (st : predict_locals) : predict_locals :=
  let u2 := copy (p_u st) in
  let r := cmeans_predict0 test_data (p_cntr_trained st) u2 c m metric in
  {| p_u := po_u r;
     p_u2 := Some (po_u_old_arg r);
     p_d := Some (po_d r);
     p_jm := p_jm st ++ [po_jm r];
     p_p := p_p st + 1;
     p_cntr_trained := po_cntr_arg r |}.

Fixpoint predict_loop (fuel : nat) (test_data : matrix) (c : nat)
    (m error : R) (maxiter : Z) (metric : string) (st : predict_locals)
  : option predict_locals :=
  if (p_p st <? maxiter - 1)%Z then
    match fuel with
    | O => None
    | S fuel' =>
        let st' := predict_body test_data c m metric st in
        if stopping_rule (p_u st') (p_u2 st') error then Some st'
        else predict_loop fuel' test_data c m error maxiter metric st'
    end
  else Some st.

Definition predict_final (u0 : matrix) (st : predict_locals)
  : result predict_result :=
  u2 <- read_local "u2" (p_u2 st) ;;
  let error := norm (sub (p_u st) u2) in
  let fpc := fp_coeff (p_u st) in
  d <- read_local "d" (p_d st) ;;
  Ok {| q_u := p_u st; q_u0 := u0; q_d := d; q_jm := p_jm st;
        q_p := p_p st; q_fpc := fpc;
        q_cntr_trained_arg := p_cntr_trained st |}.

Definition predict_start (cntr_trained u0 : matrix) : predict_locals :=
  {| p_u := fmax u0 eps; p_u2 := None; p_d := None; p_jm := []; p_p := 0;
     p_cntr_trained := cntr_trained |}.

Definition cmeans_predict_fuel (fuel : nat) (test_data cntr_trained : matrix)
    (m error : R) (maxiter : Z) (metric : option string)
    (init : option matrix) (seed : option Z)
  : option (result predict_result) :=
  let metric := keyword metric default_metric in
  let c := nrows cntr_trained in
  let u0 := setup_u0 (ncols test_data) c init seed in
  match predict_loop fuel test_data c m error maxiter metric
          (predict_start cntr_trained u0) with
  | Some st => Some (predict_final u0 st)
  | None => None
  end.

Definition cmeans_predict (test_data cntr_trained : matrix) (m error : R)
    (maxiter : Z) (metric : option string) (init : option matrix)
    (seed : option Z) : option (result predict_result) :=
  cmeans_predict_fuel (Z.to_nat (maxiter - 1)) test_data cntr_trained m error
    maxiter metric init seed.

End Engine.

End Cluster.

(** ** The file system seen by [os] and [shutil]

    A path is the list of its components below the directory the program
    runs in; the components are entry names, never ["."] or [".."], and the
    empty list is the empty string [''], which names nothing.
    [os.path.join(path, file)] appends one component.  The tree holds
    regular files and directories only: links, devices and permissions are
    not modelled, so [os.unlink] of a regular file and [shutil.rmtree] of a
    directory always succeed. *)

Module Os.

Definition path := list string.

#[warnings="-register-all"] Inductive node : Type :=
| File : node
| Dir : list (string * node) -> node.

Fixpoint assoc (name : string) (es : list (string * node)) : option node :=
  match es with
  | [] => None
  | (n, t) :: es' => if String.eqb n name then Some t else assoc name es'
  end.

Definition replace (name : string) (t : node) (es : list (string * node))
  : list (string * node) :=
  map (fun e => if String.eqb (fst e) name then (fst e, t) else e) es.

Definition remove (name : string) (es : list (string * node))
  : list (string * node) :=
  filter (fun e => negb (String.eqb (fst e) name)) es.

Fixpoint lookup (fs : node) (p : path) : option node :=
  match p with
  | [] => Some fs
  | name :: rest =>
      match fs with
      | File => None
      | Dir es =>
          match assoc name es with
          | Some child => lookup child rest
          | None => None
          end
      end
  end.

(** What [os.stat] finds at a path: nothing at the empty string. *)
Definition entry (fs : node) (p : path) : option node :=
  match p with
  | [] => None
  | _ :: _ => lookup fs p
  end.

(** [os.path.isdir] and [os.path.isfile] *)
Definition isdir (fs : node) (p : path) : bool :=
  match entry fs p with
  | Some (Dir _) => true
  | _ => false
  end.

Definition isfile (fs : node) (p : path) : bool :=
  match entry fs p with
  | Some File => true
  | _ => false
  end.

(** [os.listdir] *)
Definition listdir (fs : node) (p : path) : result (list string) :=
  match entry fs p with
  | Some (Dir es) => Ok (map fst es)
  | Some File => Raise (NotADirectoryError p)
  | None => Raise (FileNotFoundError p)
  end.

(** The chain of fresh directories [n1/n2/.../nk] below a new entry. *)
Fixpoint fresh_dirs (p : path) : node :=
  match p with
  | [] => Dir []
  | name :: rest => Dir [(name, fresh_dirs rest)]
  end.

(** [os.makedirs(p, exist_ok=True)] below the node reached by the prefix
    [pre]: every missing directory on the way is created.  A regular file at
    [p] itself makes [os.mkdir(p)] raise [FileExistsError]; a regular file on
    the way makes [os.mkdir] of the path one component below that file raise
    [NotADirectoryError], which [os.makedirs] passes on. *)
Fixpoint makedirs_from (pre : path) (fs : node) (p : path) : result node :=
  match p with
  | [] =>
      match fs with
      | Dir _ => Ok fs
      | File => Raise (FileExistsError pre)
      end
  | name :: rest =>
      match fs with
      | File => Raise (NotADirectoryError (pre ++ [name]))
      | Dir es =>
          match assoc name es with
          | Some child =>
              match makedirs_from (pre ++ [name]) child rest with
              | Ok child' => Ok (Dir (replace name child' es))
              | Raise e => Raise e
              end
          | None => Ok (Dir (es ++ [(name, fresh_dirs rest)]))
          end
      end
  end.

(** [os.makedirs('', exist_ok=True)] raises [FileNotFoundError]. *)
Definition makedirs (fs : node) (p : path) : result node :=
  match p with
  | [] => Raise (FileNotFoundError [])
  | _ :: _ => makedirs_from [] fs p
  end.

(** The tree without the entry at [p]. *)
Fixpoint delete (fs : node) (p : path) : node :=
  match p with
  | [] => fs
  | name :: rest =>
      match fs with
      | File => fs
      | Dir es =>
          match rest with
          | [] => Dir (remove name es)
          | _ :: _ =>
              match assoc name es with
              | Some child => Dir (replace name (delete child rest) es)
              | None => fs
              end
          end
      end
  end.

(** [os.unlink] *)
Definition unlink (fs : node) (p : path) : result node :=
  match entry fs p with
  | Some File => Ok (delete fs p)
  | Some (Dir _) => Raise (LibraryError "IsADirectoryError")
  | None => Raise (FileNotFoundError p)
  end.

(** [shutil.rmtree] *)
Definition rmtree (fs : node) (p : path) : result node :=
  match entry fs p with
  | Some (Dir _) => Ok (delete fs p)
  | Some File => Raise (NotADirectoryError p)
  | None => Raise (FileNotFoundError p)
  end.

(** No regular file at [p] or at a path leading to [p]. *)
Definition no_file_on_the_way (fs : node) (p : path) : Prop :=
  forall k, lookup fs (firstn k p) <> Some File.

(** The text of a path, as [str.format] inserts it in a message. *)
Definition show (p : path) : string := String.concat "/" p.

End Os.

(** ** CCPM/io/utils.py *)

Module IoUtils.
Import Os.
Open Scope string_scope.
Open Scope py_scope.

Section Loading.

(** The values [pandas] hands back. *)
Variable DataFrame : Type.

(** Library calls of [load_df_in_any_format], all parameters:
    [os.path.splitext(file)];
    [pd.read_csv(file)] (no [sep], [None] below) and
    [pd.read_csv(file, sep=delimiter)] ([Some delimiter], where
    [delimiter] is a string or Python's [None]);
    [pd.read_excel(file)];
    [open(file, "r")] followed by [f.read()];
    [detect(text, whitelist=...)] of [detect_delimiter], which answers a
    delimiter or Python's [None].  Each of them may raise. *)
Variable splitext : string -> string * string.
Variable read_csv : string -> option (option string) -> result DataFrame.
Variable read_excel : string -> result DataFrame.
Variable open_read : string -> result string.
Variable detect : string -> list string -> result (option string).

(** ["\t"] *)
Definition tab : string := String (ascii_of_nat 9) EmptyString.

Definition whitelist : list string := [tab; ":"; ";"; " "; ","].

Definition load_df_in_any_format (file : string) : result DataFrame :=
  let ext := snd (splitext file) in
  let df : option DataFrame := None in
  df <- (if String.eqb ext ".csv"
         then (d <- read_csv file None ;; Ok (Some d))
         else Ok df) ;;
  df <- (if String.eqb ext ".xlsx"
         then (d <- read_excel file ;; Ok (Some d))
         else Ok df) ;;
  df <- (if String.eqb ext ".txt"
         then (f <- open_read file ;;
               delimiter <- detect f whitelist ;;
               d <- read_csv file (Some delimiter) ;; Ok (Some d))
         else Ok df) ;;
  read_local "df" df.

End Loading.

(** The arguments [required] and [optional] of [assert_output_dir_exist]:
    one path given as a [str], or a list of entries.  An entry of [required]
    is a path; an entry of [optional] may be falsy ([None], the empty
    string), which is [None] below. *)
Inductive paths_arg (entry : Type) : Type :=
| OnePath (p : path)
| PathList (ps : list entry).
Arguments OnePath {entry} p.
Arguments PathList {entry} ps.

(** After [if isinstance(x, str): x = [x]]. *)
Definition as_list {entry : Type} (inj : path -> entry) (a : paths_arg entry)
  : list entry :=
  match a with
  | OnePath p => [inj p]
  | PathList ps => ps
  end.

Definition msg_missing (p : path) : string :=
  "Output directory " ++ show p ++ " does not exist. Use create_dir = True.".

Definition msg_not_empty (p : path) : string :=
  "Output directory " ++ show p
    ++ " is not empty. Use -f to overwrite theexisting content.".

(** One pass through the body of [for file in os.listdir(path)]; an
    exception inside the [try] is printed and the loop goes on. *)
Definition clear_entry (p : path) (fs : node) (file : string) : node :=
  let file_path := (p ++ [file])%list in
  if isfile fs file_path then
    match unlink fs file_path with
    | Ok fs' => fs'
    | Raise _ => fs
    end
  else if isdir fs file_path then
    match rmtree fs file_path with
    | Ok fs' => fs'
    | Raise _ => fs
    end
  else fs.

(** The inner function [check(path)] of [assert_output_dir_exist]. *)
Definition check (overwrite create_dir : bool) (fs : node) (p : path)
  : result node :=
  fs <- (if negb (isdir fs p) then
           if negb create_dir then Raise (SystemExit (msg_missing p))
           else makedirs fs p
         else Ok fs) ;;
  names <- listdir fs p ;;
  match names with
  | _ :: _ =>
      if negb overwrite then Raise (SystemExit (msg_not_empty p))
      else Ok (fold_left (clear_entry p) names fs)
  | [] => Ok fs
  end.

(** [for cur_dir in required: check(cur_dir)] *)
Fixpoint check_required (overwrite create_dir : bool) (fs : node)
    (ps : list path) : result node :=
  match ps with
  | [] => Ok fs
  | cur_dir :: ps' =>
      fs' <- check overwrite create_dir fs cur_dir ;;
      check_required overwrite create_dir fs' ps'
  end.

(** [for opt_dir in optional or []: if opt_dir: check(opt_dir)] *)
Fixpoint check_optional (overwrite create_dir : bool) (fs : node)
    (ps : list (option path)) : result node :=
  match ps with
  | [] => Ok fs
  | Some opt_dir :: ps' =>
      fs' <- check overwrite create_dir fs opt_dir ;;
      check_optional overwrite create_dir fs' ps'
  | None :: ps' => check_optional overwrite create_dir fs ps'
  end.

Definition assert_output_dir_exist (overwrite : bool)
    (required : paths_arg path) (optional : option (paths_arg (option path)))
    (create_dir : bool) (fs : node) : result node :=
  let required := as_list (fun p => p) required in
  let optional := match optional with
                  | Some o => as_list Some o
                  | None => []
                  end in
  fs <- check_required overwrite create_dir fs required ;;
  check_optional overwrite create_dir fs optional.

End IoUtils.

(** ** CCPM/io/viz.py *)

Module IoViz.
Open Scope Z_scope.

(** [int(np.ceil(n / r))] for integers [n] and [r > 0], the quotient taken
    exactly. *)
Definition ceil_div (n r : Z) : Z :=
  if n mod r =? 0 then n / r else n / r + 1.

(** The inner function [determine_layout] of [flexible_barplot], for
    [1 <= nb_axes < 2 ** 52]: there [int(np.sqrt(n))] is the integer square
    root and the ceiling of the float quotient [n / r] is the ceiling of the
    exact one.  From [2 ** 52] up the rounding of [np.sqrt] and of the
    division can change the result; at 0 the division raises
    [ZeroDivisionError], which this definition does not show. *)
Definition determine_layout (nb_axes : Z) : Z * Z :=
  let num_rows := Z.sqrt nb_axes in
  let num_cols := ceil_div nb_axes num_rows in
  (num_rows, num_cols).

(** The value [plt.subplots(nrows=r, ncols=c)] binds to [axes], with
    matplotlib's default [squeeze=True]: the one Axes object for a grid of
    one row and one column, and otherwise an array of the [r * c] axes. *)
Inductive subplots_axes : Type :=
| SingleAxes
| AxesArray (cells : nat).

Definition subplots (nrows ncols : Z) : subplots_axes :=
  if (nrows =? 1) && (ncols =? 1) then SingleAxes
  else AxesArray (Z.to_nat (nrows * ncols)).

(** [axes.flat]: the positions of an array of axes, in order; an Axes
    object has no attribute [flat]. *)
Definition flat (axes : subplots_axes) : result (list nat) :=
  match axes with
  | SingleAxes => Raise (AttributeError "flat")
  | AxesArray cells => Ok (seq 0 cells)
  end.

(** What the loop [for i, ax in enumerate(axes.flat)] does with an axis. *)
Inductive axis_use : Type :=
| BarPlot (i : nat)
| AxisOff.

(** [flexible_barplot] from the layout to the end of the loop over the
    axes: what each axis of [axes.flat] is used for. *)
Definition flexible_barplot_axes (num_axes : Z) : result (list axis_use) :=
  let '(num_rows, num_cols) := determine_layout num_axes in
  match flat (subplots num_rows num_cols) with
  | Ok positions =>
      Ok (map (fun i => if Z.of_nat i <? num_axes then BarPlot i else AxisOff)
              positions)
  | Raise e => Raise e
  end.

End IoViz.

(** ** The fuzzy c-means update as the specification words it

    Entry by entry, over the shapes [(S, N)] of the data and [(c, N)] of the
    membership matrix.  These are compared below with what [cmeans0] and
    [cmeans_predict0] compute. *)

Module Update.
Import Numpy.
Open Scope R_scope.

(** The sum of [f 0], ..., [f (n - 1)]. *)
Definition sigma (n : nat) (f : nat -> R) : R := Rsum (map f (seq 0 n)).

(** [u_old], each column divided by its sum, then clamped below by [eps]. *)
Definition normalized (c : nat) (u_old : matrix) (i j : nat) : R :=
  Rmax (item u_old i j / sigma c (fun k => item u_old k j)) eps.

(** [u_old ** m] of the normalized matrix. *)
Definition weight (c : nat) (u_old : matrix) (m : R) (i j : nat) : R :=
  Rpower (normalized c u_old i j) m.

(** Feature [k] of the center of cluster [i]: the [weight]ed sum of the
    data over the [N] samples, divided by the sum of the weights of row [i]. *)
Definition center (c N : nat) (data u_old : matrix) (m : R) (i k : nat) : R :=
  sigma N (fun j => weight c u_old m i j * item data k j)
  / sigma N (fun j => weight c u_old m i j).

(** The distances, clamped below by [eps]. *)
Definition clamped (dist : matrix) (i j : nat) : R :=
  Rmax (item dist i j) eps.

(** [jm]: the sum of [weight * d ** 2] over all entries. *)
Definition objective (c N : nat) (u_old : matrix) (m : R) (dist : matrix) : R :=
  sigma c (fun i => sigma N (fun j =>
    weight c u_old m i j * clamped dist i j ^ 2)).

(** The new membership: [d ** (-2 / (m - 1))], each column divided by its
    sum. *)
Definition membership (c : nat) (m : R) (dist : matrix) (i j : nat) : R :=
  Rpower (clamped dist i j) ((- 2) / (m - 1))
  / sigma c (fun k => Rpower (clamped dist k j) ((- 2) / (m - 1))).

(** Every column of the [(c, N)] array [u] sums to 1. *)
Definition columns_sum_to_1 (c N : nat) (u : matrix) : Prop :=
  has_shape u c N /\
  forall j, (j < N)%nat -> sigma c (fun i => item u i j) = 1.

Definition positive (a : matrix) : Prop :=
  Forall (Forall (fun v => 0 < v)) a.

End Update.

(** ** Names for parts of the two steps *)

Module Pieces.
Import Numpy Cluster.
Open Scope R_scope.

(** Dividing an array by its repeated column sums: the statement
    [x /= np.ones((c, 1)).dot(np.atleast_2d(x.sum(axis=0)))]. *)
Definition by_column_sums (c : nat) (x : matrix) : matrix :=
  div x (dot (ones c 1) (atleast_2d (sum_axis0 x))).

(** The last two statements of both steps: [u = d ** (-2/(m-1))], then
    [u /= ...], for the clamped distances [d = np.fmax(dist, eps)]. *)
Definition new_membership (c : nat) (m : R) (dist : matrix) : matrix :=
  by_column_sums c (power (fmax dist eps) ((- 2) / (m - 1))).

(** [um = np.fmax(u_old / column sums, eps) ** m] *)
Definition um_of (c : nat) (u_old : matrix) (m : R) : matrix :=
  power (fmax (by_column_sums c u_old) eps) m.

(** The unclamped distances of the training step. *)
Definition train_distances
    (compute_distance : string -> matrix -> matrix -> matrix)
    (data u_old : matrix) (c : nat) (m : R) (metric : string) : matrix :=
  compute_distance metric (transpose data)
    (so_cntr (cmeans0 compute_distance data u_old c m metric)).

End Pieces.

(** ** The main loops, pass by pass *)

Module Passes.
Import Numpy Cluster.

(** The shape shared by the two main loops: a counter [p], a body that ends
    with [p += 1], the test [p < maxiter - 1] and a [break]. *)
Section While.

Variable State : Type.
Variable body : State -> State.
Variable stops : State -> bool.
Variable counter : State -> Z.
Variable maxiter : Z.

(** The state after [k] passes through the body, the [break] left aside. *)
Fixpoint passes (start : State) (k : nat) : State :=
  match k with
  | O => start
  | S k' => body (passes start k')
  end.

Fixpoint while_loop (fuel : nat) (st : State) : option State :=
  if (counter st <? maxiter - 1)%Z then
    match fuel with
    | O => None
    | S fuel' =>
        let st' := body st in
        if stops st' then Some st' else while_loop fuel' st'
    end
  else Some st.

(** The passes the test [p < maxiter - 1] still allows. *)
Definition allowed (st : State) : nat := Z.to_nat (maxiter - 1 - counter st).

End While.

Section Unrolled.

Variable compute_distance : string -> matrix -> matrix -> matrix.

(** The local variables of [cmeans] after [k] passes through the loop body. *)
Definition train_pass (data : matrix) (c : nat) (m : R) (metric : string)
  : train_locals -> nat -> train_locals :=
  passes train_locals (cmeans_body compute_distance data c m metric).

Definition predict_pass (test_data : matrix) (c : nat) (m : R)
    (metric : string) : predict_locals -> nat -> predict_locals :=
  passes predict_locals (predict_body compute_distance test_data c m metric).

(** The stopping rule as the loop reads it at the end of a pass. *)
Definition train_stops (error : R) (st : train_locals) : bool :=
  stopping_rule (t_u st) (t_u2 st) error.

Definition predict_stops (error : R) (st : predict_locals) : bool :=
  stopping_rule (p_u st) (p_u2 st) error.

End Unrolled.

End Passes.

(** ** A distance for the examples *)

Module Distance.
Import Numpy.
Open Scope R_scope.

(** Modelled from the spec: [CCPM.clustering.distance.compute_distance] is
    absent from the sources; the specification only says that the metric is
    pluggable and the code that ['euclidean'] is the default.  This instance,
    used to run the engine on concrete inputs, answers for each row [y_i] of
    [y] and each row [x_j] of [x] the Euclidean distance between them,
    whatever the metric string. *)
Definition euclidean (metric : string) (x y : matrix) : matrix :=
  mk_matrix (nrows y) (nrows x)
    (fun i j => sqrt (Rsum (map (fun k => (item x j k - item y i k) ^ 2)
                                (seq 0 (ncols x))))).

(** A constant answer for [np.random.rand]: every entry one half. *)
Definition half_rand (seed : option Z) (c n : nat) : matrix :=
  mk_matrix c n (fun _ _ => / 2).

(** One feature, two samples; two clusters. *)
Definition data_1x2 : matrix := [[0; 1]].
Definition u_2x2 : matrix := [[1; 1]; [1; 3]].
Definition cntr_2x1 : matrix := [[0]; [1]].

(** An instance with two metrics: the sum of the absolute differences for
    ['cityblock'], the Euclidean distance for any other string. *)
Definition cityblock (x y : matrix) : matrix :=
  mk_matrix (nrows y) (nrows x)
    (fun i j => Rsum (map (fun k => Rabs (item x j k - item y i k))
                          (seq 0 (ncols x)))).

Definition by_metric (metric : string) (x y : matrix) : matrix :=
  if String.eqb metric "cityblock" then cityblock x y
  else euclidean metric x y.

(** A distance function that knows one metric only. *)
Definition cityblock_only (metric : string) (x y : matrix) : matrix :=
  if String.eqb metric "cityblock" then cityblock x y else [].

End Distance.

(** ** Files, readers and a directory tree for the examples *)

Module IoFixtures.
Import Os IoUtils.
Open Scope string_scope.

(** [os.path.splitext] of CPython's [posixpath]: the extension starts at the
    last dot of the last component, unless only dots precede it there. *)
Fixpoint rfind_from (c : ascii) (s : string) (i : nat) (last : option nat)
  : option nat :=
  match s with
  | EmptyString => last
  | String a s' =>
      rfind_from c s' (S i) (if Ascii.eqb a c then Some i else last)
  end.

Definition rfind (c : ascii) (s : string) : option nat := rfind_from c s 0 None.

Definition splitext (p : string) : string * string :=
  let start := match rfind "/" p with
               | Some i => S i
               | None => 0%nat
               end in
  match rfind "." p with
  | Some dot =>
      if (start <=? dot)%nat
         && existsb (fun ch => negb (Ascii.eqb ch "."))
              (list_ascii_of_string (substring start (dot - start) p))
      then (substring 0 dot p, substring dot (String.length p - dot) p)
      else (p, "")
  | None => (p, "")
  end.

(** Readers that answer a table naming the call that was made. *)
Definition table := list (list string).

Definition read_csv (file : string) (sep : option (option string))
  : result table :=
  match sep with
  | None => Ok [["read_csv"; file]]
  | Some None => Ok [["read_csv"; file; "sep=None"]]
  | Some (Some d) => Ok [["read_csv"; file; "sep=" ++ d]]
  end.

Definition read_excel (file : string) : result table :=
  Ok [["read_excel"; file]].

(** Every file holds the same line. *)
Definition open_read (file : string) : result string := Ok "a;b;c".

(** The first entry of the whitelist that occurs in the text. *)
Definition occurs (d text : string) : bool :=
  match index 0 d text with
  | Some _ => true
  | None => false
  end.

Definition detect (text : string) (whitelist : list string)
  : result (option string) :=
  Ok (find (fun d => occurs d text) whitelist).

Definition load : string -> result table :=
  load_df_in_any_format table splitext read_csv read_excel open_read detect.

(** A directory of two files, by name and text; the second is empty. *)
Definition stored (file : string) : option string :=
  if String.eqb file "scores.csv" then Some "a,b"
  else if String.eqb file "empty.csv" then Some ""
  else None.

(** [open(file, "r")] and [f.read()] on these files. *)
Definition open_stored (file : string) : result string :=
  match stored file with
  | Some text => Ok text
  | None => Raise (FileNotFoundError [file])
  end.

(** [pd.read_csv] on these files: a missing file raises
    [FileNotFoundError], a file without any text raises
    [pandas.errors.EmptyDataError], and any other file gives a table. *)
Definition read_csv_stored (file : string) (sep : option (option string))
  : result table :=
  match stored file with
  | Some text =>
      if String.eqb text "" then Raise (LibraryError "EmptyDataError")
      else Ok [[text]]
  | None => Raise (FileNotFoundError [file])
  end.

Definition load_stored : string -> result table :=
  load_df_in_any_format table splitext read_csv_stored read_excel open_stored
    detect.

(** A results directory with a file and a sub-directory, next to a regular
    file named [out]. *)
Definition fs_results : node :=
  Dir [("results", Dir [("fig.png", File); ("old", Dir [("a.csv", File)])]);
       ("out", File)].

End IoFixtures.

(** ** CCPM/io/utils.py: input and output files *)

Module Validation.
Import Os IoUtils.
Open Scope string_scope.
Open Scope py_scope.

(** [os.path.dirname] of a path given by its components: the path without
    its last component, the empty string for a single component. *)
Definition dirname (p : path) : path := removelast p.

(** A string is truthy when it is not empty. *)
Definition nonempty (p : path) : bool :=
  match p with
  | [] => false
  | _ :: _ => true
  end.

Definition msg_no_file (p : path) : string :=
  "File " ++ show p ++ " does not exist.".

(** The inner function [check(path)] of [assert_input]. *)
Definition check_input (fs : node) (p : path) : result unit :=
  if negb (isfile fs p) then Raise (SystemExit (msg_no_file p)) else Ok tt.

(** [for file in required: check(file)] *)
Fixpoint check_inputs (fs : node) (ps : list path) : result unit :=
  match ps with
  | [] => Ok tt
  | file :: ps' => _ <- check_input fs file ;; check_inputs fs ps'
  end.

(** [for file in optional or []: if file is not None: check(file)].  Here
    [None] is Python's [None] only. *)
Fixpoint check_optional_inputs (fs : node) (ps : list (option path))
  : result unit :=
  match ps with
  | [] => Ok tt
  | Some file :: ps' =>
      _ <- check_input fs file ;; check_optional_inputs fs ps'
  | None :: ps' => check_optional_inputs fs ps'
  end.

Definition assert_input (required : paths_arg path)
    (optional : option (paths_arg (option path))) (fs : node) : result unit :=
  let required := as_list (fun p => p) required in
  let optional := match optional with
                  | Some o => as_list Some o
                  | None => []
                  end in
  _ <- check_inputs fs required ;;
  check_optional_inputs fs optional.

Definition msg_exists (p : path) : string :=
  "Output file " ++ show p
    ++ " exists. Select the -f to force overwriting of the existing file.".

Definition msg_no_dir (d : path) : string :=
  "Directory " ++ show d ++ " is not created for the output file.".

(** The inner function [check(path)] of [assert_output]. *)
Definition check_output (overwrite check_dir : bool) (fs : node) (p : path)
  : result unit :=
  if isfile fs p && negb overwrite then Raise (SystemExit (msg_exists p))
  else if check_dir then
    let path_dir := dirname p in
    if nonempty path_dir && negb (isdir fs path_dir)
    then Raise (SystemExit (msg_no_dir path_dir))
    else Ok tt
  else Ok tt.

Fixpoint check_outputs (overwrite check_dir : bool) (fs : node)
    (ps : list path) : result unit :=
  match ps with
  | [] => Ok tt
  | file :: ps' =>
      _ <- check_output overwrite check_dir fs file ;;
      check_outputs overwrite check_dir fs ps'
  end.

(** [for file in optional or []: if file: check(file)] *)
Fixpoint check_optional_outputs (overwrite check_dir : bool) (fs : node)
    (ps : list (option path)) : result unit :=
  match ps with
  | [] => Ok tt
  | Some file :: ps' =>
      _ <- check_output overwrite check_dir fs file ;;
      check_optional_outputs overwrite check_dir fs ps'
  | None :: ps' => check_optional_outputs overwrite check_dir fs ps'
  end.

Definition assert_output (overwrite : bool) (required : paths_arg path)
    (optional : option (paths_arg (option path))) (check_dir : bool)
    (fs : node) : result unit :=
  let required := as_list (fun p => p) required in
  let optional := match optional with
                  | Some o => as_list Some o
                  | None => []
                  end in
  _ <- check_outputs overwrite check_dir fs required ;;
  check_optional_outputs overwrite check_dir fs optional.

(** The paths a call checks, in the order it checks them. *)
Definition given (optional : option (paths_arg (option path)))
  : list (option path) :=
  match optional with
  | Some o => as_list Some o
  | None => []
  end.

Fixpoint somes (ps : list (option path)) : list path :=
  match ps with
  | [] => []
  | Some p :: ps' => p :: somes ps'
  | None :: ps' => somes ps'
  end.

Definition checked (required : paths_arg path)
    (optional : option (paths_arg (option path))) : list path :=
  (as_list (fun p => p) required ++ somes (given optional))%list.

(** Neither path leads to the other: they part at some component. *)
Fixpoint apart (p q : path) : bool :=
  match p, q with
  | a :: p', b :: q' => if String.eqb a b then apart p' q' else true
  | _, _ => false
  end.

(** A path [assert_output] lets through. *)
Definition acceptable (overwrite check_dir : bool) (fs : node) (p : path)
  : Prop :=
  (isfile fs p = false \/ overwrite = true) /\
  (check_dir = false \/ dirname p = [] \/ isdir fs (dirname p) = true).

(** An existing, empty directory. *)
Definition empty_dir (fs : node) (p : path) : Prop :=
  isdir fs p = true /\ listdir fs p = Ok [].

End Validation.

(** ** CCPM/io/utils.py: the chapters of the PDF report *)

Module Report.
Open Scope string_scope.
Open Scope py_scope.

(** The calls a chapter makes on the [FPDF] object it extends, in order.
    [Image name w h] is [self.image(name, w=...)] or
    [self.image(name, h=...)]. *)
Inductive fpdf_call : Type :=
| AddPage (orientation : string)
| SetFont (family style : string) (size : Z)
| SetFillColor (r g b : Z)
| Cell (w h : Z) (txt : string) (border ln : Z) (align : string)
| MultiCell (w h : Z) (txt : string)
| Ln (h : option Z)
| Image (name : string) (w h : option Q).

(** [chapter_title(num, label)]; [num] is given by its text. *)
Definition chapter_title (num label : string) : list fpdf_call :=
  [SetFont "Arial" "B" 14; SetFillColor 200 220 255;
   Cell 0 6 (num ++ " : " ++ label) 0 1 "L"; Ln (Some 4%Z)].

(** [chapter_body(string)] *)
Definition chapter_body (text : string) : list fpdf_call :=
  [SetFont "Times" "" 12; MultiCell 0 5 text; Ln None].

(** The factor 0.264583 from pixels to millimetres. *)
Definition px_to_mm : Q := 264583 # 1000000.

(** [pdf_size[orientation]["w"]] and [pdf_size[orientation]["h"]]. *)
Definition pdf_w (orientation : string) : Q :=
  if String.eqb orientation "P" then 210 else 297.
Definition pdf_h (orientation : string) : Q :=
  if String.eqb orientation "P" then 297 else 210.

(** [x if x < bound else bound] *)
Definition fit (x bound : Q) : Q := if Qlt_le_dec x bound then x else bound.

(** An argument is truthy when it is a non-empty string. *)
Definition truthy (image : option string) : option string :=
  match image with
  | Some s => if String.eqb s "" then None else Some s
  | None => None
  end.

Section Chapter.

(** [Image.open(image).size], in pixels. *)
Variable image_size : string -> result (Z * Z).

(** [print_chapter(num, title, string, image=None)]: the calls made on the
    [FPDF] object.  [orientation], [width] and [height] are assigned under
    [if image:] only. *)
Definition print_chapter (num title text : string) (image : option string)
  : result (list fpdf_call) :=
  locals <-
    match truthy image with
    | Some img =>
        size <- image_size img ;;
        let width := (inject_Z (fst size) * px_to_mm)%Q in
        let height := (inject_Z (snd size) * px_to_mm)%Q in
        let orientation := if Qlt_le_dec width height then "P" else "L" in
        let width := fit width (pdf_w orientation - 100) in
        let height := fit height (pdf_h orientation - 100) in
        Ok (Some orientation, Some width, Some height)
    | None => Ok (None, None, None)
    end ;;
  let '(orientation, width, height) := locals in
  orientation <- read_local "orientation" orientation ;;
  let page :=
    (AddPage orientation :: chapter_title num title ++ chapter_body text)%list in
  match truthy image with
  | Some img =>
      width <- read_local "width" width ;;
      height <- read_local "height" height ;;
      if Qlt_le_dec height width
      then Ok (page ++ [Image img None (Some height)])%list
      else Ok (page ++ [Image img (Some width) None])%list
  | None => Ok page
  end.

End Chapter.

End Report.

(** ** CCPM/io/viz.py: the labels and the width of the bars *)

Module BarLabels.
Import IoViz.

(** What [autolabel] reads of a bar: [get_x()], [get_width()] and
    [get_height()]. *)
Record rect : Type := {
  get_x : Q;
  get_width : Q;
  get_height : Q
}.

(** A call [axs.text(x, y, s, ha='center', va='bottom')]. *)
Record text : Type := {
  text_x : Q;
  text_y : Q;
  text_s : string
}.

Section Labels.

(** ['%.3f' % float(height)] *)
Variable format_3f : Q -> string.

(** One pass through the loop of [autolabel]. *)
Definition label (r : rect) : text :=
  let height := get_height r in
  if Qlt_le_dec 0 height then
    {| text_x := get_x r + get_width r / 2;
       text_y := height * (105 # 100);
       text_s := format_3f height |}
  else
    {| text_x := get_x r + get_width r / 2;
       text_y := height * (105 # 100) - (15 # 100);
       text_s := format_3f height |}.

(** The list [texts] that [autolabel] hands to [adjust_text]. *)
Definition autolabel (rects : list rect) : list text := map label rects.

End Labels.

(** [bar_width = 0.8 / num_cols] in [flexible_barplot]. *)
Definition bar_width (num_axes : Z) : Q :=
  (8 # 10) / inject_Z (snd (determine_layout num_axes)).

End BarLabels.

(** ** CCPM/clustering/viz.py: the legend and the pairs of clusters *)

Module ClusterViz.
Open Scope string_scope.
Open Scope py_scope.
Open Scope Z_scope.

Section Legend.

(** The handles of a legend, compared by identity. *)
Variable handle : Type.
Variable same_handle : handle -> handle -> bool.

(** [int(float(x))] for the text [x] of a tag. *)
Variable int_of_float : string -> result Z.

(** The list [tags]: [type(tags[0]) is str] decides which it is. *)
Inductive tag_list : Type :=
| StrTags (tags : list string)
| IntTags (tags : list Z).

(** [[int(float(x)) for x in tags]] *)
Fixpoint convert (tags : list string) : result (list Z) :=
  match tags with
  | [] => Ok []
  | x :: tags' =>
      v <- int_of_float x ;;
      vs <- convert tags' ;;
      Ok (v :: vs)
  end.

(** Two tuples [sorted] cannot order: the tags are equal, and the handles,
    which have no order, are not the same object. *)
Definition unordered (a b : Z * handle) : bool :=
  (fst a =? fst b) && negb (same_handle (snd a) (snd b)).

Fixpoint has_unordered (l : list (Z * handle)) : bool :=
  match l with
  | [] => false
  | a :: l' => existsb (unordered a) l' || has_unordered l'
  end.

Fixpoint insert (a : Z * handle) (l : list (Z * handle))
  : list (Z * handle) :=
  match l with
  | [] => [a]
  | b :: l' => if fst a <=? fst b then a :: l else b :: insert a l'
  end.

Fixpoint sort (l : list (Z * handle)) : list (Z * handle) :=
  match l with
  | [] => []
  | a :: l' => insert a (sort l')
  end.

(** The order of the tuples by their tags. *)
Definition by_tag (a b : Z * handle) : Prop := fst a <= fst b.

(** [sorted(zip(tags, handles))] *)
Definition sorted (l : list (Z * handle)) : result (list (Z * handle)) :=
  if has_unordered l then Raise (LibraryError "TypeError") else Ok (sort l).

(** [sort_int_labels_legend(ax, title)], with the handles and tags that
    [ax.get_legend_handles_labels()] answers: the arguments of the call
    [ax.legend(handle, tag, title=title)] it returns. *)
Definition sort_int_labels_legend (handles : list handle) (tags : tag_list)
    (title : option string)
  : result (list handle * list Z * option string) :=
  tags <- match tags with
          | StrTags [] => Raise (LibraryError "IndexError")
          | IntTags [] => Raise (LibraryError "IndexError")
          | StrTags l => convert l
          | IntTags l => Ok l
          end ;;
  pairs <- sorted (combine tags handles) ;;
  match pairs with
  | [] => Raise (LibraryError "ValueError")
  | _ :: _ => Ok (map snd pairs, map fst pairs, title)
  end.

End Legend.

(** The list [pairs] of [plot_grouped_barplot]. *)
Definition pairs (features : list string) (clusters : list Z)
  : list ((string * Z) * (string * Z)) :=
  flat_map (fun var =>
    flat_map (fun cluster1 =>
      flat_map (fun cluster2 =>
        if negb (cluster1 =? cluster2) && negb (cluster1 >? cluster2)
        then [((var, cluster1), (var, cluster2))]
        else [])
      clusters)
    clusters)
  features.

(** The entry of [pairs] for one feature and two clusters. *)
Definition pair_of (var : string) (cluster1 cluster2 : Z)
  : list ((string * Z) * (string * Z)) :=
  if negb (cluster1 =? cluster2) && negb (cluster1 >? cluster2)
  then [((var, cluster1), (var, cluster2))]
  else [].

End ClusterViz.

(** ** Inputs for the examples of the further properties *)

Module MoreFixtures.
Import Numpy Os IoUtils IoFixtures BarLabels.
Open Scope string_scope.

(** A membership matrix of two clusters and two samples. *)
Definition u_partition : matrix := [[/ 2; / 4]; [/ 2; 3 / 4]]%R.

(** Every image is 3000 pixels wide and 1000 pixels high. *)
Definition wide_image (image : string) : result (Z * Z) := Ok (3000, 1000)%Z.

(** ['%.3f'] for the heights of the bars of the examples. *)
Definition format_3f (height : Q) : string :=
  if Qeq_bool height (1 # 2) then "0.500"
  else if Qeq_bool height (- (1 # 4)) then "-0.250"
  else "0.000".

(** [int(float(x))] for the tags of the examples. *)
Definition int_of_float (x : string) : result Z :=
  if String.eqb x "1.0" then Ok 1%Z
  else if String.eqb x "2.0" then Ok 2%Z
  else if String.eqb x "10.0" then Ok 10%Z
  else Raise (LibraryError "ValueError").

(** [fs_results] after its directory [results] has been emptied. *)
Definition fs_emptied : node := Dir [("results", Dir []); ("out", File)].

(** [fs_results] after [results] has been emptied and [tmp] and [logs]
    created. *)
Definition fs_validated : node :=
  Dir [("results", Dir []); ("out", File); ("tmp", Dir []); ("logs", Dir [])].

(** A bar of height 0.5 at 0 and a bar of height -0.25 at 1. *)
Definition two_bars : list rect :=
  [ {| get_x := - (1 # 10); get_width := 2 # 10; get_height := 1 # 2 |};
    {| get_x := 9 # 10; get_width := 2 # 10; get_height := - (1 # 4) |} ]%Q.

(** Three clusters, as [np.unique] orders them. *)
Definition three_clusters : list Z := [1; 2; 3]%Z.

End MoreFixtures.

(** ** CCPM/clustering/cluster.py in binary64 arithmetic

    The two steps once more, with every float64 a primitive binary64 float:
    each operation rounds to nearest, overflows to an infinity and
    propagates NaN as IEEE 754 has it.  An array is a list of rows.

    What numpy computes with more than one rounding is a parameter, kept in
    an [arithmetic]: [x ** y] with a float exponent, which the C library
    computes; the reductions [a.sum(axis=0)], [a.sum(axis=1)] and [a.sum()],
    where the order and the grouping of the additions depend on the memory
    layout and on the length of the run; and the entries of [a.dot(b)],
    which BLAS computes.  [x ** 2] with the integer 2 is [x * x].
    [-2. / (m - 1)] raises [ZeroDivisionError] when [m - 1] is zero.
    Shapes are not checked: where numpy raises on arrays whose shapes do not
    fit, the operations here stop at the shorter one, and the theorems
    assume the shapes the docstrings give. *)

Module Float64.
Import Floats.
Open Scope float_scope.

Definition array := list (list float).

(** [np.finfo(np.float64).eps] *)
Definition eps : float := 0x1p-52.

Definition nrows (a : array) : nat := length a.

Definition ncols (a : array) : nat :=
  match a with
  | [] => 0
  | row :: _ => length row
  end.

Definition item (a : array) (i j : nat) : float := nth j (nth i a []) 0.

Definition shaped (a : array) (r c : nat) : Prop :=
  length a = r /\ Forall (fun row => length row = c) a.

(** Column [j] of [a], from the first row to the last. *)
Definition column (a : array) (j : nat) : list float :=
  map (fun row => nth j row 0) a.

(** The terms [f 0], ..., [f (n - 1)]. *)
Definition run (n : nat) (f : nat -> float) : list float := map f (seq 0 n).

Definition zip_row (op : float -> float -> float) (x y : list float)
  : list float :=
  map (fun xy => op (fst xy) (snd xy)) (combine x y).

Definition zip_with (op : float -> float -> float) (a b : array) : array :=
  map (fun xy => zip_row op (fst xy) (snd xy)) (combine a b).

(** [a.T] *)
Definition transpose (a : array) : array := map (column a) (seq 0 (ncols a)).

Definition ones (r c : nat) : array := repeat (repeat 1 c) r.

Definition atleast_2d (v : list float) : array := [v].

(** [np.fmax] of two floats: the greater one, and the other one when one of
    them is NaN. *)
Definition fmax1 (x y : float) : float :=
  if is_nan x then y else if is_nan y then x else if x <? y then y else x.

Definition fmax (a : array) (y : float) : array :=
  map (map (fun x => fmax1 x y)) a.

Definition div : array -> array -> array := zip_with PrimFloat.div.
Definition mul : array -> array -> array := zip_with PrimFloat.mul.
Definition square (a : array) : array := map (map (fun x => x * x)) a.

(** Plus infinity or NaN. *)
Definition infinite_or_nan (x : float) : Prop :=
  Prim2SF x = S754_infinity false \/ Prim2SF x = S754_nan.

(** What is left to the libraries: [x ** y]; the sum of the terms of a
    column ([sum(axis=0)]), of a row ([sum(axis=1)]) and of an array
    ([sum()]), given in index order; an entry of [a.dot(b)] from a row of
    [a] and a column of [b]. *)
Record arithmetic : Type := {
  power : float -> float -> float;
  column_total : list float -> float;
  row_total : list float -> float;
  grand_total : list float -> float;
  inner : list float -> list float -> float
}.

(** What the theorems ask of them: a [dot] over one term is the product of
    this term, and a sum of a column with the term plus infinity is plus
    infinity or NaN, as it is in whatever order the terms are added. *)
Definition inner_of_one_term (np : arithmetic) : Prop :=
  forall x y, inner np [x] [y] = x * y.

Definition total_keeps_infinity (np : arithmetic) : Prop :=
  forall l i, (i < length l)%nat -> nth i l 0 = infinity ->
    infinite_or_nan (column_total np l).

Record step_out : Type := {
  so_cntr : array;
  so_u : array;
  so_jm : float;
  so_d : array;
  so_u_old_arg : array
}.

Record pstep_out : Type := {
  po_u : array;
  po_jm : float;
  po_d : array;
  po_u_old_arg : array
}.

Section Engine.

Variable np : arithmetic.

(** [compute_distance(x, y, metric=...)], which is not part of the sources
    at hand. *)
Variable compute_distance : string -> array -> array -> array.

Definition sum_axis0 (a : array) : list float :=
  map (fun j => column_total np (column a j)) (seq 0 (ncols a)).

Definition sum_axis1 (a : array) : list float := map (row_total np) a.

Definition sum_all (a : array) : float := grand_total np (concat a).

Definition dot (a b : array) : array :=
  map (fun row => map (inner np row) (transpose b)) a.

Definition power_array (a : array) (y : float) : array :=
  map (map (fun x => power np x y)) a.

(** [x / np.ones((c, 1)).dot(np.atleast_2d(x.sum(axis=0)))] *)
Definition by_column_sums (c : nat) (x : array) : array :=
  div x (dot (ones c 1) (atleast_2d (sum_axis0 x))).

(** [- 2. / (m - 1)] *)
Definition exponent (m : float) : result float :=
  if m - 1 =? 0 then Raise ZeroDivisionError else Ok (-2 / (m - 1)).

Definition cmeans0 (data u_old : array) (c : nat) (m : float)
    (metric : string) : result step_out :=
  let u_old_arg :=
    div u_old (dot (ones c 1) (atleast_2d (sum_axis0 u_old))) in
  let u_old := fmax u_old_arg eps in
  let um := power_array u_old m in
  let data := transpose data in
  let cntr :=
    div (dot um data)
        (transpose (dot (ones (ncols data) 1) (atleast_2d (sum_axis1 um)))) in
  let d := compute_distance metric data cntr in
  let d := fmax d eps in
  let jm := sum_all (mul um (square d)) in
  match exponent m with
  | Raise e => Raise e
  | Ok e =>
      let u := power_array d e in
      let u := div u (dot (ones c 1) (atleast_2d (sum_axis0 u))) in
      Ok {| so_cntr := cntr; so_u := u; so_jm := jm; so_d := d;
            so_u_old_arg := u_old_arg |}
  end.

Definition cmeans_predict0 (test_data cntr u_old : array) (c : nat)
    (m : float) (metric : string) : result pstep_out :=
  let u_old_arg :=
    div u_old (dot (ones c 1) (atleast_2d (sum_axis0 u_old))) in
  let u_old := fmax u_old_arg eps in
  let um := power_array u_old m in
  let test_data := transpose test_data in
  let d := compute_distance metric test_data cntr in
  let d := fmax d eps in
  let jm := sum_all (mul um (square d)) in
  match exponent m with
  | Raise e => Raise e
  | Ok e =>
      let u := power_array d e in
      let u := div u (dot (ones c 1) (atleast_2d (sum_axis0 u))) in
      Ok {| po_u := u; po_jm := jm; po_d := d; po_u_old_arg := u_old_arg |}
  end.

(** The entries of what a step computes.  [u_old], each column divided by
    its sum, then clamped below by [eps]. *)
Definition normalized (c : nat) (u_old : array) (i j : nat) : float :=
  fmax1 (item u_old i j
         / (1 * column_total np (run c (fun k => item u_old k j))))
        eps.

(** [u_old ** m] of the normalized array. *)
Definition weight (c : nat) (u_old : array) (m : float) (i j : nat) : float :=
  power np (normalized c u_old i j) m.

(** Feature [k] of the center of cluster [i]. *)
Definition center (c N : nat) (data u_old : array) (m : float) (i k : nat)
  : float :=
  inner np (run N (weight c u_old m i)) (run N (fun j => item data k j))
  / (1 * row_total np (run N (weight c u_old m i))).

(** The distances, clamped below by [eps]. *)
Definition clamped (dist : array) (i j : nat) : float :=
  fmax1 (item dist i j) eps.

(** [jm]: the sum of the terms [um * d ** 2], row after row. *)
Definition objective (c N : nat) (u_old : array) (m : float) (dist : array)
  : float :=
  grand_total np
    (concat
       (map (fun i =>
               run N (fun j =>
                        weight c u_old m i j
                        * (clamped dist i j * clamped dist i j)))
            (seq 0 c))).

(** The new membership: [d ** e], divided by the sum of its column. *)
Definition membership (c : nat) (e : float) (dist : array) (i j : nat)
  : float :=
  power np (clamped dist i j) e
  / (1 * column_total np (run c (fun k => power np (clamped dist k j) e))).

End Engine.

(** *** An instance, and inputs for the examples *)

(** The terms added in order, from the first. *)
Definition total (l : list float) : float :=
  match l with
  | [] => 0
  | x :: rest => fold_left PrimFloat.add rest x
  end.

(** The sum of the entries of column [j], added in the order of the rows. *)
Definition column_sum (u : array) (j : nat) : float := total (column u j).

(** The value of a finite float, as a rational number, and the sum of the
    values of the entries of column [j], without any rounding. *)
Definition exact (x : float) : Q :=
  match Prim2SF x with
  | S754_finite s mant e =>
      let v := if s then Zneg mant else Zpos mant in
      if (0 <=? e)%Z then inject_Z (v * 2 ^ e)
      else (v # Z.to_pos (2 ^ (- e)))%Q
  | _ => 0%Q
  end.

Definition exact_column_sum (u : array) (j : nat) : Q :=
  fold_right Qplus 0%Q (map (fun row => exact (nth j row 0)) u).

(** The exponent of a power of two, and the integer a float is. *)
Definition power_of_two (x : float) : option Z :=
  match Prim2SF x with
  | S754_finite false mant e =>
      let k := Z.log2 (Zpos mant) in
      if (Zpos mant =? 2 ^ k)%Z then Some (k + e)%Z else None
  | _ => None
  end.

Definition integer_of (y : float) : option Z :=
  match Prim2SF y with
  | S754_zero _ => Some 0%Z
  | S754_finite s mant e =>
      let sgn := if s then (-1)%Z else 1%Z in
      if (0 <=? e)%Z then Some (sgn * Zpos mant * 2 ^ e)%Z
      else if (Zpos mant mod 2 ^ (- e) =? 0)%Z
           then Some (sgn * (Zpos mant / 2 ^ (- e)))%Z
           else None
  | _ => None
  end.

(** [x ** y] where the result does not depend on the library that computes
    it: numpy squares for [y = 2] and takes the reciprocal for [y = -1];
    1 to any power is 1; an integer power of a power of two is exact, or
    overflows to infinity, or underflows.  NaN stands for every other case,
    which no example uses. *)
Definition exact_power (x y : float) : float :=
  if y =? 2 then x * x
  else if y =? -1 then 1 / x
  else if x =? 1 then 1
  else match power_of_two x, integer_of y with
       | Some e, Some n => Z.ldexp 1 (e * n)
       | _, _ => nan
       end.

(** Every sum in index order, every product rounded before it is added. *)
Definition in_order : arithmetic :=
  {| power := exact_power;
     column_total := total;
     row_total := total;
     grand_total := total;
     inner := fun row col => total (zip_row PrimFloat.mul row col) |}.

(** The Euclidean distance of each row of [y] to each row of [x], whatever
    the metric string. *)
Definition euclidean (metric : string) (x y : array) : array :=
  map (fun yi =>
         map (fun xj =>
                sqrt (total (zip_row (fun a b => (a - b) * (a - b)) xj yi)))
             x)
      y.

(** One feature, two samples, three clusters: the memberships are already
    normalized and powers of two. *)
Definition data_1x2 : array := [[10; 1]].
Definition u_3x2 : array :=
  [[0x1p-2; 0x1p-1]; [0x1p-1; 0x1p-2]; [0x1p-2; 0x1p-2]].

(** One sample at 0 and two trained centers, at 1 and at 9. *)
Definition test_1x1 : array := [[0]].
Definition cntr_2x1 : array := [[1]; [9]].
Definition u_2x1 : array := [[0x1p-1]; [0x1p-1]].

(** Two clusters and two samples, every membership one half. *)
Definition u_2x2 : array := [[0x1p-1; 0x1p-1]; [0x1p-1; 0x1p-1]].

(** One cluster, whose center is the one sample. *)
Definition u_1x1 : array := [[1]].

End Float64.

(** * Properties *)

(** Split the conjunctions that are written in the goal, and no definition
    that unfolds to one. *)
Ltac conjs := repeat match goal with |- _ /\ _ => split end.

(** ** Arrays *)

Module NumpyFacts.
Import Numpy.
Open Scope R_scope.

Lemma eps_pos : 0 < eps.
Proof. unfold eps. apply Rinv_0_lt_compat, pow_lt. lra. Qed.

Lemma nth_map_seq (A : Type) (f : nat -> A) (n i : nat) (d : A) :
  (i < n)%nat -> nth i (map f (seq 0 n)) d = f i.
Proof.
  intros Hi.
  rewrite (nth_indep _ d (f 0%nat)) by (rewrite length_map, length_seq; exact Hi).
  rewrite map_nth, seq_nth by exact Hi. reflexivity.
Qed.

Lemma item_mk_matrix (r c : nat) (f : nat -> nat -> R) (i j : nat) :
  (i < r)%nat -> (j < c)%nat -> item (mk_matrix r c f) i j = f i j.
Proof.
  intros Hi Hj. unfold item, mk_matrix.
  rewrite (nth_map_seq _ (fun i => map (fun j => f i j) (seq 0 c))) by exact Hi.
  apply (nth_map_seq _ (fun j => f i j)); exact Hj.
Qed.

Lemma has_shape_mk_matrix (r c : nat) (f : nat -> nat -> R) :
  has_shape (mk_matrix r c f) r c.
Proof.
  split.
  - unfold mk_matrix. now rewrite length_map, length_seq.
  - apply Forall_forall. intros row Hrow.
    apply in_map_iff in Hrow. destruct Hrow as [i [<- _]].
    now rewrite length_map, length_seq.
Qed.

Lemma nrows_of_shape (a : matrix) (r c : nat) : has_shape a r c -> nrows a = r.
Proof. now intros [H _]. Qed.

Lemma ncols_of_shape (a : matrix) (r c : nat) :
  has_shape a r c -> (0 < r)%nat -> ncols a = c.
Proof.
  intros [Hr Hc] Hpos. unfold ncols.
  destruct a as [|row a']; simpl in *; [lia|].
  now inversion Hc.
Qed.

Lemma row_length (a : matrix) (r c i : nat) :
  has_shape a r c -> (i < r)%nat -> length (nth i a []) = c.
Proof.
  intros [Hr Hc] Hi.
  rewrite Forall_forall in Hc. apply Hc, nth_In. lia.
Qed.

Lemma has_shape_map (g : R -> R) (a : matrix) (r c : nat) :
  has_shape a r c -> has_shape (map (map g) a) r c.
Proof.
  intros [Hr Hc]. split.
  - now rewrite length_map.
  - apply Forall_forall. intros row Hrow.
    apply in_map_iff in Hrow. destruct Hrow as [row' [<- Hin]].
    rewrite length_map. rewrite Forall_forall in Hc. now apply Hc.
Qed.

Lemma item_map (g : R -> R) (a : matrix) (r c i j : nat) :
  has_shape a r c -> (i < r)%nat -> (j < c)%nat ->
  item (map (map g) a) i j = g (item a i j).
Proof.
  intros Hs Hi Hj. unfold item.
  change (@nil R) with (map g []) at 1. rewrite map_nth.
  rewrite (nth_indep _ 0 (g 0)).
  - now rewrite map_nth.
  - rewrite length_map, (row_length a r c i); assumption.
Qed.

Lemma has_shape_zip_with (op : R -> R -> R) (a b : matrix) (r c : nat) :
  has_shape a r c -> (0 < r)%nat -> has_shape (zip_with op a b) r c.
Proof.
  intros Hs Hr. unfold zip_with.
  rewrite (nrows_of_shape a r c Hs), (ncols_of_shape a r c Hs Hr).
  apply has_shape_mk_matrix.
Qed.

Lemma item_zip_with (op : R -> R -> R) (a b : matrix) (r c i j : nat) :
  has_shape a r c -> (i < r)%nat -> (j < c)%nat ->
  item (zip_with op a b) i j = op (item a i j) (item b i j).
Proof.
  intros Hs Hi Hj. unfold zip_with.
  rewrite (nrows_of_shape a r c Hs), (ncols_of_shape a r c Hs) by lia.
  now rewrite item_mk_matrix.
Qed.

(** *** Sums *)

Lemma Rsum_ext (A : Type) (f g : A -> R) (l : list A) :
  (forall x, In x l -> f x = g x) -> Rsum (map f l) = Rsum (map g l).
Proof.
  induction l as [|x l IH]; intros H; simpl; [reflexivity|].
  rewrite (H x) by now left. rewrite IH; [reflexivity|].
  intros y Hy. apply H. now right.
Qed.

Lemma Rsum_seq_ext (f g : nat -> R) (n : nat) :
  (forall i, (i < n)%nat -> f i = g i) ->
  Rsum (map f (seq 0 n)) = Rsum (map g (seq 0 n)).
Proof.
  intros H. apply Rsum_ext. intros i Hi. apply in_seq in Hi. apply H. lia.
Qed.

Lemma Rsum_div (A : Type) (f : A -> R) (s : R) (l : list A) :
  Rsum (map (fun x => f x / s) l) = Rsum (map f l) / s.
Proof.
  induction l as [|x l IH]; simpl.
  - unfold Rdiv. now rewrite Rmult_0_l.
  - rewrite IH. unfold Rdiv. ring.
Qed.

Lemma Rsum_pos (A : Type) (f : A -> R) (l : list A) :
  l <> [] -> (forall x, In x l -> 0 < f x) -> 0 < Rsum (map f l).
Proof.
  induction l as [|x l IH]; intros Hne Hpos; [congruence|].
  simpl. destruct l as [|y l].
  - simpl. rewrite Rplus_0_r. apply Hpos. now left.
  - apply Rplus_lt_0_compat.
    + apply Hpos. now left.
    + apply IH; [discriminate|]. intros z Hz. apply Hpos. now right.
Qed.

Lemma Rsum_seq_pos (f : nat -> R) (n : nat) :
  (0 < n)%nat -> (forall i, (i < n)%nat -> 0 < f i) ->
  0 < Rsum (map f (seq 0 n)).
Proof.
  intros Hn Hpos. apply Rsum_pos.
  - destruct n; [lia|discriminate].
  - intros i Hi. apply in_seq in Hi. apply Hpos. lia.
Qed.

Lemma Rsum_nonneg (l : list R) : Forall (fun v => 0 <= v) l -> 0 <= Rsum l.
Proof.
  induction 1 as [|x l Hx _ IH]; simpl; [lra|]. lra.
Qed.

(** A row is the list of its items. *)
Lemma row_items (row : list R) :
  row = map (fun j => nth j row 0) (seq 0 (length row)).
Proof.
  apply (nth_ext _ _ 0 0).
  - now rewrite length_map, length_seq.
  - intros j Hj. now rewrite (nth_map_seq _ (fun j => nth j row 0)).
Qed.

Lemma Rsum_row (a : matrix) (r c i : nat) :
  has_shape a r c -> (i < r)%nat ->
  Rsum (nth i a []) = Rsum (map (fun j => item a i j) (seq 0 c)).
Proof.
  intros Hs Hi. rewrite (row_items (nth i a [])) at 1.
  now rewrite (row_length a r c i Hs Hi).
Qed.

(** The rows of an array are the rows at the indices below its height. *)
Lemma rows_items (a : matrix) :
  a = map (fun i => nth i a []) (seq 0 (length a)).
Proof.
  apply (nth_ext _ _ [] []).
  - now rewrite length_map, length_seq.
  - intros i Hi. now rewrite (nth_map_seq _ (fun i => nth i a [])).
Qed.

Lemma sum_all_items (a : matrix) (r c : nat) :
  has_shape a r c ->
  sum_all a =
  Rsum (map (fun i => Rsum (map (fun j => item a i j) (seq 0 c))) (seq 0 r)).
Proof.
  intros Hs. unfold sum_all.
  rewrite (rows_items a) at 1. rewrite map_map.
  destruct Hs as [Hr Hc]. rewrite Hr.
  apply Rsum_seq_ext. intros i Hi.
  apply (Rsum_row a r c i); [now split | exact Hi].
Qed.

End NumpyFacts.

(** ** One step of the engine *)

Module StepFacts.
Import Numpy NumpyFacts Update Cluster Pieces.
Open Scope R_scope.

Lemma length_sum_axis0 (a : matrix) (r c : nat) :
  has_shape a r c -> (0 < r)%nat -> length (sum_axis0 a) = c.
Proof.
  intros Hs Hr. unfold sum_axis0.
  now rewrite length_map, length_seq, (ncols_of_shape a r c Hs Hr).
Qed.

Lemma nth_sum_axis0 (a : matrix) (r c j : nat) :
  has_shape a r c -> (0 < r)%nat -> (j < c)%nat ->
  nth j (sum_axis0 a) 0 = sigma r (fun i => item a i j).
Proof.
  intros Hs Hr Hj. unfold sum_axis0, sigma.
  rewrite (ncols_of_shape a r c Hs Hr), (nrows_of_shape a r c Hs).
  now rewrite (nth_map_seq _ (fun j => Rsum (map (fun i => item a i j) (seq 0 r)))).
Qed.

(** [np.ones((c, 1)).dot(np.atleast_2d(v))] repeats the row [v] [c] times. *)
Lemma has_shape_repeat_row (c : nat) (v : vector) :
  has_shape (dot (ones c 1) (atleast_2d v)) c (length v).
Proof.
  unfold dot.
  replace (nrows (ones c 1)) with c
    by (symmetry; apply (nrows_of_shape _ c 1%nat), has_shape_mk_matrix).
  apply has_shape_mk_matrix.
Qed.

Lemma item_repeat_row (c : nat) (v : vector) (i j : nat) :
  (i < c)%nat -> (j < length v)%nat ->
  item (dot (ones c 1) (atleast_2d v)) i j = nth j v 0.
Proof.
  intros Hi Hj. unfold dot.
  assert (Hones : has_shape (ones c 1) c 1) by apply has_shape_mk_matrix.
  rewrite (nrows_of_shape _ c 1%nat Hones).
  rewrite (ncols_of_shape _ c 1%nat Hones) by lia.
  change (ncols (atleast_2d v)) with (length v).
  rewrite item_mk_matrix by assumption.
  simpl. unfold ones. rewrite item_mk_matrix by lia.
  unfold item, atleast_2d. simpl. ring.
Qed.

Lemma has_shape_by_column_sums (c n : nat) (x : matrix) :
  has_shape x c n -> (0 < c)%nat -> has_shape (by_column_sums c x) c n.
Proof. intros Hs Hc. now apply has_shape_zip_with. Qed.

Lemma item_by_column_sums (c n : nat) (x : matrix) (i j : nat) :
  has_shape x c n -> (i < c)%nat -> (j < n)%nat ->
  item (by_column_sums c x) i j = item x i j / sigma c (fun k => item x k j).
Proof.
  intros Hs Hi Hj. unfold by_column_sums, div.
  rewrite (item_zip_with _ _ _ c n) by assumption.
  rewrite item_repeat_row;
    [| exact Hi | rewrite (length_sum_axis0 x c n) by (assumption || lia); exact Hj].
  rewrite (nth_sum_axis0 x c n) by (assumption || lia).
  reflexivity.
Qed.

(** A column of positive entries, divided by its sum, sums to 1. *)
Lemma column_of_by_column_sums (c n : nat) (x : matrix) (j : nat) :
  has_shape x c n -> (0 < c)%nat -> (j < n)%nat ->
  (forall i, (i < c)%nat -> 0 < item x i j) ->
  sigma c (fun i => item (by_column_sums c x) i j) = 1.
Proof.
  intros Hs Hc Hj Hpos. unfold sigma.
  rewrite (Rsum_seq_ext _ (fun i => item x i j / sigma c (fun k => item x k j))).
  - rewrite Rsum_div. unfold sigma. apply Rdiv_diag.
    apply Rgt_not_eq, Rlt_gt, Rsum_seq_pos; assumption.
  - intros i Hi. now apply (item_by_column_sums c n).
Qed.

Lemma item_clamped (dist : matrix) (c n i j : nat) :
  has_shape dist c n -> (i < c)%nat -> (j < n)%nat ->
  item (fmax dist eps) i j = clamped dist i j.
Proof. intros Hs Hi Hj. unfold fmax. now rewrite (item_map _ _ c n). Qed.

Lemma clamped_pos (dist : matrix) (i j : nat) : 0 < clamped dist i j.
Proof.
  unfold clamped. apply Rlt_le_trans with eps; [apply eps_pos | apply Rmax_r].
Qed.

Lemma has_shape_new_membership (c n : nat) (m : R) (dist : matrix) :
  has_shape dist c n -> (0 < c)%nat -> has_shape (new_membership c m dist) c n.
Proof.
  intros Hs Hc. apply has_shape_by_column_sums; [|exact Hc].
  now apply has_shape_map, has_shape_map.
Qed.

Lemma item_new_membership (c n : nat) (m : R) (dist : matrix) (i j : nat) :
  has_shape dist c n -> (i < c)%nat -> (j < n)%nat ->
  item (new_membership c m dist) i j = membership c m dist i j.
Proof.
  intros Hs Hi Hj. unfold new_membership, membership.
  assert (Hp : has_shape (power (fmax dist eps) (-2 / (m - 1))) c n)
    by now apply has_shape_map, has_shape_map.
  rewrite (item_by_column_sums c n) by assumption.
  unfold power at 1. rewrite (item_map _ _ c n) by
    (try assumption; now apply has_shape_map).
  rewrite (item_clamped dist c n) by assumption.
  f_equal. apply Rsum_seq_ext. intros k Hk.
  unfold power. rewrite (item_map _ _ c n) by
    (try assumption; now apply has_shape_map).
  now rewrite (item_clamped dist c n).
Qed.

Lemma new_membership_columns (c n : nat) (m : R) (dist : matrix) :
  has_shape dist c n -> (0 < c)%nat ->
  columns_sum_to_1 c n (new_membership c m dist).
Proof.
  intros Hs Hc. split; [now apply has_shape_new_membership|].
  intros j Hj. unfold new_membership.
  apply (column_of_by_column_sums c n); try assumption.
  - now apply has_shape_map, has_shape_map.
  - intros i Hi. unfold power. rewrite (item_map _ _ c n) by
      (try assumption; now apply has_shape_map).
    unfold Rpower. apply exp_pos.
Qed.

End StepFacts.

(** ** The main loops *)

Module LoopFacts.
Import Numpy Cluster Passes.

Section While.

Variable State : Type.
Variable body : State -> State.
Variable stops : State -> bool.
Variable counter : State -> Z.
Variable maxiter : Z.

Hypothesis counter_body : forall st, counter (body st) = (counter st + 1)%Z.

Local Abbreviation passes := (passes State body).
Local Abbreviation while_loop := (while_loop State body stops counter maxiter).
Local Abbreviation allowed := (allowed State counter maxiter).

Lemma passes_shift (st : State) (k : nat) :
  passes (body st) k = passes st (S k).
Proof. induction k as [|k IH]; simpl; [reflexivity | now rewrite IH]. Qed.

Lemma counter_passes (st : State) (k : nat) :
  counter (passes st k) = (counter st + Z.of_nat k)%Z.
Proof.
  induction k as [|k IH]; simpl passes.
  - lia.
  - rewrite counter_body, IH. lia.
Qed.

(** With fuel for the allowed passes, the loop is left: after the first pass
    at whose end the stopping rule holds, or else after all allowed passes. *)
Lemma while_loop_leaves (fuel : nat) (st : State) :
  (allowed st <= fuel)%nat ->
  exists k : nat,
    (k <= allowed st)%nat /\
    while_loop fuel st = Some (passes st k) /\
    (forall j, (1 <= j < k)%nat -> stops (passes st j) = false) /\
    ((k < allowed st)%nat -> (1 <= k)%nat /\ stops (passes st k) = true).
Proof.
  revert st. induction fuel as [|fuel IH]; intros st Hfuel.
  - exists 0%nat. unfold Passes.allowed in *. simpl.
    destruct (Z.ltb_spec (counter st) (maxiter - 1)); [lia|].
    repeat split; lia.
  - unfold Passes.allowed in Hfuel. simpl.
    destruct (Z.ltb_spec (counter st) (maxiter - 1)) as [Hlt|Hge].
    + destruct (stops (body st)) eqn:Hstop.
      * exists 1%nat. unfold Passes.allowed. repeat split; try lia.
        intros; exact Hstop.
      * destruct (IH (body st)) as [k [Hk [Hrun [Hbefore Hbreak]]]].
        { unfold Passes.allowed. rewrite counter_body. lia. }
        unfold Passes.allowed in Hk, Hbreak. rewrite counter_body in Hk, Hbreak.
        exists (S k). unfold Passes.allowed. repeat split.
        -- lia.
        -- rewrite Hrun. f_equal. apply passes_shift.
        -- intros j Hj. destruct j as [|[|j]]; [lia | exact Hstop |].
           rewrite <- passes_shift. apply Hbefore. lia.
        -- lia.
        -- rewrite <- passes_shift. apply Hbreak. lia.
    + exists 0%nat. unfold Passes.allowed. repeat split; lia.
Qed.

End While.

Section Engine.

Variable compute_distance : string -> matrix -> matrix -> matrix.

Local Abbreviation cmeans_body := (cmeans_body compute_distance).
Local Abbreviation predict_body := (predict_body compute_distance).

Lemma cmeans_loop_is_while
    (fuel : nat) (data : matrix) (c : nat) (m error : R) (maxiter : Z)
    (metric : string) (st : train_locals) :
  cmeans_loop compute_distance fuel data c m error maxiter metric st =
  while_loop train_locals (cmeans_body data c m metric) (train_stops error)
    t_p maxiter fuel st.
Proof.
  revert st.
  induction fuel as [|fuel IH]; intros st; cbn [cmeans_loop Passes.while_loop].
  - reflexivity.
  - destruct (t_p st <? maxiter - 1)%Z; [|reflexivity].
    unfold train_stops.
    destruct (stopping_rule _ _ error); [reflexivity | apply IH].
Qed.

Lemma predict_loop_is_while
    (fuel : nat) (test_data : matrix) (c : nat) (m error : R) (maxiter : Z)
    (metric : string) (st : predict_locals) :
  predict_loop compute_distance fuel test_data c m error maxiter metric st =
  while_loop predict_locals (predict_body test_data c m metric)
    (predict_stops error) p_p maxiter fuel st.
Proof.
  revert st.
  induction fuel as [|fuel IH]; intros st; cbn [predict_loop Passes.while_loop].
  - reflexivity.
  - destruct (p_p st <? maxiter - 1)%Z; [|reflexivity].
    unfold predict_stops.
    destruct (stopping_rule _ _ error); [reflexivity | apply IH].
Qed.

End Engine.

End LoopFacts.

(** ** The engine *)

Module EngineFacts.
Import Numpy NumpyFacts Update Cluster Pieces Passes StepFacts LoopFacts.

Section Engine.

Variable compute_distance : string -> matrix -> matrix -> matrix.
Variable random_rand : option Z -> nat -> nat -> matrix.

Local Abbreviation cmeans0 := (cmeans0 compute_distance).
Local Abbreviation cmeans_predict0 := (cmeans_predict0 compute_distance).
Local Abbreviation cmeans_body := (cmeans_body compute_distance).
Local Abbreviation predict_body := (predict_body compute_distance).
Local Abbreviation cmeans_loop := (cmeans_loop compute_distance).
Local Abbreviation predict_loop := (predict_loop compute_distance).
Local Abbreviation train_pass := (train_pass compute_distance).
Local Abbreviation predict_pass := (predict_pass compute_distance).
Local Abbreviation setup_u0 := (setup_u0 random_rand).
Local Abbreviation train_distances := (train_distances compute_distance).

Lemma train_pass_counts (data : matrix) (c : nat) (m : R) (metric : string)
    (start : train_locals) (k : nat) :
  t_p (train_pass data c m metric start k) = (t_p start + Z.of_nat k)%Z /\
  length (t_jm (train_pass data c m metric start k))
    = (length (t_jm start) + k)%nat.
Proof.
  induction k as [|k [IHp IHjm]]; simpl.
  - split; lia.
  - rewrite IHp, length_app, IHjm. simpl. split; lia.
Qed.

Lemma predict_pass_counts (test_data : matrix) (c : nat) (m : R)
    (metric : string) (start : predict_locals) (k : nat) :
  p_p (predict_pass test_data c m metric start k) = (p_p start + Z.of_nat k)%Z /\
  length (p_jm (predict_pass test_data c m metric start k))
    = (length (p_jm start) + k)%nat.
Proof.
  induction k as [|k [IHp IHjm]]; simpl.
  - split; lia.
  - rewrite IHp, length_app, IHjm. simpl. split; lia.
Qed.

(** [jm] holds, in order, the objective value of every pass: pass [j + 1]
    runs the step on a copy of the [u] that pass [j] left. *)
Lemma train_pass_jm (data : matrix) (c : nat) (m : R) (metric : string)
    (start : train_locals) (k : nat) :
  t_jm (train_pass data c m metric start k)
  = (t_jm start
     ++ map (fun j =>
               so_jm (cmeans0 data
                        (copy (t_u (train_pass data c m metric start j)))
                        c m metric))
            (seq 0 k))%list.
Proof.
  induction k as [|k IH].
  - simpl. now rewrite app_nil_r.
  - rewrite seq_S, map_app, app_assoc, <- IH. reflexivity.
Qed.

Lemma predict_pass_jm (test_data : matrix) (c : nat) (m : R)
    (metric : string) (start : predict_locals) (k : nat) :
  p_jm (predict_pass test_data c m metric start k)
  = (p_jm start
     ++ map (fun j =>
               let st := predict_pass test_data c m metric start j in
               po_jm (cmeans_predict0 test_data (p_cntr_trained st)
                        (copy (p_u st)) c m metric))
            (seq 0 k))%list.
Proof.
  induction k as [|k IH].
  - simpl. now rewrite app_nil_r.
  - rewrite seq_S, map_app, app_assoc, <- IH. reflexivity.
Qed.

(** After one pass at least, every variable the final block reads is bound. *)
Lemma cmeans_final_returns (data : matrix) (c : nat) (m : R) (metric : string)
    (u0 : matrix) (start : train_locals) (k : nat) :
  exists r,
    cmeans_final u0 (train_pass data c m metric start (S k)) = Ok r /\
    r_u r = t_u (train_pass data c m metric start (S k)) /\
    r_p r = t_p (train_pass data c m metric start (S k)) /\
    r_jm r = t_jm (train_pass data c m metric start (S k)).
Proof. simpl. eexists. split; [reflexivity|]. simpl. auto. Qed.

Lemma predict_final_returns (test_data : matrix) (c : nat) (m : R)
    (metric : string) (u0 : matrix) (start : predict_locals) (k : nat) :
  exists r,
    predict_final u0 (predict_pass test_data c m metric start (S k)) = Ok r /\
    q_u r = p_u (predict_pass test_data c m metric start (S k)) /\
    q_p r = p_p (predict_pass test_data c m metric start (S k)) /\
    q_jm r = p_jm (predict_pass test_data c m metric start (S k)) /\
    q_cntr_trained_arg r
      = p_cntr_trained (predict_pass test_data c m metric start (S k)) /\
    Some (q_d r) = p_d (predict_pass test_data c m metric start (S k)).
Proof. simpl. eexists. split; [reflexivity|]. simpl. auto 6. Qed.

(** No pass of the prediction loop changes [cntr_trained]. *)
Lemma predict_pass_keeps_cntr (test_data cntr_trained : matrix) (c : nat)
    (m : R) (metric : string) (u0 : matrix) (k : nat) :
  p_cntr_trained
    (predict_pass test_data c m metric (predict_start cntr_trained u0) k)
  = cntr_trained.
Proof. induction k as [|k IH]; [reflexivity | exact IH]. Qed.

(** The main loop of [cmeans], run with the fuel [cmeans] gives it. *)
Lemma cmeans_loop_leaves (data : matrix) (c : nat) (m error : R)
    (maxiter : Z) (metric : string) (u0 : matrix) :
  let start := cmeans_start u0 in
  let n := Z.to_nat (maxiter - 1) in
  exists k : nat,
    (k <= n)%nat /\
    cmeans_loop n data c m error maxiter metric start
      = Some (train_pass data c m metric start k) /\
    (forall j, (1 <= j < k)%nat ->
       train_stops error (train_pass data c m metric start j) = false) /\
    ((k < n)%nat ->
       train_stops error (train_pass data c m metric start k) = true) /\
    ((2 <= maxiter)%Z -> (1 <= k)%nat).
Proof.
  intros start n.
  destruct (while_loop_leaves train_locals (cmeans_body data c m metric)
              (train_stops error) t_p maxiter
              (fun st => eq_refl)
              n start)
    as [k [Hk [Hrun [Hbefore Hbreak]]]].
  { unfold allowed, start, n. simpl. apply Nat.eq_le_incl. f_equal. lia. }
  assert (Hn : allowed train_locals t_p maxiter start = n)
    by (unfold allowed, start, n; simpl; f_equal; lia).
  rewrite Hn in *.
  exists k. repeat split.
  - exact Hk.
  - rewrite cmeans_loop_is_while. exact Hrun.
  - exact Hbefore.
  - intros Hlt. now apply Hbreak.
  - intros Hmax. destruct (Nat.lt_ge_cases k n) as [Hlt|Hge].
    + now apply Hbreak.
    + unfold n in *. lia.
Qed.

Lemma predict_loop_leaves (test_data cntr_trained : matrix) (c : nat)
    (m error : R) (maxiter : Z) (metric : string) (u0 : matrix) :
  let start := predict_start cntr_trained u0 in
  let n := Z.to_nat (maxiter - 1) in
  exists k : nat,
    (k <= n)%nat /\
    predict_loop n test_data c m error maxiter metric start
      = Some (predict_pass test_data c m metric start k) /\
    (forall j, (1 <= j < k)%nat ->
       predict_stops error (predict_pass test_data c m metric start j) = false) /\
    ((k < n)%nat ->
       predict_stops error (predict_pass test_data c m metric start k) = true) /\
    ((2 <= maxiter)%Z -> (1 <= k)%nat).
Proof.
  intros start n.
  destruct (while_loop_leaves predict_locals
              (predict_body test_data c m metric)
              (predict_stops error) p_p maxiter (fun st => eq_refl) n start)
    as [k [Hk [Hrun [Hbefore Hbreak]]]].
  { unfold allowed, start, n. simpl. apply Nat.eq_le_incl. f_equal. lia. }
  assert (Hn : allowed predict_locals p_p maxiter start = n)
    by (unfold allowed, start, n; simpl; f_equal; lia).
  rewrite Hn in *.
  exists k. repeat split.
  - exact Hk.
  - rewrite predict_loop_is_while. exact Hrun.
  - exact Hbefore.
  - intros Hlt. now apply Hbreak.
  - intros Hmax. destruct (Nat.lt_ge_cases k n) as [Hlt|Hge].
    + now apply Hbreak.
    + unfold n in *. lia.
Qed.

(** C8.  With [maxiter <= 1] the test [p < maxiter - 1] fails at [p = 0]:
    the loop body is never run, [u2], [cntr] and [d] stay unassigned, and
    the first read after the loop, of [u2] in [np.linalg.norm(u - u2)],
    raises [UnboundLocalError] in [cmeans] and in [cmeans_predict]; neither
    returns a result. *)
Theorem maxiter_at_most_1_raises_unbound_local
    (data test_data cntr_trained : matrix) (c : nat) (m error : R)
    (maxiter : Z) (metric : option string) (init : option matrix)
    (seed : option Z) :
  (maxiter <= 1)%Z ->
  let mt := keyword metric default_metric in
  let start := cmeans_start (setup_u0 (ncols data) c init seed) in
  let pstart :=
    predict_start cntr_trained
      (setup_u0 (ncols test_data) (nrows cntr_trained) init seed) in
  (forall fuel,
     cmeans_loop fuel data c m error maxiter mt start = Some start) /\
  (t_u2 start = None /\ t_cntr start = None /\ t_d start = None) /\
  cmeans compute_distance random_rand data c m error maxiter metric init seed
    = Some (Raise (UnboundLocalError "u2")) /\
  (forall fuel,
     predict_loop fuel test_data (nrows cntr_trained) m error maxiter mt pstart
       = Some pstart) /\
  (p_u2 pstart = None /\ p_d pstart = None) /\
  cmeans_predict compute_distance random_rand test_data cntr_trained m error
    maxiter metric init seed
    = Some (Raise (UnboundLocalError "u2")).
Proof.
  intros Hmax mt start pstart.
  assert (Hguard : (0 <? maxiter - 1)%Z = false) by (apply Z.ltb_ge; lia).
  assert (Hloop : forall fuel,
            cmeans_loop fuel data c m error maxiter mt start = Some start).
  { intros fuel. destruct fuel; cbn [Cluster.cmeans_loop];
      change (t_p start) with 0%Z; now rewrite Hguard. }
  assert (Hploop : forall fuel,
            predict_loop fuel test_data (nrows cntr_trained) m error maxiter
              mt pstart = Some pstart).
  { intros fuel. destruct fuel; cbn [Cluster.predict_loop];
      change (p_p pstart) with 0%Z; now rewrite Hguard. }
  repeat split; try assumption.
  - unfold cmeans, cmeans_fuel. fold mt. fold start. now rewrite Hloop.
  - unfold cmeans_predict, cmeans_predict_fuel. fold mt. fold pstart.
    now rewrite Hploop.
Qed.

(** C3, as the code has it.  For arrays of the shapes of the docstrings and
    [m] other than 1 (at [m = 1] the step raises [ZeroDivisionError] in
    [-2. / (m - 1)], which is left out here) both main loops are always left
    and [cmeans] and [cmeans_predict] always come back: after the first pass at whose end
    [np.linalg.norm(u - u2) < error] holds, or else, when that never holds,
    after [maxiter - 1] passes.  The number of passes [k] is the returned
    [p]; it is at most [maxiter - 1], and it is at least 1 when
    [maxiter >= 2], in which case a result is returned.  The returned [jm]
    holds one objective value per pass, in order: the value [Jjm] that the
    step of that pass returns.  At the end of every pass [u2] is the
    previous [u] as the step has divided it in place by its column sums. *)
Theorem main_loops_leave_by_maxiter_minus_1
    (nf N c : nat) (data test_data cntr_trained : matrix) (m error : R)
    (maxiter : Z) (metric : option string) (init : option matrix)
    (seed : option Z) :
  (0 < nf)%nat -> (0 < N)%nat -> (0 < c)%nat ->
  has_shape data nf N -> has_shape test_data nf N ->
  has_shape cntr_trained c nf ->
  (forall u, init = Some u -> has_shape u c N) ->
  m <> 1 ->
  let mt := keyword metric default_metric in
  let n := Z.to_nat (maxiter - 1) in
  let u0 := setup_u0 (ncols data) c init seed in
  let start := cmeans_start u0 in
  let pc := nrows cntr_trained in
  let pu0 := setup_u0 (ncols test_data) pc init seed in
  let pstart := predict_start cntr_trained pu0 in
  let Jjm := fun j =>
    so_jm (cmeans0 data (copy (t_u (train_pass data c m mt start j))) c m mt) in
  let pJjm := fun j =>
    po_jm (cmeans_predict0 test_data cntr_trained
             (copy (p_u (predict_pass test_data pc m mt pstart j))) pc m mt) in
  (exists k : nat,
     let st := train_pass data c m mt start k in
     cmeans compute_distance random_rand data c m error maxiter metric init
       seed = Some (cmeans_final u0 st) /\
     (k <= n)%nat /\
     t_p st = Z.of_nat k /\ length (t_jm st) = k /\
     t_jm st = map Jjm (seq 0 k) /\
     (forall j, (1 <= j < k)%nat ->
        train_stops error (train_pass data c m mt start j) = false) /\
     ((k < n)%nat -> train_stops error st = true) /\
     (forall j,
        t_u2 (train_pass data c m mt start (S j))
          = Some (by_column_sums c (t_u (train_pass data c m mt start j)))) /\
     ((2 <= maxiter)%Z ->
        (1 <= k)%nat /\
        exists r, cmeans_final u0 st = Ok r /\
                  r_p r = Z.of_nat k /\ r_jm r = map Jjm (seq 0 k) /\
                  r_u r = t_u st)) /\
  (exists k : nat,
     let st := predict_pass test_data pc m mt pstart k in
     cmeans_predict compute_distance random_rand test_data cntr_trained m
       error maxiter metric init seed = Some (predict_final pu0 st) /\
     (k <= n)%nat /\
     p_p st = Z.of_nat k /\ length (p_jm st) = k /\
     p_jm st = map pJjm (seq 0 k) /\
     (forall j, (1 <= j < k)%nat ->
        predict_stops error (predict_pass test_data pc m mt pstart j) = false) /\
     ((k < n)%nat -> predict_stops error st = true) /\
     (forall j,
        p_u2 (predict_pass test_data pc m mt pstart (S j))
          = Some (by_column_sums pc
                    (p_u (predict_pass test_data pc m mt pstart j)))) /\
     ((2 <= maxiter)%Z ->
        (1 <= k)%nat /\
        exists r, predict_final pu0 st = Ok r /\
                  q_p r = Z.of_nat k /\ q_jm r = map pJjm (seq 0 k) /\
                  q_u r = p_u st)).
Proof.
  intros _ _ _ _ _ _ _ _ mt n u0 start pc pu0 pstart Jjm pJjm. split.
  - destruct (cmeans_loop_leaves data c m error maxiter mt u0)
      as [k [Hk [Hrun [Hbefore [Hbreak Hone]]]]].
    fold start in Hrun, Hbefore, Hbreak. fold n in Hk, Hrun, Hbreak.
    destruct (train_pass_counts data c m mt start k) as [Hp Hjm].
    pose proof (train_pass_jm data c m mt start k) as Hvalues.
    change (t_jm start) with (@nil R) in Hvalues. simpl app in Hvalues.
    fold Jjm in Hvalues.
    exists k. cbv zeta. conjs.
    + unfold cmeans, cmeans_fuel. fold mt. fold u0. fold start. fold n.
      now rewrite Hrun.
    + exact Hk.
    + rewrite Hp. reflexivity.
    + rewrite Hjm. reflexivity.
    + exact Hvalues.
    + exact Hbefore.
    + exact Hbreak.
    + intros j. reflexivity.
    + intros Hmax. specialize (Hone Hmax). split; [exact Hone|].
      destruct k as [|k]; [lia|].
      destruct (cmeans_final_returns data c m mt u0 start k)
        as [r [Hr [Hu [Hrp Hrjm]]]].
      exists r. conjs.
      * exact Hr.
      * now rewrite Hrp, Hp.
      * now rewrite Hrjm.
      * exact Hu.
  - destruct (predict_loop_leaves test_data cntr_trained pc m error maxiter
                mt pu0)
      as [k [Hk [Hrun [Hbefore [Hbreak Hone]]]]].
    fold pstart in Hrun, Hbefore, Hbreak. fold n in Hk, Hrun, Hbreak.
    destruct (predict_pass_counts test_data pc m mt pstart k) as [Hp Hjm].
    pose proof (predict_pass_jm test_data pc m mt pstart k) as Hvalues.
    change (p_jm pstart) with (@nil R) in Hvalues. simpl app in Hvalues.
    assert (Hsame : map (fun j =>
                      let st := predict_pass test_data pc m mt pstart j in
                      po_jm (cmeans_predict0 test_data (p_cntr_trained st)
                               (copy (p_u st)) pc m mt)) (seq 0 k)
                    = map pJjm (seq 0 k)).
    { apply map_ext. intros j. cbv zeta. unfold pJjm, pstart.
      now rewrite (predict_pass_keeps_cntr test_data cntr_trained pc m mt pu0 j). }
    pose proof (eq_trans Hvalues Hsame) as Hpvalues.
    exists k. cbv zeta. conjs.
    + unfold cmeans_predict, cmeans_predict_fuel.
      fold mt. fold pc. fold pu0. fold pstart. fold n.
      now rewrite Hrun.
    + exact Hk.
    + rewrite Hp. reflexivity.
    + rewrite Hjm. reflexivity.
    + exact Hpvalues.
    + exact Hbefore.
    + exact Hbreak.
    + intros j. reflexivity.
    + intros Hmax. specialize (Hone Hmax). split; [exact Hone|].
      destruct k as [|k]; [lia|].
      destruct (predict_final_returns test_data pc m mt pu0 pstart k)
        as [r [Hr [Hu [Hrp [Hrjm _]]]]].
      exists r. conjs.
      * exact Hr.
      * now rewrite Hrp, Hp.
      * now rewrite Hrjm.
      * exact Hu.
Qed.

(** *** Shapes *)

Section Shaped.

(** [compute_distance(x, y)] answers one row per row of [y] and one column
    per row of [x]; [np.random.rand(c, n)] has shape [(c, n)]. *)
Hypothesis compute_distance_shape :
  forall metric x y, has_shape (compute_distance metric x y) (nrows y) (nrows x).
Hypothesis random_rand_shape :
  forall seed c n, has_shape (random_rand seed c n) c n.

Lemma nrows_zip_with (op : R -> R -> R) (a b : matrix) :
  nrows (zip_with op a b) = nrows a.
Proof. unfold zip_with, nrows, mk_matrix. now rewrite length_map, length_seq. Qed.

Lemma nrows_map (g : R -> R) (a : matrix) : nrows (map (map g) a) = nrows a.
Proof. unfold nrows. now rewrite length_map. Qed.

Lemma nrows_dot (a b : matrix) : nrows (dot a b) = nrows a.
Proof. unfold dot, nrows, mk_matrix. now rewrite length_map, length_seq. Qed.

Lemma nrows_transpose (a : matrix) : nrows (transpose a) = ncols a.
Proof. unfold transpose, nrows, mk_matrix. now rewrite length_map, length_seq. Qed.

Lemma cmeans0_u (data u_old : matrix) (c : nat) (m : R) (metric : string) :
  so_u (cmeans0 data u_old c m metric)
    = new_membership c m (train_distances data u_old c m metric) /\
  so_d (cmeans0 data u_old c m metric)
    = fmax (train_distances data u_old c m metric) eps /\
  so_u_old_arg (cmeans0 data u_old c m metric) = by_column_sums c u_old.
Proof. repeat split. Qed.

Lemma cmeans_predict0_u (test_data cntr u_old : matrix) (c : nat) (m : R)
    (metric : string) :
  let dist := compute_distance metric (transpose test_data) cntr in
  po_u (cmeans_predict0 test_data cntr u_old c m metric)
    = new_membership c m dist /\
  po_d (cmeans_predict0 test_data cntr u_old c m metric) = fmax dist eps /\
  po_u_old_arg (cmeans_predict0 test_data cntr u_old c m metric)
    = by_column_sums c u_old /\
  po_cntr_arg (cmeans_predict0 test_data cntr u_old c m metric) = cntr /\
  po_test_data_arg (cmeans_predict0 test_data cntr u_old c m metric)
    = test_data.
Proof. repeat split. Qed.

Lemma has_shape_train_distances (nf N c : nat) (data u_old : matrix) (m : R)
    (metric : string) :
  (0 < nf)%nat -> has_shape data nf N -> has_shape u_old c N ->
  has_shape (train_distances data u_old c m metric) c N.
Proof.
  intros Hnf Hdata Hu. unfold train_distances.
  pose proof (compute_distance_shape metric (transpose data)
                (so_cntr (cmeans0 data u_old c m metric))) as H.
  rewrite nrows_transpose, (ncols_of_shape data nf N Hdata Hnf) in H.
  replace (nrows (so_cntr (cmeans0 data u_old c m metric))) with c in H;
    [exact H|].
  unfold Cluster.cmeans0. cbn [so_cntr]. unfold div.
  rewrite nrows_zip_with, nrows_dot. unfold power, fmax.
  rewrite !nrows_map, nrows_zip_with.
  symmetry. exact (nrows_of_shape u_old c N Hu).
Qed.

Lemma has_shape_predict_distances (nf N c : nat) (test_data cntr : matrix)
    (metric : string) :
  (0 < nf)%nat -> has_shape test_data nf N -> has_shape cntr c nf ->
  has_shape (compute_distance metric (transpose test_data) cntr) c N.
Proof.
  intros Hnf Hdata Hcntr.
  pose proof (compute_distance_shape metric (transpose test_data) cntr) as H.
  now rewrite nrows_transpose, (ncols_of_shape test_data nf N Hdata Hnf),
    (nrows_of_shape cntr c nf Hcntr) in H.
Qed.

Lemma has_shape_setup_u0 (c N : nat) (init : option matrix) (seed : option Z) :
  (0 < c)%nat ->
  (forall u, init = Some u -> has_shape u c N) ->
  has_shape (fmax (setup_u0 N c init seed) eps) c N.
Proof.
  intros Hc Hinit. apply has_shape_map. destruct init as [u|]; simpl.
  - now apply Hinit.
  - unfold copy. apply has_shape_by_column_sums; [apply random_rand_shape | exact Hc].
Qed.

(** The membership matrix keeps its shape from pass to pass, and from the
    first pass on its columns sum to 1. *)
Lemma train_pass_columns (nf N c : nat) (data : matrix) (m : R)
    (metric : string) (start : train_locals) (k : nat) :
  (0 < nf)%nat -> (0 < c)%nat -> has_shape data nf N ->
  has_shape (t_u start) c N ->
  has_shape (t_u (train_pass data c m metric start k)) c N /\
  ((1 <= k)%nat ->
   columns_sum_to_1 c N (t_u (train_pass data c m metric start k))).
Proof.
  intros Hnf Hc Hdata Hstart.
  induction k as [|k [IH _]]; [split; [exact Hstart | lia]|].
  assert (Hcols : columns_sum_to_1 c N
                    (t_u (train_pass data c m metric start (S k)))).
  { change (t_u (train_pass data c m metric start (S k)))
      with (new_membership c m
              (train_distances data
                 (copy (t_u (train_pass data c m metric start k))) c m metric)).
    apply new_membership_columns; [|exact Hc].
    now apply (has_shape_train_distances nf N c). }
  split; [exact (proj1 Hcols) | intros _; exact Hcols].
Qed.

Lemma predict_pass_cntr (test_data : matrix) (c : nat) (m : R)
    (metric : string) (start : predict_locals) (k : nat) :
  p_cntr_trained (predict_pass test_data c m metric start k)
    = p_cntr_trained start.
Proof. induction k as [|k IH]; [reflexivity | exact IH]. Qed.

Lemma predict_pass_u (test_data : matrix) (c : nat) (m : R)
    (metric : string) (start : predict_locals) (k : nat) :
  let dist :=
    compute_distance metric (transpose test_data) (p_cntr_trained start) in
  p_u (predict_pass test_data c m metric start (S k)) = new_membership c m dist /\
  p_d (predict_pass test_data c m metric start (S k)) = Some (fmax dist eps).
Proof.
  intros dist. unfold dist.
  rewrite <- (predict_pass_cntr test_data c m metric start k).
  split; reflexivity.
Qed.

(** *** The training step, entry by entry *)

Lemma positive_item (a : matrix) (r c i j : nat) :
  positive a -> has_shape a r c -> (i < r)%nat -> (j < c)%nat ->
  0 < item a i j.
Proof.
  intros Hpos Hs Hi Hj. unfold positive in Hpos.
  rewrite Forall_forall in Hpos.
  assert (Hrow : In (nth i a []) a) by (apply nth_In; destruct Hs; lia).
  specialize (Hpos _ Hrow). rewrite Forall_forall in Hpos.
  apply Hpos. unfold item. apply nth_In.
  now rewrite (row_length a r c i).
Qed.

Lemma has_shape_um_of (c N : nat) (u_old : matrix) (m : R) :
  (0 < c)%nat -> has_shape u_old c N -> has_shape (um_of c u_old m) c N.
Proof.
  intros Hc Hu. unfold um_of, power, fmax.
  now apply has_shape_map, has_shape_map, has_shape_by_column_sums.
Qed.

Lemma item_um_of (c N : nat) (u_old : matrix) (m : R) (i j : nat) :
  has_shape u_old c N -> (i < c)%nat -> (j < N)%nat ->
  item (um_of c u_old m) i j = weight c u_old m i j.
Proof.
  intros Hu Hi Hj. unfold um_of, power, fmax, weight, normalized.
  assert (Hc : (0 < c)%nat) by lia.
  rewrite (item_map _ _ c N);
    [| now apply has_shape_map, has_shape_by_column_sums | exact Hi | exact Hj].
  rewrite (item_map _ _ c N);
    [| now apply has_shape_by_column_sums | exact Hi | exact Hj].
  now rewrite (item_by_column_sums c N).
Qed.

Lemma weight_pos (c : nat) (u_old : matrix) (m : R) (i j : nat) :
  0 < weight c u_old m i j.
Proof. unfold weight, Rpower. apply exp_pos. Qed.

Lemma has_shape_transpose (a : matrix) (r c : nat) :
  has_shape a r c -> (0 < r)%nat -> has_shape (transpose a) c r.
Proof.
  intros Hs Hr. unfold transpose.
  rewrite (ncols_of_shape a r c Hs Hr), (nrows_of_shape a r c Hs).
  apply has_shape_mk_matrix.
Qed.

Lemma item_transpose (a : matrix) (r c i j : nat) :
  has_shape a r c -> (i < c)%nat -> (j < r)%nat ->
  item (transpose a) i j = item a j i.
Proof.
  intros Hs Hi Hj. unfold transpose.
  rewrite (ncols_of_shape a r c Hs), (nrows_of_shape a r c Hs) by lia.
  now rewrite item_mk_matrix.
Qed.

Lemma has_shape_dot (a b : matrix) (r n c : nat) :
  has_shape a r n -> has_shape b n c -> (0 < n)%nat ->
  has_shape (dot a b) r c.
Proof.
  intros Ha Hb Hn. unfold dot.
  rewrite (nrows_of_shape a r n Ha), (ncols_of_shape b n c Hb Hn).
  apply has_shape_mk_matrix.
Qed.

Lemma item_dot (a b : matrix) (r n c i k : nat) :
  has_shape a r n -> has_shape b n c -> (i < r)%nat -> (k < c)%nat ->
  (0 < n)%nat ->
  item (dot a b) i k = sigma n (fun j => item a i j * item b j k).
Proof.
  intros Ha Hb Hi Hk Hn. unfold dot.
  rewrite (nrows_of_shape a r n Ha), (ncols_of_shape b n c Hb Hn).
  rewrite item_mk_matrix by assumption.
  now rewrite (ncols_of_shape a r n Ha) by lia.
Qed.

Lemma has_shape_cntr (nf N c : nat) (data u_old : matrix) (m : R)
    (metric : string) :
  (0 < nf)%nat -> (0 < N)%nat -> (0 < c)%nat ->
  has_shape data nf N -> has_shape u_old c N ->
  has_shape (so_cntr (cmeans0 data u_old c m metric)) c nf.
Proof.
  intros Hnf HN Hc Hdata Hu. unfold Cluster.cmeans0. cbn [so_cntr]. unfold div.
  apply has_shape_zip_with; [|exact Hc].
  apply (has_shape_dot _ _ c N nf).
  - now apply has_shape_um_of.
  - now apply has_shape_transpose.
  - exact HN.
Qed.

Lemma item_cntr (nf N c : nat) (data u_old : matrix) (m : R)
    (metric : string) (i k : nat) :
  (0 < N)%nat -> has_shape data nf N -> has_shape u_old c N ->
  (i < c)%nat -> (k < nf)%nat ->
  item (so_cntr (cmeans0 data u_old c m metric)) i k
    = center c N data u_old m i k.
Proof.
  intros HN Hdata Hu Hi Hk.
  assert (Hc : (0 < c)%nat) by lia. assert (Hnf : (0 < nf)%nat) by lia.
  assert (Hum : has_shape (um_of c u_old m) c N) by now apply has_shape_um_of.
  assert (HdT : has_shape (transpose data) N nf) by now apply has_shape_transpose.
  unfold Cluster.cmeans0. cbn [so_cntr]. fold (by_column_sums c u_old).
  fold (um_of c u_old m). unfold div, center.
  rewrite (item_zip_with _ _ _ c nf);
    [| now apply (has_shape_dot _ _ c N nf) | exact Hi | exact Hk].
  f_equal.
  - rewrite (item_dot _ _ c N nf) by assumption.
    apply Rsum_seq_ext. intros j Hj.
    rewrite (item_um_of c N) by assumption.
    now rewrite (item_transpose data nf N).
  - rewrite (ncols_of_shape _ N nf HdT HN).
    assert (Hv : length (sum_axis1 (um_of c u_old m)) = c)
      by (unfold sum_axis1; rewrite length_map; now destruct Hum).
    pose proof (has_shape_repeat_row nf (sum_axis1 (um_of c u_old m))) as Hrep.
    rewrite Hv in Hrep.
    rewrite (item_transpose _ nf c) by assumption.
    rewrite item_repeat_row by (rewrite ?Hv; assumption).
    unfold sum_axis1. change 0 with (Rsum []) at 1. rewrite map_nth.
    rewrite (Rsum_row _ c N) by assumption.
    apply Rsum_seq_ext. intros j Hj. now apply (item_um_of c N).
Qed.

Lemma jm_of_step (N c : nat) (u_old : matrix) (m : R) (dist : matrix) :
  (0 < c)%nat -> has_shape u_old c N -> has_shape dist c N ->
  sum_all (mul (um_of c u_old m) (square (fmax dist eps)))
    = objective c N u_old m dist.
Proof.
  intros Hc Hu Hd.
  assert (Hum : has_shape (um_of c u_old m) c N) by now apply has_shape_um_of.
  unfold mul, objective.
  rewrite (sum_all_items _ c N) by now apply has_shape_zip_with.
  apply Rsum_seq_ext. intros i Hi. apply Rsum_seq_ext. intros j Hj.
  rewrite (item_zip_with _ _ _ c N) by assumption.
  rewrite (item_um_of c N) by assumption.
  unfold square. rewrite (item_map _ _ c N);
    [| now apply has_shape_map | exact Hi | exact Hj].
  now rewrite (item_clamped dist c N).
Qed.

(** In exact arithmetic one training step is the fuzzy c-means update.
    For data of shape
    [(S, N)], a positive membership matrix [u_old] of shape [(c, N)] and
    [m > 1], [cmeans0] returns: the centers [cntr], of shape [(c, S)], each
    the sum over the samples of [um * data] divided by the sum of row [i] of
    [um], where [um] is [u_old], column-normalized (over positive column
    sums) and clamped below by [eps], to the power [m]; the distances [d] of
    the transposed data to these centers, clamped below by [eps]; the
    objective [jm], the sum of [um * d ** 2]; and the new membership [u],
    [d ** (-2 / (m - 1))] divided by its column sums, each column of which
    sums to 1. *)
Lemma update_in_exact_arithmetic
    (nf N c : nat) (data u_old : matrix) (m : R) (metric : string) :
  (0 < nf)%nat -> (0 < N)%nat -> (0 < c)%nat -> 1 < m ->
  has_shape data nf N -> has_shape u_old c N -> positive u_old ->
  let r := cmeans0 data u_old c m metric in
  let dist := compute_distance metric (transpose data) (so_cntr r) in
  (forall j, (j < N)%nat -> 0 < sigma c (fun k => item u_old k j)) /\
  (forall i, (i < c)%nat -> 0 < sigma N (fun j => weight c u_old m i j)) /\
  has_shape (so_cntr r) c nf /\
  (forall i k, (i < c)%nat -> (k < nf)%nat ->
     item (so_cntr r) i k = center c N data u_old m i k) /\
  has_shape (so_d r) c N /\
  (forall i j, (i < c)%nat -> (j < N)%nat ->
     item (so_d r) i j = clamped dist i j) /\
  so_jm r = objective c N u_old m dist /\
  (forall i j, (i < c)%nat -> (j < N)%nat ->
     item (so_u r) i j = membership c m dist i j) /\
  columns_sum_to_1 c N (so_u r).
Proof.
  intros Hnf HN Hc Hm Hdata Hu Hpos r dist.
  assert (Hdist : has_shape dist c N)
    by now apply (has_shape_train_distances nf N c).
  destruct (cmeans0_u data u_old c m metric) as [Hru [Hrd _]].
  fold r in Hru, Hrd. fold (train_distances data u_old c m metric) in dist.
  conjs.
  - intros j Hj. apply Rsum_seq_pos; [exact Hc|].
    intros k Hk. now apply (positive_item u_old c N).
  - intros i Hi. apply Rsum_seq_pos; [exact HN|].
    intros j _. apply weight_pos.
  - now apply (has_shape_cntr nf N c).
  - intros i k Hi Hk. now apply (item_cntr nf N c).
  - rewrite Hrd. now apply has_shape_map.
  - intros i j Hi Hj. rewrite Hrd. now apply (item_clamped _ c N).
  - now apply jm_of_step.
  - intros i j Hi Hj. rewrite Hru. now apply (item_new_membership c N).
  - rewrite Hru. now apply new_membership_columns.
Qed.

(** In exact arithmetic the membership matrix is normalized.  For data of shape
    [(S, N)], centers of shape [(c, S)], a membership matrix of shape
    [(c, N)], [c >= 1] and [m > 1], the matrix [u] returned by [cmeans0] and
    by [cmeans_predict0] has shape [(c, N)] and every column of it sums to 1;
    and for [maxiter >= 2], [cmeans] and [cmeans_predict] return a result
    whose final membership matrix has every column summing to 1. *)
Lemma columns_in_exact_arithmetic
    (nf N c : nat) (data test_data cntr_trained u_old : matrix)
    (m error : R) (maxiter : Z) (mt : string) (metric : option string)
    (init : option matrix) (seed : option Z) :
  (0 < nf)%nat -> (0 < c)%nat -> 1 < m ->
  has_shape data nf N -> has_shape test_data nf N ->
  has_shape cntr_trained c nf -> has_shape u_old c N ->
  (forall u, init = Some u -> has_shape u c N) ->
  columns_sum_to_1 c N (so_u (cmeans0 data u_old c m mt)) /\
  columns_sum_to_1 c N
    (po_u (cmeans_predict0 test_data cntr_trained u_old c m mt)) /\
  ((2 <= maxiter)%Z ->
   (exists r,
      cmeans compute_distance random_rand data c m error maxiter metric init
        seed = Some (Ok r) /\
      columns_sum_to_1 c N (r_u r)) /\
   (exists r,
      cmeans_predict compute_distance random_rand test_data cntr_trained m
        error maxiter metric init seed = Some (Ok r) /\
      columns_sum_to_1 c N (q_u r))).
Proof.
  intros Hnf Hc Hm Hdata Htest Hcntr Hu Hinit.
  assert (Hstep : forall td cn uo mtr,
            has_shape td nf N -> has_shape cn c nf ->
            columns_sum_to_1 c N (po_u (cmeans_predict0 td cn uo c m mtr))).
  { intros td cn uo mtr Htd Hcn.
    destruct (cmeans_predict0_u td cn uo c m mtr) as [-> _].
    apply new_membership_columns; [|exact Hc].
    now apply (has_shape_predict_distances nf N c). }
  conjs.
  - destruct (cmeans0_u data u_old c m mt) as [-> _].
    apply new_membership_columns; [|exact Hc].
    now apply (has_shape_train_distances nf N c).
  - now apply Hstep.
  - intros Hmax. split.
    + set (mtr := keyword metric default_metric).
      set (u0 := setup_u0 (ncols data) c init seed).
      destruct (cmeans_loop_leaves data c m error maxiter mtr u0)
        as [k [_ [Hrun [_ [_ Hone]]]]].
      specialize (Hone Hmax). destruct k as [|k]; [lia|].
      destruct (cmeans_final_returns data c m mtr u0 (cmeans_start u0) k)
        as [r [Hr [Hru _]]].
      exists r. split.
      * unfold cmeans, cmeans_fuel. fold mtr. fold u0.
        now rewrite Hrun, Hr.
      * rewrite Hru.
        destruct (train_pass_columns nf N c data m mtr (cmeans_start u0)
                    (S k) Hnf Hc Hdata) as [_ Hcols].
        { unfold u0. rewrite (ncols_of_shape data nf N Hdata Hnf).
          now apply has_shape_setup_u0. }
        apply Hcols. lia.
    + set (mtr := keyword metric default_metric).
      set (pc := nrows cntr_trained).
      set (u0 := setup_u0 (ncols test_data) pc init seed).
      destruct (predict_loop_leaves test_data cntr_trained pc m error maxiter
                  mtr u0)
        as [k [_ [Hrun [_ [_ Hone]]]]].
      specialize (Hone Hmax). destruct k as [|k]; [lia|].
      destruct (predict_final_returns test_data pc m mtr u0
                  (predict_start cntr_trained u0) k)
        as [r [Hr [Hru _]]].
      exists r. split.
      * unfold cmeans_predict, cmeans_predict_fuel. fold mtr. fold pc. fold u0.
        now rewrite Hrun, Hr.
      * rewrite Hru.
        assert (Hpc : pc = c) by exact (nrows_of_shape cntr_trained c nf Hcntr).
        rewrite Hpc.
        change (p_u (predict_pass test_data c m mtr
                       (predict_start cntr_trained u0) (S k)))
          with (po_u (cmeans_predict0 test_data
                        (p_cntr_trained
                           (predict_pass test_data c m mtr
                              (predict_start cntr_trained u0) k))
                        (copy (p_u (predict_pass test_data c m mtr
                                      (predict_start cntr_trained u0) k)))
                        c m mtr)).
        rewrite predict_pass_cntr. now apply Hstep.
Qed.

(** *** What the stopping rule compares *)

Lemma mk_matrix_ext (r c : nat) (f g : nat -> nat -> R) :
  (forall i j, (i < r)%nat -> (j < c)%nat -> f i j = g i j) ->
  mk_matrix r c f = mk_matrix r c g.
Proof.
  intros H. unfold mk_matrix. apply map_ext_in. intros i Hi.
  apply map_ext_in. intros j Hj.
  apply in_seq in Hi. apply in_seq in Hj. apply H; lia.
Qed.

Lemma matrix_eta (a : matrix) (r c : nat) :
  has_shape a r c -> a = mk_matrix r c (item a).
Proof.
  intros Hs. rewrite (rows_items a) at 1. unfold mk_matrix.
  replace (length a) with r by (symmetry; apply Hs).
  apply map_ext_in. intros i Hi.
  apply in_seq in Hi. rewrite (row_items (nth i a [])) at 1.
  rewrite (row_length a r c i Hs) by lia. reflexivity.
Qed.

(** Dividing by column sums that are all 1 changes nothing. *)
Lemma by_column_sums_fixed (c N : nat) (x : matrix) :
  (0 < c)%nat -> columns_sum_to_1 c N x -> by_column_sums c x = x.
Proof.
  intros Hc [Hs Hcols].
  rewrite (matrix_eta x c N Hs) at 2.
  unfold by_column_sums, div, zip_with.
  rewrite (nrows_of_shape x c N Hs), (ncols_of_shape x c N Hs Hc).
  apply mk_matrix_ext. intros i j Hi Hj.
  rewrite item_repeat_row;
    [| exact Hi | rewrite (length_sum_axis0 x c N) by assumption; exact Hj].
  rewrite (nth_sum_axis0 x c N) by assumption.
  rewrite Hcols by exact Hj. apply Rdiv_1_r.
Qed.

(** From the second pass on, [u2] at the end of a pass is the membership
    matrix of the pass before: the rule compares consecutive matrices. *)
Lemma u2_is_previous_u (nf N c : nat) (data : matrix) (m : R)
    (metric : string) (start : train_locals) (k : nat) :
  (0 < nf)%nat -> (0 < c)%nat -> has_shape data nf N ->
  has_shape (t_u start) c N ->
  t_u2 (train_pass data c m metric start (S (S k)))
    = Some (t_u (train_pass data c m metric start (S k))).
Proof.
  intros Hnf Hc Hdata Hstart.
  destruct (train_pass_columns nf N c data m metric start (S k) Hnf Hc Hdata
              Hstart) as [_ Hcols].
  change (t_u2 (train_pass data c m metric start (S (S k))))
    with (Some (by_column_sums c
                  (t_u (train_pass data c m metric start (S k))))).
  f_equal. apply (by_column_sums_fixed c N); [exact Hc | apply Hcols; lia].
Qed.

(** C4.  Prediction never moves the trained centers.  A prediction step
    leaves the arrays [cntr] and [test_data] as they were and computes [d],
    [u] and [jm] from the distances of the transposed test data to [cntr];
    in [cmeans_predict] the array [cntr_trained] holds the trained centers
    after every pass and when the function returns, and every pass computes
    the distances to these same centers.  The training step instead
    recomputes the centers from the data and the membership matrix. *)
Theorem prediction_keeps_trained_centers
    (nf N c : nat) (data test_data cntr_trained u_old : matrix)
    (m error : R) (maxiter : Z) (mt : string) (metric : option string)
    (init : option matrix) (seed : option Z) :
  (0 < nf)%nat -> (0 < N)%nat -> (0 < c)%nat ->
  has_shape data nf N -> has_shape test_data nf N ->
  has_shape cntr_trained c nf -> has_shape u_old c N ->
  let dist := compute_distance mt (transpose test_data) cntr_trained in
  let r0 := cmeans_predict0 test_data cntr_trained u_old c m mt in
  let mtr := keyword metric default_metric in
  let fixed := compute_distance mtr (transpose test_data) cntr_trained in
  let pc := nrows cntr_trained in
  let pstart :=
    predict_start cntr_trained (setup_u0 (ncols test_data) pc init seed) in
  (po_cntr_arg r0 = cntr_trained /\ po_test_data_arg r0 = test_data) /\
  (forall i j, (i < c)%nat -> (j < N)%nat ->
     item (po_d r0) i j = clamped dist i j /\
     item (po_u r0) i j = membership c m dist i j) /\
  po_jm r0 = objective c N u_old m dist /\
  (forall k,
     p_cntr_trained (predict_pass test_data pc m mtr pstart k) = cntr_trained /\
     p_d (predict_pass test_data pc m mtr pstart (S k)) = Some (fmax fixed eps) /\
     p_u (predict_pass test_data pc m mtr pstart (S k))
       = new_membership pc m fixed) /\
  (forall r,
     cmeans_predict compute_distance random_rand test_data cntr_trained m
       error maxiter metric init seed = Some (Ok r) ->
     q_cntr_trained_arg r = cntr_trained /\
     q_d r = fmax fixed eps /\
     q_u r = new_membership pc m fixed) /\
  (forall i k, (i < c)%nat -> (k < nf)%nat ->
     item (so_cntr (cmeans0 data u_old c m mt)) i k
       = center c N data u_old m i k).
Proof.
  intros Hnf HN Hc Hdata Htest Hcntr Hu dist r0 mtr fixed pc pstart.
  assert (Hdist : has_shape dist c N)
    by now apply (has_shape_predict_distances nf N c).
  destruct (cmeans_predict0_u test_data cntr_trained u_old c m mt)
    as [Hr0u [Hr0d [_ [Hr0c Hr0t]]]].
  fold r0 in Hr0u, Hr0d, Hr0c, Hr0t. fold dist in Hr0u, Hr0d.
  assert (Hpass : forall k,
    p_cntr_trained (predict_pass test_data pc m mtr pstart k) = cntr_trained /\
    p_d (predict_pass test_data pc m mtr pstart (S k)) = Some (fmax fixed eps) /\
    p_u (predict_pass test_data pc m mtr pstart (S k))
      = new_membership pc m fixed).
  { intros k.
    destruct (predict_pass_u test_data pc m mtr pstart k) as [Hpu Hpd].
    split; [apply predict_pass_cntr | split; assumption]. }
  conjs.
  - exact Hr0c.
  - exact Hr0t.
  - intros i j Hi Hj. split.
    + rewrite Hr0d. now apply (item_clamped dist c N).
    + rewrite Hr0u. now apply (item_new_membership c N).
  - now apply jm_of_step.
  - exact Hpass.
  - intros r Hr.
    destruct (predict_loop_leaves test_data cntr_trained pc m error maxiter
                mtr (setup_u0 (ncols test_data) pc init seed))
      as [k [_ [Hrun _]]].
    fold pstart in Hrun.
    unfold cmeans_predict, cmeans_predict_fuel in Hr.
    fold mtr in Hr. fold pc in Hr. fold pstart in Hr.
    rewrite Hrun in Hr. destruct k as [|k]; [discriminate Hr|].
    destruct (predict_final_returns test_data pc m mtr
                (setup_u0 (ncols test_data) pc init seed) pstart k)
      as [r' [Hr' [Hqu [_ [_ [Hqc Hqd]]]]]].
    rewrite Hr' in Hr. injection Hr as <-.
    destruct (Hpass (S k)) as [Hk1 _]. destruct (Hpass k) as [_ [Hk2 Hk3]].
    rewrite Hk1 in Hqc. rewrite Hk2 in Hqd. rewrite Hk3 in Hqu.
    injection Hqd as Hqd. auto.
  - intros i k Hi Hk. now apply (item_cntr nf N c).
Qed.

End Shaped.

(** *** The metric *)

Section Metric.

(** A second distance function, agreeing with [compute_distance] on the
    metric [mt]. *)
Variable other_distance : string -> matrix -> matrix -> matrix.
Variable mt : string.
Hypothesis same_on_mt :
  forall x y, other_distance mt x y = compute_distance mt x y.

Lemma cmeans0_same (data u_old : matrix) (c : nat) (m : R) :
  Cluster.cmeans0 other_distance data u_old c m mt = cmeans0 data u_old c m mt.
Proof. unfold Cluster.cmeans0. now rewrite !same_on_mt. Qed.

Lemma cmeans_predict0_same (test_data cntr u_old : matrix) (c : nat) (m : R) :
  Cluster.cmeans_predict0 other_distance test_data cntr u_old c m mt
    = cmeans_predict0 test_data cntr u_old c m mt.
Proof. unfold Cluster.cmeans_predict0. now rewrite !same_on_mt. Qed.

Lemma cmeans_loop_same (fuel : nat) (data : matrix) (c : nat) (m error : R)
    (maxiter : Z) (st : train_locals) :
  Cluster.cmeans_loop other_distance fuel data c m error maxiter mt st
    = cmeans_loop fuel data c m error maxiter mt st.
Proof.
  revert st. induction fuel as [|fuel IH]; intros st; cbn [Cluster.cmeans_loop].
  - reflexivity.
  - unfold Cluster.cmeans_body. rewrite cmeans0_same.
    destruct (t_p st <? maxiter - 1)%Z; [|reflexivity].
    destruct (stopping_rule _ _ error); [reflexivity | apply IH].
Qed.

Lemma predict_loop_same (fuel : nat) (test_data : matrix) (c : nat)
    (m error : R) (maxiter : Z) (st : predict_locals) :
  Cluster.predict_loop other_distance fuel test_data c m error maxiter mt st
    = predict_loop fuel test_data c m error maxiter mt st.
Proof.
  revert st. induction fuel as [|fuel IH]; intros st; cbn [Cluster.predict_loop].
  - reflexivity.
  - unfold Cluster.predict_body. rewrite cmeans_predict0_same.
    destruct (p_p st <? maxiter - 1)%Z; [|reflexivity].
    destruct (stopping_rule _ _ error); [reflexivity | apply IH].
Qed.

End Metric.

(** What [cmeans] returns after a last pass: the values of the step of that
    pass, run on a copy of the [u] that the pass before left. *)
Lemma cmeans_final_of_pass (data : matrix) (c : nat) (m : R) (metric : string)
    (u0 : matrix) (start : train_locals) (k : nat) :
  let prev := train_pass data c m metric start k in
  let s := cmeans0 data (copy (t_u prev)) c m metric in
  cmeans_final u0 (train_pass data c m metric start (S k))
  = Ok {| r_cntr := so_cntr s; r_u := so_u s; r_u0 := u0; r_d := so_d s;
          r_jm := t_jm prev ++ [so_jm s]; r_p := t_p prev + 1;
          r_fpc := fp_coeff (so_u s) |}.
Proof. reflexivity. Qed.

Lemma predict_final_of_pass (test_data : matrix) (c : nat) (m : R)
    (metric : string) (u0 : matrix) (start : predict_locals) (k : nat) :
  let prev := predict_pass test_data c m metric start k in
  let s := cmeans_predict0 test_data (p_cntr_trained prev) (copy (p_u prev))
             c m metric in
  predict_final u0 (predict_pass test_data c m metric start (S k))
  = Ok {| q_u := po_u s; q_u0 := u0; q_d := po_d s;
          q_jm := p_jm prev ++ [po_jm s]; q_p := p_p prev + 1;
          q_fpc := fp_coeff (po_u s);
          q_cntr_trained_arg := po_cntr_arg s |}.
Proof. reflexivity. Qed.

(** C7.  The metric is pluggable.  [metric] defaults to ['euclidean'].
    [cmeans] and [cmeans_predict] hand the metric they are given to every
    step, which hands it to [compute_distance]: with any other distance
    function that agrees with [compute_distance] on the metric given, and on
    it alone, their results are the same; the distances of every pass are
    [compute_distance] at the metric given; and the distances they return
    (for arrays of the shapes of the docstrings, [maxiter >= 2] and [m]
    other than 1) are [compute_distance] at the metric given, of the data
    and the centers returned.  In a step the
    metric enters the distances only: the normalized argument and the
    centers are the same for any two metrics, and [u] and [jm] are computed
    from [d] by formulas in which the metric does not occur. *)
Theorem metric_is_forwarded_to_compute_distance
    (other_distance : string -> matrix -> matrix -> matrix)
    (nf N c : nat) (data test_data cntr_trained u_old : matrix)
    (m error : R) (maxiter : Z) (given : string) (init : option matrix)
    (seed : option Z) (mt1 mt2 : string) :
  (forall x y, other_distance given x y = compute_distance given x y) ->
  (0 < nf)%nat -> (0 < N)%nat -> (0 < c)%nat ->
  has_shape data nf N -> has_shape test_data nf N ->
  has_shape cntr_trained c nf -> has_shape u_old c N ->
  (forall u, init = Some u -> has_shape u c N) ->
  m <> 1 ->
  let start := cmeans_start (setup_u0 (ncols data) c init seed) in
  let pc := nrows cntr_trained in
  let pstart :=
    predict_start cntr_trained (setup_u0 (ncols test_data) pc init seed) in
  (cmeans compute_distance random_rand data c m error maxiter None init seed
     = cmeans compute_distance random_rand data c m error maxiter
         (Some "euclidean"%string) init seed /\
   cmeans_predict compute_distance random_rand test_data cntr_trained m error
       maxiter None init seed
     = cmeans_predict compute_distance random_rand test_data cntr_trained m
         error maxiter (Some "euclidean"%string) init seed) /\
  (cmeans other_distance random_rand data c m error maxiter (Some given) init
       seed
     = cmeans compute_distance random_rand data c m error maxiter (Some given)
         init seed /\
   cmeans_predict other_distance random_rand test_data cntr_trained m error
       maxiter (Some given) init seed
     = cmeans_predict compute_distance random_rand test_data cntr_trained m
         error maxiter (Some given) init seed) /\
  (forall k,
     (exists cntr,
        t_cntr (train_pass data c m given start (S k)) = Some cntr /\
        t_d (train_pass data c m given start (S k))
          = Some (fmax (compute_distance given (transpose data) cntr) eps)) /\
     p_d (predict_pass test_data pc m given pstart (S k))
       = Some (fmax (compute_distance given (transpose test_data) cntr_trained)
                 eps)) /\
  ((2 <= maxiter)%Z ->
   (exists r k,
      (1 <= k <= Z.to_nat (maxiter - 1))%nat /\
      cmeans compute_distance random_rand data c m error maxiter (Some given)
        init seed = Some (Ok r) /\
      r_p r = Z.of_nat k /\
      t_cntr (train_pass data c m given start k) = Some (r_cntr r) /\
      t_d (train_pass data c m given start k) = Some (r_d r) /\
      r_d r = fmax (compute_distance given (transpose data) (r_cntr r)) eps /\
      r_u r = by_column_sums c (power (r_d r) ((- 2) / (m - 1)))) /\
   (exists r k,
      (1 <= k <= Z.to_nat (maxiter - 1))%nat /\
      cmeans_predict compute_distance random_rand test_data cntr_trained m
        error maxiter (Some given) init seed = Some (Ok r) /\
      q_p r = Z.of_nat k /\
      p_d (predict_pass test_data pc m given pstart k) = Some (q_d r) /\
      q_d r = fmax (compute_distance given (transpose test_data) cntr_trained)
                eps /\
      q_u r = by_column_sums pc (power (q_d r) ((- 2) / (m - 1))))) /\
  (so_u_old_arg (cmeans0 data u_old c m mt1)
     = so_u_old_arg (cmeans0 data u_old c m mt2) /\
   so_cntr (cmeans0 data u_old c m mt1) = so_cntr (cmeans0 data u_old c m mt2) /\
   po_u_old_arg (cmeans_predict0 test_data cntr_trained u_old c m mt1)
     = po_u_old_arg (cmeans_predict0 test_data cntr_trained u_old c m mt2)) /\
  (forall mt',
     let r := cmeans0 data u_old c m mt' in
     let q := cmeans_predict0 test_data cntr_trained u_old c m mt' in
     so_d r = fmax (compute_distance mt' (transpose data) (so_cntr r)) eps /\
     so_u r = by_column_sums c (power (so_d r) ((- 2) / (m - 1))) /\
     so_jm r = sum_all (mul (um_of c u_old m) (square (so_d r))) /\
     po_d q = fmax (compute_distance mt' (transpose test_data) cntr_trained)
                eps /\
     po_u q = by_column_sums c (power (po_d q) ((- 2) / (m - 1))) /\
     po_jm q = sum_all (mul (um_of c u_old m) (square (po_d q)))).
Proof.
  intros Hsame _ _ _ _ _ _ _ _ _ start pc pstart. conjs; try reflexivity.
  - unfold cmeans, cmeans_fuel. cbn [keyword].
    now rewrite (cmeans_loop_same other_distance given Hsame).
  - unfold cmeans_predict, cmeans_predict_fuel. cbn [keyword].
    now rewrite (predict_loop_same other_distance given Hsame).
  - intros k. split.
    + eexists. split; reflexivity.
    + now destruct (predict_pass_u test_data pc m given pstart k) as [_ ->].
  - intros Hmax. split.
    + destruct (cmeans_loop_leaves data c m error maxiter given
                  (setup_u0 (ncols data) c init seed))
        as [k [Hk [Hrun [_ [_ Hone]]]]].
      fold start in Hrun. specialize (Hone Hmax).
      destruct k as [|k]; [lia|].
      pose proof (cmeans_final_of_pass data c m given
                    (setup_u0 (ncols data) c init seed) start k) as Hfinal.
      cbv zeta in Hfinal.
      destruct (train_pass_counts data c m given start k) as [Hp _].
      eexists. exists (S k). split; [lia|]. split.
      * unfold cmeans, cmeans_fuel. cbn [keyword]. fold start.
        rewrite Hrun, Hfinal. reflexivity.
      * cbn [r_p r_cntr r_d r_u]. rewrite Hp. change (t_p start) with 0%Z.
        conjs; try reflexivity. lia.
    + destruct (predict_loop_leaves test_data cntr_trained pc m error maxiter
                  given (setup_u0 (ncols test_data) pc init seed))
        as [k [Hk [Hrun [_ [_ Hone]]]]].
      fold pstart in Hrun. specialize (Hone Hmax).
      destruct k as [|k]; [lia|].
      pose proof (predict_final_of_pass test_data pc m given
                    (setup_u0 (ncols test_data) pc init seed) pstart k)
        as Hfinal.
      cbv zeta in Hfinal.
      destruct (predict_pass_counts test_data pc m given pstart k) as [Hp _].
      pose proof (predict_pass_keeps_cntr test_data cntr_trained pc m given
                    (setup_u0 (ncols test_data) pc init seed) k) as Hcntr.
      fold pstart in Hcntr.
      eexists. exists (S k). split; [lia|]. split.
      * unfold cmeans_predict, cmeans_predict_fuel. cbn [keyword].
        fold pc. fold pstart. rewrite Hrun, Hfinal. reflexivity.
      * cbn [q_p q_d q_u].
        conjs; try reflexivity;
          [rewrite Hp; change (p_p pstart) with 0%Z; lia | now rewrite Hcntr].
  - intros mt'. cbv zeta. conjs; reflexivity.
Qed.

(** *** A stopping rule that never holds *)

Lemma norm_nonneg (a : matrix) : 0 <= norm a.
Proof. unfold norm. apply sqrt_pos. Qed.

Lemma stopping_rule_error_0 (u : matrix) (u2 : option matrix) (error : R) :
  error <= 0 -> stopping_rule u u2 error = false.
Proof.
  intros Herr. unfold stopping_rule. destruct u2 as [u2|]; [|reflexivity].
  destruct (Rlt_dec (norm (sub u u2)) error) as [Hlt|_]; [|reflexivity].
  pose proof (norm_nonneg (sub u u2)). lra.
Qed.

(** With [error <= 0] no norm is below [error]: the loop of [cmeans] runs
    all the passes its test allows, which are [maxiter - 1]. *)
Lemma cmeans_without_convergence (data : matrix) (c : nat) (m error : R)
    (maxiter : Z) (metric : option string) (init : option matrix)
    (seed : option Z) :
  error <= 0 -> (2 <= maxiter)%Z ->
  exists r,
    cmeans compute_distance random_rand data c m error maxiter metric init
      seed = Some (Ok r) /\
    r_p r = (maxiter - 1)%Z /\
    length (r_jm r) = Z.to_nat (maxiter - 1).
Proof.
  intros Herr Hmax.
  set (mt := keyword metric default_metric).
  set (u0 := setup_u0 (ncols data) c init seed).
  destruct (cmeans_loop_leaves data c m error maxiter mt u0)
    as [k [Hk [Hrun [_ [Hbreak _]]]]].
  assert (Hkn : k = Z.to_nat (maxiter - 1)).
  { destruct (Nat.lt_ge_cases k (Z.to_nat (maxiter - 1))) as [Hlt|Hge]; [|lia].
    specialize (Hbreak Hlt). unfold train_stops in Hbreak.
    now rewrite stopping_rule_error_0 in Hbreak. }
  destruct (train_pass_counts data c m mt (cmeans_start u0) k) as [Hp Hjm].
  destruct k as [|k]; [lia|].
  destruct (cmeans_final_returns data c m mt u0 (cmeans_start u0) k)
    as [r [Hr [_ [Hrp Hrjm]]]].
  exists r. conjs.
  - unfold cmeans, cmeans_fuel. fold mt. fold u0. now rewrite Hrun, Hr.
  - rewrite Hrp, Hp. simpl t_p. lia.
  - rewrite Hrjm, Hjm. simpl. lia.
Qed.

End Engine.

End EngineFacts.

(** ** The engine on concrete inputs *)

Module EngineExamples.
Import Numpy NumpyFacts Update Cluster Pieces Passes StepFacts LoopFacts
  EngineFacts.
Import Distance.
Open Scope R_scope.

Lemma euclidean_shape (metric : string) (x y : matrix) :
  has_shape (euclidean metric x y) (nrows y) (nrows x).
Proof. apply has_shape_mk_matrix. Defined.

Lemma half_rand_shape (seed : option Z) (c n : nat) :
  has_shape (half_rand seed c n) c n.
Proof. apply has_shape_mk_matrix. Defined.

Ltac shape := split; [reflexivity | repeat constructor].

Lemma prediction_keeps_trained_centers_witness :
  (has_shape data_1x2 1 2 /\ has_shape cntr_2x1 2 1 /\ has_shape u_2x2 2 2) /\
  forall r,
    cmeans_predict euclidean half_rand data_1x2 cntr_2x1 2 (/ 1000) 10 None
      None None = Some (Ok r) ->
    q_cntr_trained_arg r = cntr_2x1.
Proof.
  assert (Hd : has_shape data_1x2 1 2) by shape.
  assert (Hc : has_shape cntr_2x1 2 1) by shape.
  assert (Hu : has_shape u_2x2 2 2) by shape.
  split; [auto|]. intros r Hr.
  apply (prediction_keeps_trained_centers euclidean half_rand euclidean_shape
           1 2 2 data_1x2 data_1x2 cntr_2x1 u_2x2 2 (/ 1000) 10 "euclidean"
           None None None); auto; lia.
Defined.

Lemma metric_is_forwarded_to_compute_distance_witness :
  ((forall x y, cityblock_only "cityblock" x y = by_metric "cityblock" x y) /\
   has_shape data_1x2 1 2 /\ has_shape cntr_2x1 2 1 /\
   has_shape u_2x2 2 2 /\ 2 <> 1) /\
  cmeans cityblock_only half_rand data_1x2 2 2 (/ 1000) 10
    (Some "cityblock"%string) (Some u_2x2) None
  = cmeans by_metric half_rand data_1x2 2 2 (/ 1000) 10
      (Some "cityblock"%string) (Some u_2x2) None /\
  exists r,
    cmeans by_metric half_rand data_1x2 2 2 (/ 1000) 10
      (Some "cityblock"%string) (Some u_2x2) None = Some (Ok r) /\
    r_d r = fmax (cityblock (transpose data_1x2) (r_cntr r)) eps.
Proof.
  assert (Hsame : forall x y,
            cityblock_only "cityblock" x y = by_metric "cityblock" x y)
    by (intros x y; reflexivity).
  assert (Hd : has_shape data_1x2 1 2) by shape.
  assert (Hc : has_shape cntr_2x1 2 1) by shape.
  assert (Hu : has_shape u_2x2 2 2) by shape.
  assert (Hinit : forall u, Some u_2x2 = Some u -> has_shape u 2 2)
    by (intros u Heq; injection Heq as <-; exact Hu).
  assert (Hm : 2 <> 1) by lra.
  split; [auto 6|].
  destruct (metric_is_forwarded_to_compute_distance by_metric half_rand
              cityblock_only 1 2 2 data_1x2 data_1x2 cntr_2x1 u_2x2 2
              (/ 1000) 10 "cityblock"%string (Some u_2x2) None
              "euclidean"%string "cityblock"%string Hsame
              ltac:(lia) ltac:(lia) ltac:(lia) Hd Hd Hc Hu Hinit Hm)
    as [_ [[Hsame_run _] [_ [Hrun _]]]].
  split; [exact Hsame_run|].
  destruct (Hrun ltac:(lia)) as [[r [k [_ [Hr [_ [_ [_ [Hrd _]]]]]]]] _].
  exists r. split; [exact Hr | exact Hrd].
Defined.

Lemma main_loops_leave_by_maxiter_minus_1_witness :
  (has_shape data_1x2 1 2 /\ has_shape cntr_2x1 2 1 /\
   has_shape u_2x2 2 2 /\ 2 <> 1) /\
  exists k : nat,
    (k <= 9)%nat /\
    cmeans euclidean half_rand data_1x2 2 2 (/ 1000) 10 None (Some u_2x2) None
    = Some (cmeans_final u_2x2
              (train_pass euclidean data_1x2 2 2 "euclidean"
                 (cmeans_start u_2x2) k)).
Proof.
  assert (Hd : has_shape data_1x2 1 2) by shape.
  assert (Hc : has_shape cntr_2x1 2 1) by shape.
  assert (Hu : has_shape u_2x2 2 2) by shape.
  assert (Hinit : forall u, Some u_2x2 = Some u -> has_shape u 2 2)
    by (intros u Heq; injection Heq as <-; exact Hu).
  assert (Hm : 2 <> 1) by lra.
  split; [auto|].
  destruct (main_loops_leave_by_maxiter_minus_1 euclidean half_rand 1 2 2
              data_1x2 data_1x2 cntr_2x1 2 (/ 1000) 10 None (Some u_2x2) None
              ltac:(lia) ltac:(lia) ltac:(lia) Hd Hd Hc Hinit Hm)
    as [[k [Hrun [Hk _]]] _].
  exists k. split; [exact Hk | exact Hrun].
Defined.

Lemma maxiter_at_most_1_raises_unbound_local_witness :
  (1 <= 1)%Z /\
  cmeans euclidean half_rand data_1x2 2 2 (/ 1000) 1 None None None
    = Some (Raise (UnboundLocalError "u2")) /\
  cmeans_predict euclidean half_rand data_1x2 cntr_2x1 2 (/ 1000) 1 None None
    None = Some (Raise (UnboundLocalError "u2")).
Proof.
  assert (H : (1 <= 1)%Z) by lia.
  pose proof (maxiter_at_most_1_raises_unbound_local euclidean half_rand
                data_1x2 data_1x2 cntr_2x1 2 2 (/ 1000) 1 None None None H)
    as [_ [_ [Ht [_ [_ Hp]]]]].
  split; [exact H | split; [exact Ht | exact Hp]].
Defined.

(** *** A run by hand *)

Lemma eps_small : eps < / 1000.
Proof.
  unfold eps. apply Rinv_lt_contravar.
  - apply Rmult_lt_0_compat; [lra | apply pow_lt; lra].
  - change 52%nat with (10 + 42)%nat. rewrite pow_add.
    assert (1 <= 2 ^ 42) by (apply pow_R1_Rle; lra).
    assert (2 ^ 10 = 1024) by (simpl; lra). nra.
Qed.

Lemma Rpower_2 (x : R) : 0 < x -> Rpower x 2 = x * x.
Proof.
  intros Hx. replace 2 with (INR 2) by (simpl; lra).
  rewrite Rpower_pow by exact Hx. simpl. ring.
Qed.

Lemma Rpower_minus_2 (x m : R) :
  0 < x -> m = 2 -> Rpower x (-2 / (m - 1)) = / (x * x).
Proof.
  intros Hx ->. replace (-2 / (2 - 1)) with (- (2)) by field.
  now rewrite Rpower_Ropp, Rpower_2.
Qed.

(** One step on the example: [u_old] has column sums 2 and 4, the weights
    are 1/4, 1/16 and 1/4, 9/16, the centers 1/5 and 9/13. *)
Example centers_of_example :
  let r := cmeans0 euclidean data_1x2 u_2x2 2 2 "euclidean" in
  item (so_cntr r) 0 0 = 1 / 5 /\ item (so_cntr r) 1 0 = 9 / 13.
Proof.
  assert (Hd : has_shape data_1x2 1 2) by shape.
  assert (Hu : has_shape u_2x2 2 2) by shape.
  pose proof eps_small as He. cbv zeta.
  rewrite !(item_cntr euclidean 1 2 2) by (assumption || lia).
  unfold center, weight, normalized, sigma, item, data_1x2, u_2x2. simpl.
  replace (1 / (1 + (1 + 0))) with (/ 2) by lra.
  replace (1 / (1 + (3 + 0))) with (/ 4) by lra.
  replace (3 / (1 + (3 + 0))) with (3 / 4) by lra.
  rewrite !Rmax_left by lra.
  rewrite !Rpower_2 by lra.
  split; field.
Qed.

Lemma sqrt_of_square (a : R) : sqrt (a ^ 2 + 0) = Rabs a.
Proof.
  rewrite Rplus_0_r. replace (a ^ 2) with (Rsqr a) by (unfold Rsqr; ring).
  apply sqrt_Rsqr_abs.
Qed.

(** The distances of the two samples 0 and 1 to these centers, and the new
    memberships [d ** -2] over their column sums. *)
Example membership_of_example :
  let r := cmeans0 euclidean data_1x2 u_2x2 2 2 "euclidean" in
  item (so_d r) 0 0 = 1 / 5 /\ item (so_d r) 0 1 = 4 / 5 /\
  item (so_d r) 1 0 = 9 / 13 /\ item (so_d r) 1 1 = 4 / 13 /\
  item (so_u r) 0 0 = 2025 / 2194 /\ item (so_u r) 1 0 = 169 / 2194 /\
  item (so_u r) 0 1 = 25 / 194 /\ item (so_u r) 1 1 = 169 / 194.
Proof.
  intros r.
  assert (Hd : has_shape data_1x2 1 2) by shape.
  assert (Hu : has_shape u_2x2 2 2) by shape.
  pose proof eps_small as He.
  destruct centers_of_example as [Hc0 Hc1]. fold r in Hc0, Hc1.
  destruct (cmeans0_u euclidean data_1x2 u_2x2 2 2 "euclidean")
    as [Hru [Hrd _]].
  fold r in Hru, Hrd.
  set (dist := train_distances euclidean data_1x2 u_2x2 2 2 "euclidean") in *.
  assert (Hdist : has_shape dist 2 2)
    by (apply (has_shape_train_distances euclidean euclidean_shape 1 2 2);
        (assumption || lia)).
  assert (Hval : forall i j, (i < 2)%nat -> (j < 2)%nat ->
            item dist i j = Rabs (item data_1x2 0 j - item (so_cntr r) i 0)).
  { intros i j Hi Hj.
    assert (Hsc : has_shape (so_cntr r) 2 1)
      by (apply (has_shape_cntr euclidean 1 2 2); (assumption || lia)).
    unfold dist, train_distances. fold r. unfold euclidean.
    rewrite (nrows_of_shape _ 2 1 Hsc).
    assert (HdT : has_shape (transpose data_1x2) 2 1)
      by (apply has_shape_transpose; (assumption || lia)).
    rewrite (nrows_of_shape _ 2 1 HdT), (ncols_of_shape _ 2 1 HdT) by lia.
    rewrite item_mk_matrix by assumption. simpl.
    rewrite (item_transpose data_1x2 1 2) by (assumption || lia).
    apply sqrt_of_square. }
  assert (H00 : clamped dist 0 0 = 1 / 5).
  { unfold clamped. rewrite Hval, Hc0 by lia. unfold item; simpl.
    rewrite Rabs_left by lra. rewrite Rmax_left by lra. lra. }
  assert (H01 : clamped dist 0 1 = 4 / 5).
  { unfold clamped. rewrite Hval, Hc0 by lia. unfold item; simpl.
    rewrite Rabs_right by lra. rewrite Rmax_left by lra. lra. }
  assert (H10 : clamped dist 1 0 = 9 / 13).
  { unfold clamped. rewrite Hval, Hc1 by lia. unfold item; simpl.
    rewrite Rabs_left by lra. rewrite Rmax_left by lra. lra. }
  assert (H11 : clamped dist 1 1 = 4 / 13).
  { unfold clamped. rewrite Hval, Hc1 by lia. unfold item; simpl.
    rewrite Rabs_right by lra. rewrite Rmax_left by lra. lra. }
  rewrite Hrd, Hru.
  rewrite !(item_clamped dist 2 2) by (assumption || lia).
  rewrite !(item_new_membership 2 2) by (assumption || lia).
  unfold membership, sigma. simpl. rewrite H00, H01, H10, H11.
  rewrite !Rpower_minus_2 by lra.
  repeat split; try reflexivity; field.
Qed.

Lemma fmax_u_2x2 : fmax u_2x2 eps = u_2x2.
Proof.
  pose proof eps_small. unfold fmax, u_2x2. simpl.
  now rewrite !Rmax_left by lra.
Qed.

(** [cmeans] with [maxiter = 2] and [error = 0]: one pass, and the values
    of that step. *)
Example cmeans_of_example :
  exists r,
    cmeans euclidean half_rand data_1x2 2 2 0 2 None (Some u_2x2) None
      = Some (Ok r) /\
    r_p r = 1%Z /\ length (r_jm r) = 1%nat /\ r_u0 r = u_2x2 /\
    item (r_cntr r) 0 0 = 1 / 5 /\ item (r_cntr r) 1 0 = 9 / 13 /\
    item (r_u r) 0 0 = 2025 / 2194 /\ item (r_u r) 1 0 = 169 / 2194 /\
    item (r_u r) 0 1 = 25 / 194 /\ item (r_u r) 1 1 = 169 / 194.
Proof.
  unfold cmeans, cmeans_fuel.
  change (Z.to_nat (2 - 1)) with 1%nat.
  change (keyword None default_metric) with "euclidean"%string.
  change (setup_u0 half_rand (ncols data_1x2) 2 (Some u_2x2) None) with u_2x2.
  cbn [cmeans_loop]. change (t_p (cmeans_start u_2x2) <? 2 - 1)%Z with true.
  cbv iota. rewrite stopping_rule_error_0 by lra.
  change (t_p (cmeans_body euclidean data_1x2 2 2 "euclidean"
                 (cmeans_start u_2x2)) <? 2 - 1)%Z with false.
  cbv iota.
  unfold cmeans_body, cmeans_start. cbn [t_u t_jm t_p]. unfold copy.
  rewrite fmax_u_2x2.
  unfold cmeans_final. cbn [t_u t_u2 t_cntr t_d t_jm t_p read_local bind].
  eexists. split; [reflexivity|]. cbn [r_p r_jm r_u0 r_cntr r_u].
  destruct centers_of_example as [Hc0 Hc1].
  destruct membership_of_example as [_ [_ [_ [_ [H00 [H10 [H01 H11]]]]]]].
  repeat split; assumption.
Qed.

(** C3, as it is stated, fails.  With [maxiter = 2] and [error = 0] the
    stopping rule holds after no pass, yet [cmeans] returns [p = 1], not
    [p = maxiter = 2], after one pass and with one objective value. *)
Lemma cmeans_returns_p_below_maxiter :
  exists r,
    cmeans euclidean half_rand data_1x2 2 2 0 2 None (Some u_2x2) None
      = Some (Ok r) /\
    (forall u u2, stopping_rule u u2 0 = false) /\
    r_p r = 1%Z /\ r_p r <> 2%Z /\ length (r_jm r) = 1%nat.
Proof.
  destruct (cmeans_without_convergence euclidean half_rand data_1x2 2 2 0 2
              None (Some u_2x2) None)
    as [r [Hr [Hp Hjm]]]; [lra | lia |].
  exists r. conjs.
  - exact Hr.
  - intros u u2. apply stopping_rule_error_0. lra.
  - rewrite Hp. reflexivity.
  - rewrite Hp. discriminate.
  - rewrite Hjm. reflexivity.
Qed.

End EngineExamples.

(** ** The steps in binary64 arithmetic *)

Module Float64Facts.
Import Floats.
Import Float64.
Open Scope float_scope.

(** *** Arrays *)

Lemma nth_run (A : Type) (f : nat -> A) (n c : nat) (d : A) :
  (n < c)%nat -> nth n (map f (seq 0 c)) d = f n.
Proof.
  intros Hn. rewrite (nth_indep _ d (f 0%nat))
    by (rewrite length_map, length_seq; exact Hn).
  rewrite map_nth, seq_nth by exact Hn. reflexivity.
Qed.

Lemma run_ext (n : nat) (f g : nat -> float) :
  (forall j, (j < n)%nat -> f j = g j) -> run n f = run n g.
Proof.
  intros H. unfold run. apply map_ext_in. intros j Hj.
  apply in_seq in Hj. apply H. lia.
Qed.

Lemma tabulate_row (l : list float) (c : nat) :
  length l = c -> l = run c (fun j => nth j l 0).
Proof.
  intros Hlen. apply (nth_ext _ _ 0 0).
  - unfold run. now rewrite length_map, length_seq.
  - intros n Hn. unfold run. rewrite nth_run by lia. reflexivity.
Qed.

Lemma length_of_row (a : array) (r c i : nat) :
  shaped a r c -> (i < r)%nat -> length (nth i a []) = c.
Proof.
  intros [Hr Hrows] Hi. rewrite Forall_forall in Hrows.
  apply Hrows, nth_In. lia.
Qed.

Lemma ncols_shaped (a : array) (r c : nat) :
  shaped a r c -> (0 < r)%nat -> ncols a = c.
Proof.
  intros [Hr Hrows] Hpos. destruct a as [|row rest]; [simpl in Hr; lia|].
  apply Forall_cons_iff in Hrows. now destruct Hrows.
Qed.

(** A row and a column are the runs of their entries, and an array is the
    table of its entries. *)
Lemma row_run (a : array) (r c i : nat) :
  shaped a r c -> (i < r)%nat -> nth i a [] = run c (fun j => item a i j).
Proof.
  intros Ha Hi. unfold item.
  exact (tabulate_row (nth i a []) c (length_of_row a r c i Ha Hi)).
Qed.

Lemma column_run (a : array) (r c j : nat) :
  shaped a r c -> column a j = run r (fun i => item a i j).
Proof.
  intros [Hr Hrows]. unfold column, run. apply (nth_ext _ _ 0 0).
  - now rewrite !length_map, length_seq.
  - intros i Hi. rewrite length_map in Hi. rewrite nth_run by lia.
    rewrite (nth_indep _ 0 ((fun row => nth j row 0) []))
      by (rewrite length_map; exact Hi).
    now rewrite (map_nth (fun row => nth j row 0)).
Qed.

Lemma tabulate (a : array) (r c : nat) :
  shaped a r c -> a = map (fun i => run c (fun j => item a i j)) (seq 0 r).
Proof.
  intros Ha. pose proof Ha as [Hr Hrows]. apply (nth_ext _ _ [] []).
  - now rewrite length_map, length_seq.
  - intros i Hi. rewrite nth_run by lia.
    apply (row_run a r c); [exact Ha | lia].
Qed.

Lemma length_zip_row (op : float -> float -> float) (x y : list float) :
  length x = length y -> length (zip_row op x y) = length x.
Proof.
  intros H. unfold zip_row. rewrite length_map, length_combine, <- H.
  apply Nat.min_id.
Qed.

Lemma nth_zip_row (op : float -> float -> float) (x y : list float)
    (j : nat) :
  length x = length y -> (j < length x)%nat ->
  nth j (zip_row op x y) 0 = op (nth j x 0) (nth j y 0).
Proof.
  intros Hlen Hj. unfold zip_row.
  rewrite (nth_indep _ 0 ((fun xy => op (fst xy) (snd xy)) (0, 0)))
    by (rewrite length_map, length_combine, <- Hlen, Nat.min_id; exact Hj).
  rewrite (map_nth (fun xy => op (fst xy) (snd xy)) (combine x y) (0, 0) j).
  now rewrite combine_nth.
Qed.

Lemma shaped_map64 (g : float -> float) (a : array) (r c : nat) :
  shaped a r c -> shaped (map (map g) a) r c.
Proof.
  intros [Hr Hrows]. split; [now rewrite length_map|].
  apply Forall_forall. intros row Hrow. apply in_map_iff in Hrow.
  destruct Hrow as [row0 [<- Hin]]. rewrite length_map.
  rewrite Forall_forall in Hrows. now apply Hrows.
Qed.

Lemma item_map64 (g : float -> float) (a : array) (r c i j : nat) :
  shaped a r c -> (i < r)%nat -> (j < c)%nat ->
  item (map (map g) a) i j = g (item a i j).
Proof.
  intros Ha Hi Hj. pose proof Ha as [Hr _]. unfold item.
  rewrite (nth_indep _ [] (map g [])) by (rewrite length_map; lia).
  rewrite (map_nth (map g)).
  pose proof (length_of_row a r c i Ha Hi) as Hlen.
  rewrite (nth_indep _ 0 (g 0)) by (rewrite length_map; lia).
  apply map_nth.
Qed.

Lemma shaped_zip_with (op : float -> float -> float) (a b : array)
    (r c : nat) :
  shaped a r c -> shaped b r c -> shaped (zip_with op a b) r c.
Proof.
  intros [Ha Harows] [Hb Hbrows]. unfold zip_with. split.
  - rewrite length_map, length_combine, Ha, Hb. apply Nat.min_id.
  - apply Forall_forall. intros row Hrow. apply in_map_iff in Hrow.
    destruct Hrow as [[x y] [<- Hin]]. simpl.
    rewrite Forall_forall in Harows, Hbrows.
    pose proof (in_combine_l _ _ _ _ Hin) as Hx.
    pose proof (in_combine_r _ _ _ _ Hin) as Hy.
    rewrite length_zip_row; [now apply Harows|].
    rewrite (Harows x Hx). symmetry. now apply Hbrows.
Qed.

Lemma item_zip_with64 (op : float -> float -> float) (a b : array)
    (r c i j : nat) :
  shaped a r c -> shaped b r c -> (i < r)%nat -> (j < c)%nat ->
  item (zip_with op a b) i j = op (item a i j) (item b i j).
Proof.
  intros Hsa Hsb Hi Hj. pose proof Hsa as [Ha _]. pose proof Hsb as [Hb _].
  unfold item, zip_with.
  rewrite (nth_indep _ []
             ((fun xy => zip_row op (fst xy) (snd xy)) ([], [])))
    by (rewrite length_map, length_combine, Ha, Hb, Nat.min_id; exact Hi).
  rewrite (map_nth (fun xy => zip_row op (fst xy) (snd xy)) (combine a b)
             ([], []) i).
  rewrite combine_nth by congruence. simpl.
  pose proof (length_of_row a r c i Hsa Hi) as Hla.
  pose proof (length_of_row b r c i Hsb Hi) as Hlb.
  apply nth_zip_row; congruence.
Qed.

Lemma shaped_transpose (a : array) (r c : nat) :
  shaped a r c -> (0 < r)%nat -> shaped (transpose a) c r.
Proof.
  intros Ha Hpos. unfold transpose. rewrite (ncols_shaped a r c Ha Hpos).
  destruct Ha as [Hr _]. split; [now rewrite length_map, length_seq|].
  apply Forall_forall. intros row Hrow. apply in_map_iff in Hrow.
  destruct Hrow as [j [<- _]]. unfold column. now rewrite length_map.
Qed.

Lemma row_transpose (a : array) (r c j : nat) :
  shaped a r c -> (0 < r)%nat -> (j < c)%nat ->
  nth j (transpose a) [] = column a j.
Proof.
  intros Ha Hpos Hj. unfold transpose.
  rewrite (ncols_shaped a r c Ha Hpos). now rewrite nth_run.
Qed.

Lemma item_transpose64 (a : array) (r c i j : nat) :
  shaped a r c -> (i < r)%nat -> (j < c)%nat ->
  item (transpose a) j i = item a i j.
Proof.
  intros Ha Hi Hj. unfold item at 1.
  rewrite (row_transpose a r c j Ha ltac:(lia) Hj).
  rewrite (column_run a r c j Ha). unfold run. now rewrite nth_run.
Qed.

(** *** Infinity and NaN *)

Lemma is_nan_spec (x : float) : Prim2SF x = S754_nan -> is_nan x = true.
Proof.
  intros H. unfold is_nan. now rewrite eqb_spec, H.
Qed.

Lemma add_infinite_l (a x : float) :
  infinite_or_nan a -> infinite_or_nan (a + x).
Proof.
  unfold infinite_or_nan. rewrite add_spec. unfold SF64add.
  intros [-> | ->]; destruct (Prim2SF x) as [s|[|]| |s m e]; auto.
Qed.

Lemma add_infinite_r (a x : float) :
  Prim2SF x = S754_infinity false -> infinite_or_nan (a + x).
Proof.
  unfold infinite_or_nan. rewrite add_spec. unfold SF64add.
  intros ->. destruct (Prim2SF a) as [s|[|]| |s m e]; auto.
Qed.

Lemma fold_add_infinite (l : list float) (a : float) :
  infinite_or_nan a -> infinite_or_nan (fold_left PrimFloat.add l a).
Proof.
  revert a. induction l as [|x l IH]; intros a Ha; [exact Ha|].
  simpl. apply IH. now apply add_infinite_l.
Qed.

(** A sum in index order with the term plus infinity is plus infinity or
    NaN. *)
Lemma total_with_infinity (l : list float) (i : nat) :
  (i < length l)%nat -> Prim2SF (nth i l 0) = S754_infinity false ->
  infinite_or_nan (total l).
Proof.
  destruct l as [|x l]; [simpl; lia|]. simpl total.
  revert x i. induction l as [|y l IH]; intros x i Hi Hinf.
  - destruct i as [|i]; [|simpl in Hi; lia]. now left.
  - simpl. destruct i as [|[|i]].
    + apply fold_add_infinite, add_infinite_l. now left.
    + apply fold_add_infinite, add_infinite_r. exact Hinf.
    + apply (IH (x + y) (S i)); [simpl in *; lia | exact Hinf].
Qed.

Lemma one_times_infinite (s : float) :
  infinite_or_nan s -> infinite_or_nan (1 * s).
Proof.
  unfold infinite_or_nan. rewrite mul_spec. unfold SF64mul.
  change (Prim2SF 1) with (S754_finite false 4503599627370496 (-52)).
  intros [-> | ->]; auto.
Qed.

Lemma infinity_over_infinite (x s : float) :
  Prim2SF x = S754_infinity false -> infinite_or_nan s ->
  is_nan (x / s) = true.
Proof.
  intros Hx Hs. apply is_nan_spec. rewrite div_spec. unfold SF64div.
  rewrite Hx. now destruct Hs as [-> | ->].
Qed.

(** The sums in index order are an arithmetic the theorems apply to. *)
Lemma in_order_inner : inner_of_one_term in_order.
Proof. intros x y. reflexivity. Qed.

Lemma in_order_total : total_keeps_infinity in_order.
Proof.
  intros l i Hi Hinf. apply (total_with_infinity l i Hi). now rewrite Hinf.
Qed.

(** *** The steps *)

Section Engine.

Variable np : arithmetic.
Variable compute_distance : string -> array -> array -> array.

Hypothesis inner_one : inner_of_one_term np.
Hypothesis compute_distance_shape :
  forall metric x y, shaped (compute_distance metric x y) (nrows y) (nrows x).

Local Abbreviation sum_axis0 := (sum_axis0 np).
Local Abbreviation sum_axis1 := (sum_axis1 np).
Local Abbreviation sum_all := (sum_all np).
Local Abbreviation dot := (dot np).
Local Abbreviation by_column_sums := (by_column_sums np).
Local Abbreviation power_array := (power_array np).
Local Abbreviation cmeans0 := (cmeans0 np compute_distance).
Local Abbreviation cmeans_predict0 := (cmeans_predict0 np compute_distance).
Local Abbreviation weight := (weight np).
Local Abbreviation center := (center np).
Local Abbreviation objective := (objective np).
Local Abbreviation membership := (membership np).

Lemma sum_axis0_column (a : array) (r c j : nat) :
  shaped a r c -> (0 < r)%nat -> (j < c)%nat ->
  length (sum_axis0 a) = c /\
  nth j (sum_axis0 a) 0 = column_total np (run r (fun i => item a i j)).
Proof.
  intros Ha Hpos Hj. unfold Float64.sum_axis0.
  rewrite (ncols_shaped a r c Ha Hpos).
  split; [now rewrite length_map, length_seq|].
  rewrite nth_run by exact Hj. now rewrite (column_run a r c j Ha).
Qed.

Lemma sum_axis1_row (a : array) (r c i : nat) :
  shaped a r c -> (i < r)%nat ->
  length (sum_axis1 a) = r /\
  nth i (sum_axis1 a) 0 = row_total np (run c (fun j => item a i j)).
Proof.
  intros Ha Hi. pose proof Ha as [Hr _]. unfold Float64.sum_axis1.
  split; [now rewrite length_map|].
  rewrite (nth_indep _ 0 (row_total np [])) by (rewrite length_map; lia).
  rewrite (map_nth (row_total np)). now rewrite (row_run a r c i Ha Hi).
Qed.

Lemma shaped_dot (a b : array) (r n c : nat) :
  shaped a r n -> shaped b n c -> (0 < n)%nat -> shaped (dot a b) r c.
Proof.
  intros [Hr _] Hb Hn. unfold Float64.dot. split; [now rewrite length_map|].
  apply Forall_forall. intros row Hrow. apply in_map_iff in Hrow.
  destruct Hrow as [x [<- _]]. rewrite length_map.
  now destruct (shaped_transpose b n c Hb Hn).
Qed.

Lemma item_dot64 (a b : array) (r n c i k : nat) :
  shaped a r n -> shaped b n c -> (0 < n)%nat -> (i < r)%nat ->
  (k < c)%nat ->
  item (dot a b) i k
  = inner np (run n (fun j => item a i j)) (run n (fun j => item b j k)).
Proof.
  intros Ha Hb Hn Hi Hk. pose proof Ha as [Hr _].
  pose proof (shaped_transpose b n c Hb Hn) as [Htr _].
  unfold item at 1. unfold Float64.dot.
  rewrite (nth_indep _ []
             ((fun row => map (inner np row) (transpose b)) []))
    by (rewrite length_map; lia).
  rewrite (map_nth (fun row => map (inner np row) (transpose b))).
  rewrite (nth_indep _ 0 (inner np (nth i a []) []))
    by (rewrite length_map; lia).
  rewrite (map_nth (inner np (nth i a []))).
  rewrite (row_transpose b n c k Hb Hn Hk).
  rewrite (column_run b n c k Hb). now rewrite (row_run a r n i Ha Hi).
Qed.

(** [np.ones((r, 1)).dot(np.atleast_2d(v))]: [r] rows, each [1 * v]. *)
Lemma dot_ones (r : nat) (v : list float) :
  dot (ones r 1) (atleast_2d v) = repeat (map (fun x => 1 * x) v) r.
Proof.
  unfold Float64.dot, ones, atleast_2d, transpose, column. simpl.
  rewrite map_repeat. f_equal. rewrite map_map.
  transitivity
    (map (fun x => 1 * x) (map (fun j => nth j v 0) (seq 0 (length v)))).
  - rewrite map_map. apply map_ext. intros j. apply inner_one.
  - fold (run (length v) (fun j => nth j v 0)).
    now rewrite <- (tabulate_row v (length v) eq_refl).
Qed.

Lemma shaped_dot_ones (r : nat) (v : list float) :
  shaped (dot (ones r 1) (atleast_2d v)) r (length v).
Proof.
  rewrite dot_ones. split; [apply repeat_length|].
  apply Forall_forall. intros row Hrow. apply repeat_spec in Hrow.
  subst row. now rewrite length_map.
Qed.

Lemma item_dot_ones (r : nat) (v : list float) (i j : nat) :
  (i < r)%nat -> (j < length v)%nat ->
  item (dot (ones r 1) (atleast_2d v)) i j = 1 * nth j v 0.
Proof.
  intros Hi Hj. rewrite dot_ones. unfold item.
  rewrite nth_repeat_lt by exact Hi.
  rewrite (nth_indep _ 0 ((fun y => 1 * y) 0))
    by (rewrite length_map; exact Hj).
  now rewrite (map_nth (fun y => 1 * y)).
Qed.

Lemma shaped_by_column_sums (x : array) (r c : nat) :
  shaped x r c -> (0 < r)%nat -> (0 < c)%nat ->
  shaped (by_column_sums r x) r c.
Proof.
  intros Hx Hr Hc. unfold Float64.by_column_sums, div.
  apply shaped_zip_with; [exact Hx|].
  pose proof (shaped_dot_ones r (sum_axis0 x)) as H.
  destruct (sum_axis0_column x r c 0 Hx Hr Hc) as [Hlen _].
  now rewrite Hlen in H.
Qed.

Lemma item_by_column_sums64 (x : array) (r c i j : nat) :
  shaped x r c -> (i < r)%nat -> (j < c)%nat ->
  item (by_column_sums r x) i j
  = item x i j / (1 * column_total np (run r (fun k => item x k j))).
Proof.
  intros Hx Hi Hj. unfold Float64.by_column_sums, div.
  destruct (sum_axis0_column x r c j Hx ltac:(lia) Hj) as [Hlen Hcol].
  rewrite (item_zip_with64 _ x _ r c); try assumption.
  - rewrite item_dot_ones by (rewrite ?Hlen; assumption).
    now rewrite Hcol.
  - pose proof (shaped_dot_ones r (sum_axis0 x)) as H.
    now rewrite Hlen in H.
Qed.

(** The normalized and clamped [u_old], to the power [m]. *)
Lemma um_entries (N c : nat) (u_old : array) (m : float) :
  (0 < N)%nat -> (0 < c)%nat -> shaped u_old c N ->
  let um := power_array (fmax (by_column_sums c u_old) eps) m in
  shaped um c N /\
  forall i j, (i < c)%nat -> (j < N)%nat ->
    item um i j = weight c u_old m i j.
Proof.
  intros HN Hc Hu um. unfold um, Float64.power_array, fmax.
  pose proof (shaped_by_column_sums u_old c N Hu Hc HN) as Hn.
  split; [now apply shaped_map64, shaped_map64|].
  intros i j Hi Hj.
  rewrite (item_map64 _ _ c N); [|now apply shaped_map64 | exact Hi | exact Hj].
  rewrite (item_map64 _ _ c N) by assumption.
  now rewrite (item_by_column_sums64 u_old c N) by assumption.
Qed.

(** The centers [cmeans0] computes from the weights [um]. *)
Lemma cntr_entries (nf N c : nat) (data um : array) (w : nat -> nat -> float) :
  (0 < nf)%nat -> (0 < N)%nat -> shaped data nf N -> shaped um c N ->
  (forall i j, (i < c)%nat -> (j < N)%nat -> item um i j = w i j) ->
  let dataT := transpose data in
  let cntr :=
    div (dot um dataT)
        (transpose (dot (ones (ncols dataT) 1) (atleast_2d (sum_axis1 um)))) in
  shaped cntr c nf /\
  forall i k, (i < c)%nat -> (k < nf)%nat ->
    item cntr i k
    = inner np (run N (w i)) (run N (fun j => item data k j))
      / (1 * row_total np (run N (w i))).
Proof.
  intros Hnf HN Hdata Hum Hw dataT cntr.
  pose proof (shaped_transpose data nf N Hdata Hnf) as HdT.
  fold dataT in HdT.
  assert (Hcols : ncols dataT = nf) by now apply (ncols_shaped dataT N nf).
  assert (Hlen : length (sum_axis1 um) = c)
    by (unfold Float64.sum_axis1; rewrite length_map; now destruct Hum).
  assert (Hnum : shaped (dot um dataT) c nf)
    by now apply (shaped_dot um dataT c N nf).
  assert (Hones : shaped (dot (ones nf 1) (atleast_2d (sum_axis1 um))) nf c)
    by (pose proof (shaped_dot_ones nf (sum_axis1 um)) as H;
        now rewrite Hlen in H).
  assert (Hden :
    shaped (transpose (dot (ones nf 1) (atleast_2d (sum_axis1 um)))) c nf)
    by now apply shaped_transpose.
  unfold cntr, div. rewrite Hcols.
  split; [now apply shaped_zip_with|].
  intros i k Hi Hk.
  rewrite (item_zip_with64 _ _ _ c nf) by assumption.
  rewrite (item_dot64 um dataT c N nf) by assumption.
  rewrite (item_transpose64 _ nf c k i) by assumption.
  rewrite item_dot_ones by (rewrite ?Hlen; assumption).
  destruct (sum_axis1_row um c N i Hum Hi) as [_ Hrow]. rewrite Hrow.
  assert (Hrun : run N (fun j => item um i j) = run N (w i))
    by (apply run_ext; intros j Hj; now apply Hw).
  rewrite Hrun. f_equal. f_equal. apply run_ext. intros j Hj.
  unfold dataT. now rewrite (item_transpose64 data nf N k j).
Qed.

(** The clamped distances, the objective and the new membership. *)
Lemma d_entries (N c : nat) (dist : array) :
  shaped dist c N ->
  shaped (fmax dist eps) c N /\
  forall i j, (i < c)%nat -> (j < N)%nat ->
    item (fmax dist eps) i j = clamped dist i j.
Proof.
  intros Hd. unfold fmax. split; [now apply shaped_map64|].
  intros i j Hi Hj. now rewrite (item_map64 _ _ c N).
Qed.

Lemma jm_entries (N c : nat) (um d : array) (w x : nat -> nat -> float) :
  shaped um c N -> shaped d c N ->
  (forall i j, (i < c)%nat -> (j < N)%nat -> item um i j = w i j) ->
  (forall i j, (i < c)%nat -> (j < N)%nat -> item d i j = x i j) ->
  sum_all (mul um (square d))
  = grand_total np
      (concat
         (map (fun i => run N (fun j => w i j * (x i j * x i j)))
              (seq 0 c))).
Proof.
  intros Hum Hd Hw Hx. unfold Float64.sum_all. f_equal. f_equal.
  assert (Hsq : shaped (square d) c N) by now apply shaped_map64.
  rewrite (tabulate (mul um (square d)) c N)
    by now apply shaped_zip_with.
  apply map_ext_in. intros i Hi. apply in_seq in Hi.
  apply run_ext. intros j Hj.
  unfold mul. rewrite (item_zip_with64 _ _ _ c N); try assumption; try lia.
  unfold square. rewrite (item_map64 _ _ c N); try assumption; try lia.
  rewrite Hw, Hx by lia. reflexivity.
Qed.

Lemma u_entries (N c : nat) (d : array) (e : float) (x : nat -> nat -> float) :
  (0 < N)%nat -> (0 < c)%nat -> shaped d c N ->
  (forall i j, (i < c)%nat -> (j < N)%nat -> item d i j = x i j) ->
  let u := by_column_sums c (power_array d e) in
  shaped u c N /\
  forall i j, (i < c)%nat -> (j < N)%nat ->
    item u i j
    = power np (x i j) e
      / (1 * column_total np (run c (fun k => power np (x k j) e))).
Proof.
  intros HN Hc Hd Hx u. unfold u, Float64.power_array.
  assert (Hp : shaped (map (map (fun v => power np v e)) d) c N)
    by now apply shaped_map64.
  split; [now apply shaped_by_column_sums|].
  intros i j Hi Hj.
  rewrite (item_by_column_sums64 _ c N) by assumption.
  rewrite (item_map64 _ _ c N) by assumption. rewrite Hx by assumption.
  f_equal. f_equal. f_equal. apply run_ext. intros k Hk.
  rewrite (item_map64 _ _ c N) by assumption. now rewrite Hx.
Qed.

(** With [m = 1] the steps raise [ZeroDivisionError]. *)
Lemma steps_raise_at_1 (data test_data cntr u_old : array) (c : nat)
    (m : float) (metric : string) :
  (m - 1 =? 0) = true ->
  cmeans0 data u_old c m metric = Raise ZeroDivisionError /\
  cmeans_predict0 test_data cntr u_old c m metric = Raise ZeroDivisionError.
Proof.
  intros Hm. unfold Float64.cmeans0, Float64.cmeans_predict0, exponent.
  rewrite Hm. split; reflexivity.
Qed.

(** With any other [m] the training step returns, entry by entry, the
    formulas of the update with every operation rounded. *)
Lemma cmeans0_entries (nf N c : nat) (data u_old : array) (m : float)
    (metric : string) :
  (0 < nf)%nat -> (0 < N)%nat -> (0 < c)%nat ->
  shaped data nf N -> shaped u_old c N -> (m - 1 =? 0) = false ->
  exists r,
    cmeans0 data u_old c m metric = Ok r /\
    let dist := compute_distance metric (transpose data) (so_cntr r) in
    let e := -2 / (m - 1) in
    shaped (so_cntr r) c nf /\
    (forall i k, (i < c)%nat -> (k < nf)%nat ->
       item (so_cntr r) i k = center c N data u_old m i k) /\
    shaped dist c N /\
    shaped (so_d r) c N /\
    (forall i j, (i < c)%nat -> (j < N)%nat ->
       item (so_d r) i j = clamped dist i j) /\
    so_jm r = objective c N u_old m dist /\
    shaped (so_u r) c N /\
    (forall i j, (i < c)%nat -> (j < N)%nat ->
       item (so_u r) i j = membership c e dist i j).
Proof.
  intros Hnf HN Hc Hdata Hu Hm.
  unfold Float64.cmeans0, exponent. rewrite Hm. eexists.
  split; [reflexivity|]. cbv zeta. cbn [so_cntr so_d so_jm so_u].
  fold (by_column_sums c u_old).
  destruct (um_entries N c u_old m HN Hc Hu) as [Hum Hw].
  destruct (cntr_entries nf N c data _ (weight c u_old m) Hnf HN Hdata Hum Hw)
    as [Hcntr Hcenter].
  set (um := power_array (fmax (by_column_sums c u_old) eps) m) in *.
  set (cntr := div (dot um (transpose data)) _) in *.
  pose proof (shaped_transpose data nf N Hdata Hnf) as [HdT _].
  assert (Hdist : shaped (compute_distance metric (transpose data) cntr) c N).
  { pose proof (compute_distance_shape metric (transpose data) cntr) as H.
    unfold nrows in H. destruct Hcntr as [Hrows _].
    now rewrite Hrows, HdT in H. }
  set (dist := compute_distance metric (transpose data) cntr) in *.
  destruct (d_entries N c dist Hdist) as [Hd Hclamped].
  destruct (u_entries N c (fmax dist eps) (-2 / (m - 1)) (clamped dist) HN Hc
              Hd Hclamped) as [Hsu Hmem].
  split; [exact Hcntr|]. split; [exact Hcenter|]. split; [exact Hdist|].
  split; [exact Hd|]. split; [exact Hclamped|].
  split; [now apply (jm_entries N c)|]. split; [exact Hsu | exact Hmem].
Qed.

(** The prediction step, in the same way, from the distances to the
    trained centers. *)
Lemma cmeans_predict0_entries (nf N c : nat)
    (test_data cntr u_old : array) (m : float) (metric : string) :
  (0 < nf)%nat -> (0 < N)%nat -> (0 < c)%nat ->
  shaped test_data nf N -> shaped cntr c nf -> shaped u_old c N ->
  (m - 1 =? 0) = false ->
  exists q,
    cmeans_predict0 test_data cntr u_old c m metric = Ok q /\
    let dist := compute_distance metric (transpose test_data) cntr in
    let e := -2 / (m - 1) in
    shaped dist c N /\
    shaped (po_d q) c N /\
    (forall i j, (i < c)%nat -> (j < N)%nat ->
       item (po_d q) i j = clamped dist i j) /\
    po_jm q = objective c N u_old m dist /\
    shaped (po_u q) c N /\
    (forall i j, (i < c)%nat -> (j < N)%nat ->
       item (po_u q) i j = membership c e dist i j).
Proof.
  intros Hnf HN Hc Htest Hcntr Hu Hm.
  unfold Float64.cmeans_predict0, exponent. rewrite Hm. eexists.
  split; [reflexivity|]. cbv zeta. cbn [po_d po_jm po_u].
  fold (by_column_sums c u_old).
  destruct (um_entries N c u_old m HN Hc Hu) as [Hum Hw].
  set (um := power_array (fmax (by_column_sums c u_old) eps) m) in *.
  pose proof (shaped_transpose test_data nf N Htest Hnf) as [HdT _].
  assert (Hdist :
    shaped (compute_distance metric (transpose test_data) cntr) c N).
  { pose proof (compute_distance_shape metric (transpose test_data) cntr)
      as H.
    unfold nrows in H. destruct Hcntr as [Hrows _].
    now rewrite Hrows, HdT in H. }
  set (dist := compute_distance metric (transpose test_data) cntr) in *.
  destruct (d_entries N c dist Hdist) as [Hd Hclamped].
  destruct (u_entries N c (fmax dist eps) (-2 / (m - 1)) (clamped dist) HN Hc
              Hd Hclamped) as [Hsu Hmem].
  split; [exact Hdist|]. split; [exact Hd|]. split; [exact Hclamped|].
  split; [now apply (jm_entries N c)|]. split; [exact Hsu | exact Hmem].
Qed.

(** Where [d ** (-2 / (m - 1))] overflows to plus infinity, the membership
    is NaN. *)
Lemma overflow_gives_nan (c : nat) (e : float) (dist : array) (i j : nat) :
  total_keeps_infinity np -> (i < c)%nat ->
  power np (clamped dist i j) e = infinity ->
  is_nan (membership c e dist i j) = true.
Proof.
  intros Htotal Hi Hinf. unfold Float64.membership. rewrite Hinf.
  apply infinity_over_infinite; [reflexivity|].
  apply one_times_infinite. apply (Htotal _ i).
  - unfold run. now rewrite length_map, length_seq.
  - unfold run. rewrite nth_run by exact Hi. exact Hinf.
Qed.

End Engine.

End Float64Facts.

(** ** The steps, in exact and in binary64 arithmetic *)

Module RoundedSteps.
Import Floats.
Import Numpy Update Cluster.
Open Scope R_scope.

Section Engine.

Variable compute_distance : string -> matrix -> matrix -> matrix.
Variable random_rand : option Z -> nat -> nat -> matrix.
Variable np64 : Float64.arithmetic.
Variable compute_distance64 :
  string -> Float64.array -> Float64.array -> Float64.array.

Hypothesis compute_distance_shape :
  forall metric x y, has_shape (compute_distance metric x y) (nrows y) (nrows x).
Hypothesis random_rand_shape :
  forall seed c n, has_shape (random_rand seed c n) c n.
Hypothesis inner_of_one_term : Float64.inner_of_one_term np64.
Hypothesis total_keeps_infinity : Float64.total_keeps_infinity np64.
Hypothesis compute_distance64_shape :
  forall metric x y,
    Float64.shaped (compute_distance64 metric x y) (Float64.nrows y)
      (Float64.nrows x).

Local Abbreviation cmeans0 := (cmeans0 compute_distance).
Local Abbreviation cmeans_predict0 := (cmeans_predict0 compute_distance).
Local Abbreviation cmeans0_64 := (Float64.cmeans0 np64 compute_distance64).
Local Abbreviation cmeans_predict0_64 :=
  (Float64.cmeans_predict0 np64 compute_distance64).
Local Abbreviation center64 := (Float64.center np64).
Local Abbreviation objective64 := (Float64.objective np64).
Local Abbreviation membership64 := (Float64.membership np64).
Local Abbreviation power64 := (Float64.power np64).

(** C1, as the code has it.  In exact arithmetic, for a data array of shape
    [(S, N)], a positive [u_old] of shape [(c, N)] and [m > 1], [cmeans0]
    computes the fuzzy c-means update: [u_old] divided by its column sums
    and clamped below by [eps], the centers as the weighted means
    [(u_old ** m).dot(data.T)] over the row sums of [u_old ** m], the
    distances of the data to these centers clamped below by [eps],
    [jm = sum(u_old ** m * d ** 2)], and [u] proportional to
    [d ** (-2 / (m - 1))] with every column summing to 1.  In binary64, for
    arrays of these shapes and [m] other than 1, it returns, entry by entry,
    the same formulas with every operation rounded: [u] is
    [d ** (-2 / (m - 1))] divided by the sums of its columns as numpy adds
    them up. *)
Theorem cmeans0_is_fuzzy_cmeans_update
    (nf N c : nat) (data u_old : matrix) (m : R) (metric : string)
    (data64 u_old64 : Float64.array) (m64 : float) :
  (0 < nf)%nat -> (0 < N)%nat -> (0 < c)%nat -> 1 < m ->
  has_shape data nf N -> has_shape u_old c N -> positive u_old ->
  Float64.shaped data64 nf N -> Float64.shaped u_old64 c N ->
  (m64 - 1 =? 0)%float = false ->
  (let r := cmeans0 data u_old c m metric in
   let dist := compute_distance metric (transpose data) (so_cntr r) in
   (forall j, (j < N)%nat -> 0 < sigma c (fun k => item u_old k j)) /\
   (forall i, (i < c)%nat -> 0 < sigma N (fun j => weight c u_old m i j)) /\
   has_shape (so_cntr r) c nf /\
   (forall i k, (i < c)%nat -> (k < nf)%nat ->
      item (so_cntr r) i k = center c N data u_old m i k) /\
   has_shape (so_d r) c N /\
   (forall i j, (i < c)%nat -> (j < N)%nat ->
      item (so_d r) i j = clamped dist i j) /\
   so_jm r = objective c N u_old m dist /\
   (forall i j, (i < c)%nat -> (j < N)%nat ->
      item (so_u r) i j = membership c m dist i j) /\
   columns_sum_to_1 c N (so_u r)) /\
  (exists r,
     cmeans0_64 data64 u_old64 c m64 metric = Ok r /\
     let dist :=
       compute_distance64 metric (Float64.transpose data64)
         (Float64.so_cntr r) in
     let e := (-2 / (m64 - 1))%float in
     Float64.shaped (Float64.so_cntr r) c nf /\
     (forall i k, (i < c)%nat -> (k < nf)%nat ->
        Float64.item (Float64.so_cntr r) i k
        = center64 c N data64 u_old64 m64 i k) /\
     Float64.shaped (Float64.so_d r) c N /\
     (forall i j, (i < c)%nat -> (j < N)%nat ->
        Float64.item (Float64.so_d r) i j = Float64.clamped dist i j) /\
     Float64.so_jm r = objective64 c N u_old64 m64 dist /\
     Float64.shaped (Float64.so_u r) c N /\
     (forall i j, (i < c)%nat -> (j < N)%nat ->
        Float64.item (Float64.so_u r) i j = membership64 c e dist i j)).
Proof.
  intros Hnf HN Hc Hm Hdata Hu Hpos Hdata64 Hu64 Hm64. split.
  - exact (EngineFacts.update_in_exact_arithmetic compute_distance
             compute_distance_shape nf N c data u_old m metric Hnf HN Hc Hm
             Hdata Hu Hpos).
  - destruct (Float64Facts.cmeans0_entries np64 compute_distance64
                inner_of_one_term compute_distance64_shape nf N c data64
                u_old64 m64 metric
                Hnf HN Hc Hdata64 Hu64 Hm64)
      as [r [Hr [Hcntr [Hcenter [_ [Hd [Hclamped [Hjm [Hsu Hmem]]]]]]]]].
    exists r. split; [exact Hr|]. cbv zeta.
    split; [exact Hcntr|]. split; [exact Hcenter|]. split; [exact Hd|].
    split; [exact Hclamped|]. split; [exact Hjm|].
    split; [exact Hsu | exact Hmem].
Qed.

(** C2, as the code has it.  In exact arithmetic every column of the
    membership matrix that [cmeans0] and [cmeans_predict0] return sums to 1,
    and so does every column of the final membership matrix of [cmeans] and
    [cmeans_predict] for [maxiter >= 2].  In binary64, for arrays of the
    shapes of the docstrings and [m] other than 1, every entry of the
    membership matrix of a step is the power [d ** (-2 / (m - 1))] of its
    distance divided by the sum, as numpy adds it up, of the powers of its
    column; where the power overflows to plus infinity the entry is NaN. *)
Theorem membership_columns_sum_to_1
    (nf N c : nat) (data test_data cntr_trained u_old : matrix)
    (m error : R) (maxiter : Z) (mt : string) (metric : option string)
    (init : option matrix) (seed : option Z)
    (data64 test_data64 cntr64 u_old64 : Float64.array) (m64 : float) :
  (0 < nf)%nat -> (0 < N)%nat -> (0 < c)%nat -> 1 < m ->
  has_shape data nf N -> has_shape test_data nf N ->
  has_shape cntr_trained c nf -> has_shape u_old c N ->
  (forall u, init = Some u -> has_shape u c N) ->
  Float64.shaped data64 nf N -> Float64.shaped test_data64 nf N ->
  Float64.shaped cntr64 c nf -> Float64.shaped u_old64 c N ->
  (m64 - 1 =? 0)%float = false ->
  (columns_sum_to_1 c N (so_u (cmeans0 data u_old c m mt)) /\
   columns_sum_to_1 c N
     (po_u (cmeans_predict0 test_data cntr_trained u_old c m mt)) /\
   ((2 <= maxiter)%Z ->
    (exists r,
       cmeans compute_distance random_rand data c m error maxiter metric init
         seed = Some (Ok r) /\
       columns_sum_to_1 c N (r_u r)) /\
    (exists r,
       cmeans_predict compute_distance random_rand test_data cntr_trained m
         error maxiter metric init seed = Some (Ok r) /\
       columns_sum_to_1 c N (q_u r)))) /\
  (exists r q,
     cmeans0_64 data64 u_old64 c m64 mt = Ok r /\
     cmeans_predict0_64 test_data64 cntr64 u_old64 c m64 mt = Ok q /\
     let e := (-2 / (m64 - 1))%float in
     let dist :=
       compute_distance64 mt (Float64.transpose data64) (Float64.so_cntr r) in
     let pdist :=
       compute_distance64 mt (Float64.transpose test_data64) cntr64 in
     Float64.shaped (Float64.so_u r) c N /\
     Float64.shaped (Float64.po_u q) c N /\
     (forall i j, (i < c)%nat -> (j < N)%nat ->
        Float64.item (Float64.so_u r) i j
        = (power64 (Float64.clamped dist i j) e
           / (1 * Float64.column_total np64
                    (Float64.run c
                       (fun k => power64 (Float64.clamped dist k j) e))))%float
        /\
        (power64 (Float64.clamped dist i j) e = infinity ->
         is_nan (Float64.item (Float64.so_u r) i j) = true)) /\
     (forall i j, (i < c)%nat -> (j < N)%nat ->
        Float64.item (Float64.po_u q) i j
        = (power64 (Float64.clamped pdist i j) e
           / (1 * Float64.column_total np64
                    (Float64.run c
                       (fun k => power64 (Float64.clamped pdist k j) e))))%float
        /\
        (power64 (Float64.clamped pdist i j) e = infinity ->
         is_nan (Float64.item (Float64.po_u q) i j) = true))).
Proof.
  intros Hnf HN Hc Hm Hdata Htest Hcntr Hu Hinit Hdata64 Htest64 Hcntr64 Hu64
    Hm64.
  split.
  - exact (EngineFacts.columns_in_exact_arithmetic compute_distance
             random_rand compute_distance_shape random_rand_shape nf N c data
             test_data cntr_trained u_old m error maxiter mt metric init seed
             Hnf Hc Hm Hdata Htest Hcntr Hu Hinit).
  - destruct (Float64Facts.cmeans0_entries np64 compute_distance64
                inner_of_one_term compute_distance64_shape nf N c data64
                u_old64 m64 mt
                Hnf HN Hc Hdata64 Hu64 Hm64)
      as [r [Hr [_ [_ [_ [_ [_ [_ [Hsu Hmem]]]]]]]]].
    destruct (Float64Facts.cmeans_predict0_entries np64 compute_distance64
                inner_of_one_term compute_distance64_shape nf N c
                test_data64 cntr64 u_old64 m64 mt Hnf HN Hc Htest64 Hcntr64
                Hu64 Hm64)
      as [q [Hq [_ [_ [_ [_ [Hpu Hpmem]]]]]]].
    exists r, q. split; [exact Hr|]. split; [exact Hq|]. cbv zeta.
    split; [exact Hsu|]. split; [exact Hpu|].
    split; intros i j Hi Hj.
    + split; [exact (Hmem i j Hi Hj)|].
      intros Hinf. rewrite (Hmem i j Hi Hj).
      now apply Float64Facts.overflow_gives_nan.
    + split; [exact (Hpmem i j Hi Hj)|].
      intros Hinf. rewrite (Hpmem i j Hi Hj).
      now apply Float64Facts.overflow_gives_nan.
Qed.

End Engine.

End RoundedSteps.

(** ** The steps in binary64 arithmetic on concrete inputs *)

Module RoundedExamples.
Import Floats.
Import Numpy NumpyFacts Update Cluster.
Import RoundedSteps.
Open Scope R_scope.

Ltac run64 :=
  match goal with
  | |- exists r, ?step = Ok r /\ _ =>
      let res := fresh "res" in
      let Hres := fresh "Hres" in
      remember step as res eqn:Hres; vm_compute in Hres; subst res;
      eexists; split; [reflexivity|]
  end.

(** C1, as it is stated, fails.  One feature, the samples 10 and 1, three
    clusters, [m = 3] and a positive membership matrix whose columns sum to
    1: the centers are 2, 9 and 5.5, the distances of the first sample to
    them 8, 1 and 4.5, and the first column of the [u] returned does not sum
    to 1, neither as the floats add up, in any order, nor exactly.  The
    step is run with the sums in index order; on this input the order makes
    no difference: the products and sums behind the centers are exact, and
    the powers [1/8], [1] and [1/4.5] of the first column add up to the same
    float in every order. *)
Lemma cmeans0_column_misses_1 :
  exists r,
    Float64.cmeans0 Float64.in_order Float64.euclidean Float64.data_1x2
      Float64.u_3x2 3 3 "euclidean" = Ok r /\
    Float64.so_cntr r = [[2]; [9]; [5.5]]%float /\
    Float64.so_d r = [[8; 1]; [1; 8]; [4.5; 4.5]]%float /\
    Float64.so_u r
    = [[0x1.7c0a8e83f5717p-4; 0x1.7c0a8e83f5717p-1];
       [0x1.7c0a8e83f5717p-1; 0x1.7c0a8e83f5717p-4];
       [0x1.51d07eae2f814p-3; 0x1.51d07eae2f814p-3]]%float /\
    (0x1p-3 + 1 + 1 / 4.5 = 0x1.58e38e38e38e4p+0
     /\ 0x1p-3 + (1 + 1 / 4.5) = 0x1.58e38e38e38e4p+0
     /\ 0x1p-3 + 1 / 4.5 + 1 = 0x1.58e38e38e38e4p+0)%float /\
    Float64.column_sum (Float64.so_u r) 0 = 0x1.fffffffffffffp-1%float /\
    (0x1.7c0a8e83f5717p-4 + (0x1.7c0a8e83f5717p-1 + 0x1.51d07eae2f814p-3)
     =? 1)%float = false /\
    (0x1.7c0a8e83f5717p-4 + 0x1.51d07eae2f814p-3 + 0x1.7c0a8e83f5717p-1
     =? 1)%float = false /\
    ~ (Float64.exact_column_sum (Float64.so_u r) 0 == 1)%Q.
Proof.
  run64. cbn [Float64.so_cntr Float64.so_d Float64.so_u].
  repeat (split; [reflexivity|]).
  split; [repeat split|].
  repeat (split; [reflexivity|]).
  intros H. vm_compute in H. discriminate H.
Qed.

(** C2, as it is stated, fails.  One sample at 0, the trained centers 1 and
    9 and [m = 3]: the distances are 1 and 9, and the column of the [u] that
    [cmeans_predict0] returns sums to [0.9999999999999999] as the floats add
    up, and to less than 1 exactly.  The column has two entries, so that
    there is one way to add them up. *)
Lemma cmeans_predict0_column_misses_1 :
  exists q,
    Float64.cmeans_predict0 Float64.in_order Float64.euclidean
      Float64.test_1x1 Float64.cntr_2x1 Float64.u_2x1 2 3 "euclidean" = Ok q /\
    Float64.po_d q = [[1]; [9]]%float /\
    Float64.po_u q
    = [[0x1.cccccccccccccp-1]; [0x1.9999999999999p-4]]%float /\
    Float64.column_sum (Float64.po_u q) 0 = 0x1.fffffffffffffp-1%float /\
    (Float64.column_sum (Float64.po_u q) 0 =? 1)%float = false /\
    ~ (Float64.exact_column_sum (Float64.po_u q) 0 == 1)%Q.
Proof.
  run64. cbn [Float64.po_d Float64.po_u].
  repeat (split; [reflexivity|]).
  intros H. vm_compute in H. discriminate H.
Qed.

(** With [m = 1 + 2 ** -10] the exponent is [-2048]; a sample that lies on
    the center of its cluster has the clamped distance [eps], whose power
    overflows, and its membership is NaN. *)
Example overflow_of_the_power :
  exists r q,
    Float64.cmeans0 Float64.in_order Float64.euclidean Float64.test_1x1
      Float64.u_1x1 1 0x1.004p+0 "euclidean" = Ok r /\
    Float64.cmeans_predict0 Float64.in_order Float64.euclidean
      Float64.test_1x1 Float64.test_1x1 Float64.u_1x1 1 0x1.004p+0
      "euclidean" = Ok q /\
    Float64.exponent 0x1.004p+0 = Ok (-2048)%float /\
    Float64.so_d r = [[Float64.eps]] /\
    Float64.exact_power Float64.eps (-2048) = infinity /\
    Float64.so_u r = [[nan]] /\ Float64.po_u q = [[nan]].
Proof.
  eexists. eexists. split; [vm_compute; reflexivity|].
  split; [vm_compute; reflexivity|]. repeat split.
Qed.

(** With [m = 1] both steps raise. *)
Example zero_division_at_m_1 :
  Float64.cmeans0 Float64.in_order Float64.euclidean Float64.data_1x2
    Float64.u_3x2 3 1 "euclidean" = Raise ZeroDivisionError /\
  Float64.cmeans_predict0 Float64.in_order Float64.euclidean
    Float64.test_1x1 Float64.cntr_2x1 Float64.u_2x1 2 1 "euclidean"
  = Raise ZeroDivisionError.
Proof. split; reflexivity. Qed.

Ltac shape := split; [reflexivity | repeat constructor].

Lemma euclidean64_shape (metric : string) (x y : Float64.array) :
  Float64.shaped (Float64.euclidean metric x y) (Float64.nrows y)
    (Float64.nrows x).
Proof.
  unfold Float64.euclidean. split.
  - now rewrite length_map.
  - apply Forall_forall. intros row Hrow. apply in_map_iff in Hrow.
    destruct Hrow as [yi [<- _]]. now rewrite length_map.
Defined.

Lemma cmeans0_is_fuzzy_cmeans_update_witness :
  (has_shape Distance.data_1x2 1 2 /\ has_shape Distance.u_2x2 2 2 /\
   positive Distance.u_2x2 /\ 1 < 2 /\
   Float64.shaped Float64.data_1x2 1 2 /\
   Float64.shaped Float64.u_2x2 2 2 /\ (3 - 1 =? 0)%float = false) /\
  columns_sum_to_1 2 2
    (so_u (cmeans0 Distance.euclidean Distance.data_1x2 Distance.u_2x2 2 2
             "euclidean")) /\
  exists r,
    Float64.cmeans0 Float64.in_order Float64.euclidean Float64.data_1x2
      Float64.u_2x2 2 3 "euclidean" = Ok r /\
    forall i j, (i < 2)%nat -> (j < 2)%nat ->
      Float64.item (Float64.so_u r) i j
      = Float64.membership Float64.in_order 2 (-2 / (3 - 1))%float
          (Float64.euclidean "euclidean"
             (Float64.transpose Float64.data_1x2) (Float64.so_cntr r)) i j.
Proof.
  assert (Hd : has_shape Distance.data_1x2 1 2) by shape.
  assert (Hu : has_shape Distance.u_2x2 2 2) by shape.
  assert (Hp : positive Distance.u_2x2) by (repeat constructor; lra).
  assert (Hm : 1 < 2) by lra.
  assert (Hd64 : Float64.shaped Float64.data_1x2 1 2) by shape.
  assert (Hu64 : Float64.shaped Float64.u_2x2 2 2) by shape.
  assert (Hm64 : (3 - 1 =? 0)%float = false) by reflexivity.
  split; [auto 8|].
  destruct (cmeans0_is_fuzzy_cmeans_update Distance.euclidean
              Float64.in_order Float64.euclidean
              EngineExamples.euclidean_shape Float64Facts.in_order_inner
              euclidean64_shape 1 2 2
              Distance.data_1x2 Distance.u_2x2 2 "euclidean"
              Float64.data_1x2 Float64.u_2x2 3
              ltac:(lia) ltac:(lia) ltac:(lia) Hm Hd Hu Hp Hd64 Hu64 Hm64)
    as [Hexact [r [Hr [_ [_ [_ [_ [_ [_ Hmem]]]]]]]]].
  split.
  - apply Hexact.
  - exists r. split; [exact Hr | exact Hmem].
Defined.

Lemma membership_columns_sum_to_1_witness :
  (has_shape Distance.data_1x2 1 2 /\ has_shape Distance.cntr_2x1 2 1 /\
   has_shape Distance.u_2x2 2 2 /\ 1 < 2 /\
   Float64.shaped Float64.data_1x2 1 2 /\
   Float64.shaped Float64.cntr_2x1 2 1 /\
   Float64.shaped Float64.u_2x2 2 2 /\ (3 - 1 =? 0)%float = false) /\
  (exists r,
     cmeans Distance.euclidean Distance.half_rand Distance.data_1x2 2 2
       (/ 1000) 10 None (Some Distance.u_2x2) None = Some (Ok r) /\
     columns_sum_to_1 2 2 (r_u r)) /\
  exists q,
    Float64.cmeans_predict0 Float64.in_order Float64.euclidean
      Float64.data_1x2 Float64.cntr_2x1 Float64.u_2x2 2 3 "euclidean"
    = Ok q /\
    Float64.shaped (Float64.po_u q) 2 2.
Proof.
  assert (Hd : has_shape Distance.data_1x2 1 2) by shape.
  assert (Hc : has_shape Distance.cntr_2x1 2 1) by shape.
  assert (Hu : has_shape Distance.u_2x2 2 2) by shape.
  assert (Hm : 1 < 2) by lra.
  assert (Hd64 : Float64.shaped Float64.data_1x2 1 2) by shape.
  assert (Hc64 : Float64.shaped Float64.cntr_2x1 2 1) by shape.
  assert (Hu64 : Float64.shaped Float64.u_2x2 2 2) by shape.
  assert (Hm64 : (3 - 1 =? 0)%float = false) by reflexivity.
  assert (Hinit : forall u, Some Distance.u_2x2 = Some u -> has_shape u 2 2)
    by (intros u Heq; injection Heq as <-; exact Hu).
  split; [auto 9|].
  destruct (membership_columns_sum_to_1 Distance.euclidean Distance.half_rand
              Float64.in_order Float64.euclidean
              EngineExamples.euclidean_shape EngineExamples.half_rand_shape
              Float64Facts.in_order_inner Float64Facts.in_order_total
              euclidean64_shape
              1 2 2 Distance.data_1x2 Distance.data_1x2 Distance.cntr_2x1
              Distance.u_2x2 2 (/ 1000) 10 "euclidean" None
              (Some Distance.u_2x2) None Float64.data_1x2 Float64.data_1x2
              Float64.cntr_2x1 Float64.u_2x2 3
              ltac:(lia) ltac:(lia) ltac:(lia) Hm Hd Hd Hc Hu Hinit
              Hd64 Hd64 Hc64 Hu64 Hm64)
    as [[_ [_ Hrun]] [r [q [_ [Hq [_ [Hpu _]]]]]]].
  destruct (Hrun ltac:(lia)) as [Htrain _].
  split; [exact Htrain|]. exists q. split; [exact Hq | exact Hpu].
Defined.

End RoundedExamples.

(** ** The file system *)

Module OsFacts.
Import Os.

Lemma assoc_replace (name : string) (t t0 : node) (es : list (string * node)) :
  assoc name es = Some t0 -> assoc name (replace name t es) = Some t.
Proof.
  induction es as [|[n x] es IH]; simpl; [discriminate|].
  destruct (String.eqb n name) eqn:Hn; simpl.
  - intros _. now rewrite Hn.
  - intros H. rewrite Hn. now apply IH.
Qed.

Lemma assoc_app_new (name : string) (t : node) (es : list (string * node)) :
  assoc name es = None -> assoc name (es ++ [(name, t)]) = Some t.
Proof.
  induction es as [|[n x] es IH]; simpl.
  - intros _. now rewrite String.eqb_refl.
  - destruct (String.eqb n name); [discriminate | exact IH].
Qed.

Lemma remove_absent (name : string) (es : list (string * node)) :
  assoc name es = None -> remove name es = es.
Proof.
  induction es as [|[n x] es IH]; simpl; [reflexivity|].
  destruct (String.eqb n name); [discriminate|].
  intros H. simpl. now rewrite IH.
Qed.

Lemma lookup_fresh_dirs (p : path) : lookup (fresh_dirs p) p = Some (Dir []).
Proof.
  induction p as [|name rest IH]; simpl; [reflexivity|].
  now rewrite String.eqb_refl.
Qed.

Lemma lookup_child (fs : node) (p : path) (name : string)
    (es : list (string * node)) :
  lookup fs p = Some (Dir es) -> lookup fs (p ++ [name]) = assoc name es.
Proof.
  revert fs. induction p as [|n rest IH]; intros fs; simpl.
  - intros H. injection H as ->. now destruct (assoc name es).
  - destruct fs as [|es0]; [discriminate|].
    destruct (assoc n es0) as [child|]; [apply IH | discriminate].
Qed.

Lemma entry_cons (fs : node) (name : string) (rest : path) :
  entry fs (name :: rest) = lookup fs (name :: rest).
Proof. reflexivity. Qed.

Lemma entry_app (fs : node) (p : path) (name : string) :
  entry fs (p ++ [name]) = lookup fs (p ++ [name]).
Proof. destruct p; reflexivity. Qed.

Lemma entry_lookup (fs : node) (p : path) :
  p <> [] -> entry fs p = lookup fs p.
Proof. destruct p; [congruence | reflexivity]. Qed.

Lemma entry_some (fs : node) (p : path) (t : node) :
  entry fs p = Some t -> lookup fs p = Some t /\ p <> [].
Proof. destruct p; [discriminate|]. intros H. split; [exact H | discriminate]. Qed.

Lemma isdir_entry (fs : node) (p : path) :
  isdir fs p = true <-> exists es, entry fs p = Some (Dir es).
Proof.
  unfold isdir. destruct (entry fs p) as [[|es]|]; split;
    try discriminate; try (intros [es' H]; discriminate).
  - intros _. now exists es.
  - reflexivity.
Qed.

Lemma isdir_lookup (fs : node) (p : path) :
  isdir fs p = true ->
  p <> [] /\ exists es, lookup fs p = Some (Dir es).
Proof.
  intros H. apply isdir_entry in H. destruct H as [es H].
  apply entry_some in H. destruct H as [H Hne]. split; [exact Hne|].
  now exists es.
Qed.

Lemma isfile_lookup (fs : node) (p : path) :
  isfile fs p = true <-> p <> [] /\ lookup fs p = Some File.
Proof.
  unfold isfile. destruct p as [|name rest]; simpl.
  - split; [discriminate | intros [H _]; congruence].
  - destruct (lookup fs (name :: rest)) as [[|es]|] eqn:E; simpl in E; rewrite E;
      split; try discriminate; try (intros [_ H]; discriminate).
    + intros _. split; [discriminate | reflexivity].
    + reflexivity.
Qed.

(** [os.makedirs(p, exist_ok=True)] succeeds when no regular file is in the
    way; afterwards [p] is a directory, an empty one if nothing was at [p]. *)
Lemma makedirs_from_creates (pre p : path) (fs : node) :
  no_file_on_the_way fs p ->
  exists fs',
    makedirs_from pre fs p = Ok fs' /\
    (exists es, lookup fs' p = Some (Dir es)) /\
    (lookup fs p = None -> lookup fs' p = Some (Dir [])).
Proof.
  revert pre fs. induction p as [|name rest IH]; intros pre fs Hway.
  - destruct fs as [|es].
    + exfalso. apply (Hway 0%nat). reflexivity.
    + exists (Dir es). simpl. split; [reflexivity|].
      split; [now exists es | discriminate].
  - destruct fs as [|es].
    + exfalso. apply (Hway 0%nat). reflexivity.
    + simpl. destruct (assoc name es) as [child|] eqn:Hassoc.
      * destruct (IH (pre ++ [name])%list child) as [child' [Hmk [Hdir Hempty]]].
        { intros k Hk. apply (Hway (S k)). simpl. now rewrite Hassoc. }
        rewrite Hmk. exists (Dir (replace name child' es)).
        simpl. rewrite (assoc_replace name child' child es Hassoc).
        split; [reflexivity | split; [exact Hdir | exact Hempty]].
      * exists (Dir (es ++ [(name, fresh_dirs rest)])).
        simpl. rewrite (assoc_app_new name _ es Hassoc), lookup_fresh_dirs.
        split; [reflexivity|]. split; [now exists [] | reflexivity].
Qed.

Lemma makedirs_creates (p : path) (fs : node) :
  p <> [] -> no_file_on_the_way fs p ->
  exists fs',
    makedirs fs p = Ok fs' /\
    isdir fs' p = true /\
    (lookup fs p = None -> listdir fs' p = Ok []).
Proof.
  intros Hne Hway.
  destruct (makedirs_from_creates [] p fs Hway) as [fs' [Hmk [[es Hdir] Hempty]]].
  exists fs'. unfold makedirs, isdir, listdir.
  rewrite (entry_lookup fs' p Hne).
  destruct p as [|name rest]; [congruence|].
  split; [exact Hmk|]. rewrite Hdir. split; [reflexivity|].
  intros Hnone. rewrite (Hempty Hnone) in Hdir. injection Hdir as <-.
  reflexivity.
Qed.

Lemma lookup_delete_child (fs : node) (p : path) (name : string)
    (es : list (string * node)) :
  lookup fs p = Some (Dir es) ->
  lookup (delete fs (p ++ [name])) p = Some (Dir (remove name es)).
Proof.
  revert fs. induction p as [|n rest IH]; intros fs; simpl.
  - intros H. injection H as ->. reflexivity.
  - destruct fs as [|es0]; [discriminate|].
    destruct (assoc n es0) as [child|] eqn:Hassoc; [|discriminate].
    intros Hchild.
    assert (Hne : exists x l, (rest ++ [name])%list = x :: l)
      by (destruct rest; simpl; eauto).
    destruct Hne as [x [l Hne]]. rewrite Hne, <- Hne. simpl.
    rewrite (assoc_replace n _ child es0 Hassoc). now apply IH.
Qed.

(** Removing, one after the other, every name that occurs in a directory
    leaves it empty. *)
Lemma remove_all_names (names : list string) (es : list (string * node)) :
  (forall e, In e es -> In (fst e) names) ->
  fold_left (fun es name => remove name es) names es = [].
Proof.
  revert es. induction names as [|name names IH]; intros es Hin; simpl.
  - destruct es as [|e es]; [reflexivity|]. destruct (Hin e). now left.
  - apply IH. intros e He. unfold remove in He.
    apply filter_In in He. destruct He as [He Hneq].
    destruct (Hin e He) as [Heq|Hrest]; [|exact Hrest].
    rewrite Heq, String.eqb_refl in Hneq. discriminate.
Qed.

End OsFacts.

(** ** CCPM/io/utils.py *)

Module IoUtilsFacts.
Import Os OsFacts IoUtils.
Open Scope string_scope.
Open Scope py_scope.

Section Loading.

Variable DataFrame : Type.
Variable splitext : string -> string * string.
Variable read_csv : string -> option (option string) -> result DataFrame.
Variable read_excel : string -> result DataFrame.
Variable open_read : string -> result string.
Variable detect : string -> list string -> result (option string).

Local Abbreviation load_df_in_any_format :=
  (load_df_in_any_format DataFrame splitext read_csv read_excel open_read
     detect).

Lemma bind_ok (A : Type) (r : result A) : (x <- r ;; Ok x) = r.
Proof. now destruct r. Qed.

(** C5, as the code has it.  [load_df_in_any_format] hands back what the
    reader of the extension hands back, a DataFrame when the reader returns
    one and the reader's exception when it raises: [pd.read_csv(file)] for
    [.csv], [pd.read_excel(file)] for [.xlsx], and for [.txt]
    [pd.read_csv(file, sep=delimiter)] with the delimiter that [detect]
    finds in the text of the file among tab, [:], [;], space and [,], after
    [open], [read] and [detect] have returned. *)
Theorem load_df_reads_by_extension (file : string) :
  let ext := snd (splitext file) in
  (ext = ".csv" -> load_df_in_any_format file = read_csv file None) /\
  (ext = ".xlsx" -> load_df_in_any_format file = read_excel file) /\
  (ext = ".txt" ->
   load_df_in_any_format file
     = (text <- open_read file ;;
        delimiter <- detect text
                       [String (ascii_of_nat 9) ""; ":"; ";"; " "; ","] ;;
        read_csv file (Some delimiter))) /\
  (forall df,
     load_df_in_any_format file = Ok df <->
     (ext = ".csv" /\ read_csv file None = Ok df) \/
     (ext = ".xlsx" /\ read_excel file = Ok df) \/
     (ext = ".txt" /\
      exists text delimiter,
        open_read file = Ok text /\
        detect text whitelist = Ok delimiter /\
        read_csv file (Some delimiter) = Ok df)) /\
  (forall e,
     (ext = ".csv" /\ read_csv file None = Raise e) \/
     (ext = ".xlsx" /\ read_excel file = Raise e) \/
     (ext = ".txt" /\
      (open_read file = Raise e \/
       exists text,
         open_read file = Ok text /\
         (detect text whitelist = Raise e \/
          exists delimiter,
            detect text whitelist = Ok delimiter /\
            read_csv file (Some delimiter) = Raise e))) ->
     load_df_in_any_format file = Raise e).
Proof.
  intros ext.
  assert (Hcsv : ext = ".csv" ->
                 load_df_in_any_format file = read_csv file None).
  { intros Hext. unfold IoUtils.load_df_in_any_format. fold ext.
    rewrite Hext. simpl. now destruct (read_csv file None). }
  assert (Hxlsx : ext = ".xlsx" ->
                  load_df_in_any_format file = read_excel file).
  { intros Hext. unfold IoUtils.load_df_in_any_format. fold ext.
    rewrite Hext. simpl. now destruct (read_excel file). }
  assert (Htxt : ext = ".txt" ->
                 load_df_in_any_format file
                 = (text <- open_read file ;;
                    delimiter <- detect text whitelist ;;
                    read_csv file (Some delimiter))).
  { intros Hext. unfold IoUtils.load_df_in_any_format. fold ext.
    rewrite Hext. simpl. destruct (open_read file) as [text|e]; simpl;
      [|reflexivity].
    destruct (detect text whitelist) as [delimiter|e]; simpl; [|reflexivity].
    now destruct (read_csv file (Some delimiter)). }
  conjs; try assumption.
  - intros df. split.
    + intros Hload.
      destruct (String.eqb_spec ext ".csv") as [Hc|Hc];
        [left; split; [exact Hc | now rewrite <- (Hcsv Hc)]|].
      destruct (String.eqb_spec ext ".xlsx") as [Hx|Hx];
        [right; left; split; [exact Hx | now rewrite <- (Hxlsx Hx)]|].
      destruct (String.eqb_spec ext ".txt") as [Ht|Ht].
      * right; right. split; [exact Ht|]. rewrite (Htxt Ht) in Hload.
        destruct (open_read file) as [text|e]; simpl in Hload;
          [|discriminate].
        destruct (detect text whitelist) as [delimiter|e] eqn:Hd;
          simpl in Hload; [|discriminate].
        exists text, delimiter. auto.
      * exfalso. unfold IoUtils.load_df_in_any_format in Hload.
        fold ext in Hload.
        apply String.eqb_neq in Hc, Hx, Ht.
        rewrite Hc, Hx, Ht in Hload. discriminate.
    + intros [[Hext Hr] | [[Hext Hr] | [Hext [text [delimiter [Ho [Hd Hr]]]]]]].
      * now rewrite (Hcsv Hext).
      * now rewrite (Hxlsx Hext).
      * rewrite (Htxt Hext), Ho. simpl. rewrite Hd. exact Hr.
  - intros e [[Hext Hr] | [[Hext Hr] | [Hext H]]].
    + now rewrite (Hcsv Hext).
    + now rewrite (Hxlsx Hext).
    + rewrite (Htxt Hext).
      destruct H as [Ho | [text [Ho [Hd | [delimiter [Hd Hr]]]]]];
        rewrite Ho; simpl; [reflexivity | |]; rewrite Hd; simpl;
        [reflexivity | exact Hr].
Qed.

(** C9.  For a file whose extension is none of [.csv], [.xlsx], [.txt],
    spelled exactly so, no branch assigns [df] and [return df] raises
    [UnboundLocalError]: no DataFrame is returned and no reader is asked. *)
Theorem load_df_unbound_for_other_extensions (file : string) :
  let ext := snd (splitext file) in
  ext <> ".csv" -> ext <> ".xlsx" -> ext <> ".txt" ->
  load_df_in_any_format file = Raise (UnboundLocalError "df").
Proof.
  intros ext Hcsv Hxlsx Htxt. unfold IoUtils.load_df_in_any_format. fold ext.
  apply String.eqb_neq in Hcsv, Hxlsx, Htxt.
  now rewrite Hcsv, Hxlsx, Htxt.
Qed.

End Loading.

(** *** The output directories *)

Lemma clear_entry_lookup (fs : node) (p : path) (name : string)
    (es : list (string * node)) :
  lookup fs p = Some (Dir es) ->
  lookup (clear_entry p fs name) p = Some (Dir (remove name es)).
Proof.
  intros Hdir. unfold clear_entry, isfile, isdir, unlink, rmtree.
  rewrite entry_app, (lookup_child fs p name es Hdir).
  destruct (assoc name es) as [[|es1]|] eqn:Hname.
  - now apply lookup_delete_child.
  - now apply lookup_delete_child.
  - now rewrite remove_absent.
Qed.

Lemma clear_all_lookup (names : list string) (fs : node) (p : path)
    (es : list (string * node)) :
  lookup fs p = Some (Dir es) ->
  lookup (fold_left (clear_entry p) names fs) p
    = Some (Dir (fold_left (fun es name => remove name es) names es)).
Proof.
  revert fs es. induction names as [|name names IH]; intros fs es Hdir; simpl.
  - exact Hdir.
  - apply IH. now apply clear_entry_lookup.
Qed.

(** A regular file at the path makes [os.makedirs] raise
    [FileExistsError] on that path. *)
Lemma makedirs_from_file_at (pre p : path) (fs : node) :
  lookup fs p = Some File ->
  makedirs_from pre fs p = Raise (FileExistsError (pre ++ p)%list).
Proof.
  revert pre fs. induction p as [|name rest IH]; intros pre fs Hfile.
  - simpl in Hfile. injection Hfile as ->. simpl. now rewrite app_nil_r.
  - destruct fs as [|es]; [discriminate|]. simpl in *.
    destruct (assoc name es) as [child|]; [|discriminate].
    rewrite (IH (pre ++ [name])%list child Hfile), <- app_assoc. reflexivity.
Qed.

(** A regular file on the way makes it raise [NotADirectoryError] on the
    path one component below that file. *)
Lemma makedirs_from_file_on_the_way (pre p : path) (fs : node) (k : nat) :
  (k < length p)%nat -> lookup fs (firstn k p) = Some File ->
  makedirs_from pre fs p
    = Raise (NotADirectoryError (pre ++ firstn (S k) p)%list).
Proof.
  revert pre fs k. induction p as [|name rest IH]; intros pre fs k Hk Hfile.
  - simpl in Hk. lia.
  - destruct k as [|k].
    + simpl in Hfile. injection Hfile as ->. reflexivity.
    + destruct fs as [|es]; [discriminate|].
      simpl in Hfile. cbn [makedirs_from].
      destruct (assoc name es) as [child|]; [|discriminate].
      rewrite (IH (pre ++ [name])%list child k); [|simpl in Hk; lia | exact Hfile].
      rewrite <- app_assoc. reflexivity.
Qed.

Lemma not_dir_below_a_file (fs : node) (p : path) (k : nat) :
  (k < length p)%nat -> lookup fs (firstn k p) = Some File ->
  lookup fs p = None.
Proof.
  revert fs k. induction p as [|name rest IH]; intros fs k Hk Hfile.
  - simpl in Hk. lia.
  - destruct k as [|k].
    + simpl in Hfile. injection Hfile as ->. reflexivity.
    + destruct fs as [|es]; [reflexivity|]. simpl in *.
      destruct (assoc name es) as [child|]; [|reflexivity].
      apply (IH child k); [lia | exact Hfile].
Qed.

(** C6, as the code has it.  For the path [p] given to [check]:
    the empty string is no directory, so the program exits with the message
    when [create_dir] is false, and [os.makedirs('')] raises
    [FileNotFoundError] when it is true;
    if [p] is not a directory, the program exits with the message when
    [create_dir] is false; when [create_dir] is true and [p] is not the
    empty string, the directory is created, empty, provided no regular file
    lies at [p] or on the way to it; a regular file at [p] makes
    [os.makedirs] raise [FileExistsError] on [p], and a regular file on the
    way makes it raise [NotADirectoryError] on the path one component below
    that file;
    if [p] is a non-empty directory, the program exits with the message when
    [overwrite] is false, and when [overwrite] is true every entry of [p] is
    deleted and [p] stays, empty;
    an empty directory passes and the file system is unchanged.
    [assert_output_dir_exist] runs [check] on every required path, then on
    every optional path that is not falsy, in order, and stops at the first
    that raises. *)
Theorem check_validates_output_dir
    (overwrite create_dir : bool) (fs : node) (p : path) :
  (p = [] ->
   isdir fs p = false /\
   check overwrite create_dir fs p
   = if create_dir then Raise (FileNotFoundError [])
     else Raise (SystemExit (msg_missing []))) /\
  (isdir fs p = false -> create_dir = false ->
   check overwrite create_dir fs p = Raise (SystemExit (msg_missing p))) /\
  (p <> [] -> isdir fs p = false -> create_dir = true ->
   no_file_on_the_way fs p ->
   exists fs',
     makedirs fs p = Ok fs' /\
     check overwrite create_dir fs p = Ok fs' /\
     isdir fs' p = true /\ listdir fs' p = Ok []) /\
  (isfile fs p = true -> create_dir = true ->
   isdir fs p = false /\
   check overwrite create_dir fs p = Raise (FileExistsError p)) /\
  (forall k,
     (k < length p)%nat -> lookup fs (firstn k p) = Some File ->
     create_dir = true ->
     isdir fs p = false /\
     check overwrite create_dir fs p
     = Raise (NotADirectoryError (firstn (S k) p))) /\
  (p <> [] -> isdir fs p = false -> ~ no_file_on_the_way fs p ->
   isfile fs p = true \/
   exists k, (k < length p)%nat /\ lookup fs (firstn k p) = Some File) /\
  (forall name names,
     isdir fs p = true -> listdir fs p = Ok (name :: names) ->
     overwrite = false ->
     check overwrite create_dir fs p = Raise (SystemExit (msg_not_empty p))) /\
  (forall name names,
     isdir fs p = true -> listdir fs p = Ok (name :: names) ->
     overwrite = true ->
     exists fs',
       check overwrite create_dir fs p = Ok fs' /\
       isdir fs' p = true /\ listdir fs' p = Ok [] /\
       forall entry, lookup fs' (p ++ [entry])%list = None) /\
  (isdir fs p = true -> listdir fs p = Ok [] ->
   check overwrite create_dir fs p = Ok fs) /\
  assert_output_dir_exist overwrite (OnePath p) None create_dir fs
    = check overwrite create_dir fs p /\
  (forall ps optional,
     assert_output_dir_exist overwrite (PathList (p :: ps)) optional
       create_dir fs
     = (fs' <- check overwrite create_dir fs p ;;
        assert_output_dir_exist overwrite (PathList ps) optional create_dir
          fs')) /\
  (forall ps,
     assert_output_dir_exist overwrite (PathList [])
       (Some (PathList (Some p :: ps))) create_dir fs
     = (fs' <- check overwrite create_dir fs p ;;
        assert_output_dir_exist overwrite (PathList [])
          (Some (PathList ps)) create_dir fs')) /\
  (forall ps,
     assert_output_dir_exist overwrite (PathList [])
       (Some (PathList (None :: ps))) create_dir fs
     = assert_output_dir_exist overwrite (PathList []) (Some (PathList ps))
         create_dir fs).
Proof.
  conjs.
  - intros ->. split; [reflexivity|]. unfold check. simpl.
    destruct create_dir; reflexivity.
  - intros Hdir ->. unfold check. now rewrite Hdir.
  - intros Hne Hdir -> Hway.
    assert (Hnone : lookup fs p = None).
    { unfold isdir in Hdir. rewrite (entry_lookup fs p Hne) in Hdir.
      destruct (lookup fs p) as [[|es]|] eqn:Hl.
      - exfalso. apply (Hway (length p)). now rewrite firstn_all.
      - discriminate.
      - reflexivity. }
    destruct (makedirs_creates p fs Hne Hway) as [fs' [Hmk [Hdir' Hempty]]].
    exists fs'. unfold check. rewrite Hdir, Hmk. simpl.
    rewrite (Hempty Hnone). simpl. auto.
  - intros Hfile ->. apply isfile_lookup in Hfile. destruct Hfile as [Hne Hfile].
    assert (Hdir : isdir fs p = false).
    { unfold isdir. rewrite (entry_lookup fs p Hne), Hfile. reflexivity. }
    split; [exact Hdir|].
    unfold check, makedirs. rewrite Hdir. simpl.
    destruct p as [|name rest]; [congruence|].
    now rewrite (makedirs_from_file_at [] (name :: rest) fs Hfile).
  - intros k Hk Hfile ->.
    assert (Hdir : isdir fs p = false).
    { unfold isdir. destruct p as [|name rest]; [reflexivity|].
      rewrite entry_cons, (not_dir_below_a_file fs (name :: rest) k Hk Hfile).
      reflexivity. }
    split; [exact Hdir|].
    unfold check, makedirs. rewrite Hdir. simpl.
    destruct p as [|name rest]; [simpl in Hk; lia|].
    now rewrite (makedirs_from_file_on_the_way [] (name :: rest) fs k Hk Hfile).
  - intros Hne Hdir Hway.
    assert (Hblocked : exists k, lookup fs (firstn k p) = Some File).
    { clear Hdir Hne. revert fs Hway.
      induction p as [|name rest IH]; intros fs Hway.
      - destruct fs as [|es]; [now exists 0%nat|].
        exfalso. apply Hway. intros k. rewrite firstn_nil. discriminate.
      - destruct fs as [|es]; [now exists 0%nat|].
        destruct (assoc name es) as [child|] eqn:Hassoc.
        + destruct (IH child) as [k Hk].
          { intros Hchild. apply Hway. intros [|k]; [discriminate|].
            simpl. rewrite Hassoc. apply Hchild. }
          exists (S k). simpl. now rewrite Hassoc.
        + exfalso. apply Hway. intros [|k]; [discriminate|].
          simpl. rewrite Hassoc. discriminate. }
    destruct Hblocked as [k Hk].
    destruct (Nat.lt_ge_cases k (length p)) as [Hlt | Hge].
    + right. now exists k.
    + left. rewrite firstn_all2 in Hk by exact Hge.
      apply isfile_lookup. now split.
  - intros name names Hdir Hlist ->. unfold check. rewrite Hdir. simpl.
    now rewrite Hlist.
  - intros name names Hdir Hlist ->.
    exists (fold_left (clear_entry p) (name :: names) fs).
    split; [unfold check; rewrite Hdir; simpl; now rewrite Hlist|].
    destruct (isdir_lookup fs p Hdir) as [Hne [es Hl]].
    unfold listdir in Hlist. rewrite (entry_lookup fs p Hne), Hl in Hlist.
    injection Hlist as Hlist.
    pose proof (clear_all_lookup (name :: names) fs p es Hl) as Hclear.
    rewrite (remove_all_names (name :: names) es) in Hclear.
    + unfold listdir, isdir. rewrite (entry_lookup _ p Hne), Hclear.
      conjs; try reflexivity.
      intros entry. now rewrite (lookup_child _ p entry [] Hclear).
    + intros e He. rewrite <- Hlist. now apply in_map.
  - intros Hdir Hlist. unfold check. rewrite Hdir. simpl. now rewrite Hlist.
  - unfold assert_output_dir_exist. simpl.
    destruct (check overwrite create_dir fs p); reflexivity.
  - intros ps optional. unfold assert_output_dir_exist. simpl.
    destruct (check overwrite create_dir fs p); reflexivity.
  - intros ps. reflexivity.
  - intros ps. reflexivity.
Qed.

End IoUtilsFacts.

(** ** Loading and validation on concrete inputs *)

Module IoExamples.
Import Os OsFacts IoUtils IoUtilsFacts IoFixtures.
Open Scope string_scope.

Example splitext_csv : splitext "data/scores.csv" = ("data/scores", ".csv").
Proof. reflexivity. Qed.

Example splitext_upper : splitext "scores.CSV" = ("scores", ".CSV").
Proof. reflexivity. Qed.

Example splitext_none : splitext "out.d/scores" = ("out.d/scores", "").
Proof. reflexivity. Qed.

Example splitext_hidden : splitext ".config" = (".config", "").
Proof. reflexivity. Qed.

Lemma load_df_reads_by_extension_witness :
  load "scores.txt" = Ok [["read_csv"; "scores.txt"; "sep=;"]] /\
  load "scores.csv" = Ok [["read_csv"; "scores.csv"]] /\
  load "scores.xlsx" = Ok [["read_excel"; "scores.xlsx"]].
Proof.
  pose proof (load_df_reads_by_extension table splitext read_csv read_excel
                open_read detect "scores.txt") as [_ [_ [Htxt _]]].
  pose proof (load_df_reads_by_extension table splitext read_csv read_excel
                open_read detect "scores.csv") as [Hcsv _].
  pose proof (load_df_reads_by_extension table splitext read_csv read_excel
                open_read detect "scores.xlsx") as [_ [Hxlsx _]].
  split; [|split].
  - unfold load. rewrite Htxt; reflexivity.
  - unfold load. rewrite Hcsv; reflexivity.
  - unfold load. rewrite Hxlsx; reflexivity.
Defined.

Lemma load_df_unbound_for_other_extensions_witness :
  snd (splitext "scores.CSV") = ".CSV" /\
  load "scores.CSV" = Raise (UnboundLocalError "df").
Proof.
  split; [reflexivity|].
  apply (load_df_unbound_for_other_extensions table splitext read_csv
           read_excel open_read detect "scores.CSV"); discriminate.
Defined.

(** C5, as it is stated, fails.  The file [empty.csv] exists and its
    extension is [.csv], yet no DataFrame is returned: [pd.read_csv] raises
    [EmptyDataError] on a file without text and the exception leaves
    [load_df_in_any_format]. *)
Lemma empty_csv_gives_no_dataframe :
  open_stored "empty.csv" = Ok "" /\
  snd (splitext "empty.csv") = ".csv" /\
  load_stored "empty.csv" = Raise (LibraryError "EmptyDataError") /\
  forall df, load_stored "empty.csv" <> Ok df.
Proof. conjs; try reflexivity. intros df. discriminate. Qed.

Example load_without_extension :
  load "scores" = Raise (UnboundLocalError "df").
Proof. reflexivity. Qed.

Example load_tsv : load "scores.tsv" = Raise (UnboundLocalError "df").
Proof. reflexivity. Qed.

Lemma check_validates_output_dir_witness :
  exists fs',
    check true true fs_results ["results"] = Ok fs' /\
    isdir fs' ["results"] = true /\ listdir fs' ["results"] = Ok [].
Proof.
  pose proof (check_validates_output_dir true true fs_results ["results"])
    as [_ [_ [_ [_ [_ [_ [_ [Hclear _]]]]]]]].
  destruct (Hclear "fig.png" ["old"] eq_refl eq_refl eq_refl)
    as [fs' [Hcheck [Hdir [Hlist _]]]].
  exists fs'. auto.
Defined.

Example check_creates_missing :
  check false true fs_results ["results"; "run1"]
  = Ok (Dir [("results", Dir [("fig.png", File);
                              ("old", Dir [("a.csv", File)]);
                              ("run1", Dir [])]);
             ("out", File)]).
Proof. reflexivity. Qed.

Example check_refuses_non_empty :
  check false true fs_results ["results"]
  = Raise (SystemExit
      "Output directory results is not empty. Use -f to overwrite theexisting content.").
Proof. reflexivity. Qed.

Example check_clears :
  check true true fs_results ["results"]
  = Ok (Dir [("results", Dir []); ("out", File)]).
Proof. reflexivity. Qed.

Example check_of_the_empty_string :
  check true true fs_results [] = Raise (FileNotFoundError []) /\
  check true false fs_results []
  = Raise (SystemExit
      "Output directory  does not exist. Use create_dir = True.").
Proof. split; reflexivity. Qed.

Example check_below_a_regular_file :
  check false true fs_results ["out"; "sub"; "deeper"]
  = Raise (NotADirectoryError ["out"; "sub"]).
Proof. reflexivity. Qed.

(** C6, as it is stated, fails.  At the path [out], a regular file, no
    directory exists and [create_dir] is true; no directory is created and
    the program does not leave with its message: [os.makedirs] raises
    [FileExistsError]. *)
Lemma output_path_is_a_regular_file :
  isdir fs_results ["out"] = false /\
  assert_output_dir_exist false (OnePath ["out"]) None true fs_results
    = Raise (FileExistsError ["out"]).
Proof. split; reflexivity. Qed.

End IoExamples.

(** ** CCPM/io/viz.py *)

Module IoVizFacts.
Import IoViz.
Open Scope Z_scope.

Lemma ceil_div_spec (n r : Z) :
  0 < r -> (ceil_div n r - 1) * r < n <= ceil_div n r * r.
Proof.
  intros Hr. unfold ceil_div.
  pose proof (Z.div_mod n r ltac:(lia)) as Hdiv.
  pose proof (Z.mod_pos_bound n r Hr) as Hmod.
  destruct (Z.eqb_spec (n mod r) 0) as [Hz|Hnz]; nia.
Qed.

Lemma axis_of_grid (num_axes cells : Z) (i : nat) :
  (i < Z.to_nat cells)%nat ->
  nth i (map (fun i => if Z.of_nat i <? num_axes then BarPlot i else AxisOff)
             (seq 0 (Z.to_nat cells))) AxisOff
  = if Z.of_nat i <? num_axes then BarPlot i else AxisOff.
Proof.
  intros Hi.
  exact (NumpyFacts.nth_map_seq axis_use
           (fun i => if Z.of_nat i <? num_axes then BarPlot i else AxisOff)
           (Z.to_nat cells) i AxisOff Hi).
Qed.

(** The layout is large enough: for [num_axes >= 1], [determine_layout]
    returns [num_rows = floor(sqrt(num_axes))], which is at least 1, and
    [num_cols = ceil(num_axes / num_rows)], with
    [num_rows * num_cols >= num_axes]; and from [num_axes = 2] on the loop
    over the [num_rows * num_cols] axes draws bar plot [i] on axis [i] for
    every [i < num_axes] and turns every later axis off. *)
Lemma determine_layout_is_large_enough (num_axes : Z) :
  1 <= num_axes ->
  let '(num_rows, num_cols) := determine_layout num_axes in
  (1 <= num_rows /\
   num_rows * num_rows <= num_axes < (num_rows + 1) * (num_rows + 1)) /\
  (num_cols - 1) * num_rows < num_axes <= num_cols * num_rows /\
  num_rows * num_cols >= num_axes /\
  (2 <= num_axes ->
   exists axes,
     flexible_barplot_axes num_axes = Ok axes /\
     length axes = Z.to_nat (num_rows * num_cols) /\
     (forall i, Z.of_nat i < num_axes -> nth i axes AxisOff = BarPlot i) /\
     (forall i, num_axes <= Z.of_nat i < num_rows * num_cols ->
        nth i axes AxisOff = AxisOff)).
Proof.
  intros Hn. unfold flexible_barplot_axes, determine_layout.
  set (num_rows := Z.sqrt num_axes).
  set (num_cols := ceil_div num_axes num_rows).
  pose proof (Z.sqrt_spec num_axes ltac:(lia)) as Hsqrt.
  fold num_rows in Hsqrt. cbv zeta in Hsqrt.
  assert (Hrows : 1 <= num_rows) by (unfold num_rows in *; nia).
  pose proof (ceil_div_spec num_axes num_rows ltac:(lia)) as Hcols.
  fold num_cols in Hcols.
  assert (Hgrid : num_rows * num_cols >= num_axes) by nia.
  conjs; try lia.
  intros Hmany. unfold subplots.
  destruct ((num_rows =? 1) && (num_cols =? 1)) eqn:Hone.
  - apply andb_true_iff in Hone. destruct Hone as [Hr Hc].
    apply Z.eqb_eq in Hr, Hc. nia.
  - simpl. eexists. split; [reflexivity|]. conjs.
    + now rewrite length_map, length_seq.
    + intros i Hi. rewrite axis_of_grid by lia.
      destruct (Z.ltb_spec (Z.of_nat i) num_axes); [reflexivity | lia].
    + intros i Hi. rewrite axis_of_grid by lia.
      destruct (Z.ltb_spec (Z.of_nat i) num_axes); [lia | reflexivity].
Qed.

Example layout_of_7 :
  determine_layout 7 = (2, 4) /\
  flexible_barplot_axes 7
  = Ok [BarPlot 0; BarPlot 1; BarPlot 2; BarPlot 3; BarPlot 4; BarPlot 5;
        BarPlot 6; AxisOff].
Proof. split; reflexivity. Qed.

(** C10 at [num_axes = 1].  The layout is one row and one column, which is
    large enough; [plt.subplots] then hands back the Axes object itself, not
    an array, and [axes.flat] raises [AttributeError]: the one bar plot is
    not drawn. *)
Theorem flexible_barplot_of_one_axis_raises :
  determine_layout 1 = (1, 1) /\
  1 * 1 >= 1 /\
  subplots 1 1 = SingleAxes /\
  flexible_barplot_axes 1 = Raise (AttributeError "flat").
Proof. conjs; try reflexivity. lia. Qed.

End IoVizFacts.

(** ** More on the engine *)

Module EngineMore.
Import Numpy NumpyFacts Update Cluster Pieces Passes StepFacts
  LoopFacts EngineFacts.
Open Scope R_scope.

(** *** Finite sums *)

Lemma sigma_ext (n : nat) (f g : nat -> R) :
  (forall i, (i < n)%nat -> f i = g i) -> sigma n f = sigma n g.
Proof. apply Rsum_seq_ext. Qed.

Lemma Rsum_plus (A : Type) (f g : A -> R) (l : list A) :
  Rsum (map (fun x => f x + g x) l) = Rsum (map f l) + Rsum (map g l).
Proof. induction l as [|x l IH]; simpl; [lra | rewrite IH; lra]. Qed.

Lemma Rsum_scal (A : Type) (a : R) (f : A -> R) (l : list A) :
  Rsum (map (fun x => a * f x) l) = a * Rsum (map f l).
Proof. induction l as [|x l IH]; simpl; [lra | rewrite IH; lra]. Qed.

Lemma Rsum_const (A : Type) (a : R) (l : list A) :
  Rsum (map (fun _ => a) l) = INR (length l) * a.
Proof.
  induction l as [|x l IH]; [simpl; lra|].
  cbn [map Rsum fold_right length]. fold (Rsum (map (fun _ : A => a) l)).
  rewrite IH, S_INR. lra.
Qed.

Lemma Rsum_le (A : Type) (f g : A -> R) (l : list A) :
  (forall x, In x l -> f x <= g x) -> Rsum (map f l) <= Rsum (map g l).
Proof.
  induction l as [|x l IH]; intros H; simpl; [lra|].
  assert (f x <= g x) by (apply H; now left).
  assert (Rsum (map f l) <= Rsum (map g l))
    by (apply IH; intros y Hy; apply H; now right).
  lra.
Qed.

Lemma sigma_le (n : nat) (f g : nat -> R) :
  (forall i, (i < n)%nat -> f i <= g i) -> sigma n f <= sigma n g.
Proof.
  intros H. apply Rsum_le. intros i Hi. apply in_seq in Hi. apply H. lia.
Qed.

Lemma sigma_const (n : nat) (a : R) : sigma n (fun _ => a) = INR n * a.
Proof. unfold sigma. now rewrite Rsum_const, length_seq. Qed.

Lemma sigma_swap (r c : nat) (f : nat -> nat -> R) :
  sigma r (fun i => sigma c (fun j => f i j))
  = sigma c (fun j => sigma r (fun i => f i j)).
Proof.
  unfold sigma. induction (seq 0 r) as [|i l IH]; simpl.
  - induction (seq 0 c) as [|j l' IH']; simpl; [reflexivity | lra].
  - rewrite IH. now rewrite <- Rsum_plus.
Qed.

(** One term of a sum of non-negative terms is at most the sum. *)
Lemma term_le_Rsum (f : nat -> R) (l : list nat) (i : nat) :
  In i l -> (forall k, In k l -> 0 <= f k) -> f i <= Rsum (map f l).
Proof.
  induction l as [|k l IH]; intros Hin Hall; [destruct Hin|].
  simpl.
  assert (0 <= Rsum (map f l)).
  { apply Rsum_nonneg. apply Forall_forall. intros x Hx.
    apply in_map_iff in Hx. destruct Hx as [y [<- Hy]]. apply Hall. now right. }
  destruct Hin as [->|Hin].
  - lra.
  - assert (0 <= f k) by (apply Hall; now left).
    assert (f i <= Rsum (map f l))
      by (apply IH; [exact Hin | intros y Hy; apply Hall; now right]).
    lra.
Qed.

Lemma term_le_sigma (n : nat) (f : nat -> R) (i : nat) :
  (i < n)%nat -> (forall k, (k < n)%nat -> 0 <= f k) -> f i <= sigma n f.
Proof.
  intros Hi Hpos. apply term_le_Rsum.
  - apply in_seq. lia.
  - intros k Hk. apply in_seq in Hk. apply Hpos. lia.
Qed.

(** For non-negative numbers that sum to 1, the sum of the squares lies
    between [1 / n] and 1. *)
Lemma squares_of_a_partition (n : nat) (x : nat -> R) :
  (0 < n)%nat -> (forall i, (i < n)%nat -> 0 <= x i) -> sigma n x = 1 ->
  / INR n <= sigma n (fun i => x i * x i) <= 1.
Proof.
  intros Hn Hpos Hsum.
  assert (HN : 0 < INR n) by (apply lt_0_INR; exact Hn).
  split.
  - assert (Hsq : 0 <= sigma n (fun i => (x i - / INR n) * (x i - / INR n))).
    { unfold sigma. apply Rsum_nonneg, Forall_forall. intros y Hy.
      apply in_map_iff in Hy. destruct Hy as [i [<- _]].
      exact (Rle_0_sqr (x i - / INR n)). }
    rewrite (sigma_ext n _
               (fun i => x i * x i + ((- 2 * / INR n) * x i + / INR n * / INR n)))
      in Hsq by (intros; ring).
    unfold sigma in *. rewrite Rsum_plus, Rsum_plus, Rsum_scal in Hsq.
    rewrite Hsum, Rsum_const, length_seq in Hsq.
    assert (INR n * (/ INR n * / INR n) = / INR n) by (field; lra).
    lra.
  - rewrite <- Hsum. apply sigma_le. intros i Hi.
    assert (x i <= 1).
    { rewrite <- Hsum. now apply term_le_sigma. }
    specialize (Hpos i Hi). nra.
Qed.

(** *** The fuzzy partition coefficient *)

Lemma trace_dot_transpose (c N : nat) (u : matrix) :
  has_shape u c N -> (0 < c)%nat -> (0 < N)%nat ->
  trace (dot u (transpose u))
  = sigma c (fun i => sigma N (fun j => item u i j * item u i j)).
Proof.
  intros Hu Hc HN.
  assert (HuT : has_shape (transpose u) N c) by now apply has_shape_transpose.
  assert (Hd : has_shape (dot u (transpose u)) c c)
    by now apply (has_shape_dot _ _ c N c).
  unfold trace.
  rewrite (nrows_of_shape _ c c Hd), (ncols_of_shape _ c c Hd Hc), Nat.min_id.
  apply Rsum_seq_ext. intros i Hi.
  rewrite (item_dot _ _ c N c) by assumption.
  apply Rsum_seq_ext. intros j Hj.
  now rewrite (item_transpose u c N).
Qed.

Lemma fp_coeff_bounds (c N : nat) (u : matrix) :
  (0 < c)%nat -> (0 < N)%nat -> columns_sum_to_1 c N u ->
  (forall i j, (i < c)%nat -> (j < N)%nat -> 0 <= item u i j) ->
  fp_coeff u
  = sigma c (fun i => sigma N (fun j => item u i j * item u i j)) / INR N /\
  / INR c <= fp_coeff u <= 1.
Proof.
  intros Hc HN [Hu Hcols] Hpos.
  assert (HNR : 0 < INR N) by now apply lt_0_INR.
  assert (Hfpc : fp_coeff u
                 = sigma c (fun i => sigma N (fun j => item u i j * item u i j))
                   / INR N).
  { unfold fp_coeff. rewrite (ncols_of_shape u c N Hu Hc).
    now rewrite (trace_dot_transpose c N). }
  split; [exact Hfpc|]. rewrite Hfpc, sigma_swap.
  assert (Hcol : forall j, (j < N)%nat ->
            / INR c <= sigma c (fun i => item u i j * item u i j) <= 1).
  { intros j Hj. apply squares_of_a_partition; auto. }
  assert (Hlo : sigma N (fun _ => / INR c)
                <= sigma N (fun j => sigma c (fun i => item u i j * item u i j)))
    by (apply sigma_le; intros j Hj; apply Hcol; exact Hj).
  assert (Hhi : sigma N (fun j => sigma c (fun i => item u i j * item u i j))
                <= sigma N (fun _ => 1))
    by (apply sigma_le; intros j Hj; apply Hcol; exact Hj).
  rewrite sigma_const in Hlo, Hhi.
  split.
  - apply Rmult_le_reg_r with (INR N); [exact HNR|].
    unfold Rdiv. rewrite Rmult_assoc, Rinv_l by lra. lra.
  - apply Rmult_le_reg_r with (INR N); [exact HNR|].
    unfold Rdiv. rewrite Rmult_assoc, Rinv_l by lra. lra.
Qed.

(** X1.  For a membership matrix of shape [(c, N)] with non-negative entries
    whose columns sum to 1, [fp_coeff] is the sum of the squares of all
    entries divided by [N], and it lies between [1 / c] and 1. *)
Theorem fp_coeff_of_partition (c N : nat) (u : matrix) :
  (0 < c)%nat -> (0 < N)%nat -> columns_sum_to_1 c N u ->
  (forall i j, (i < c)%nat -> (j < N)%nat -> 0 <= item u i j) ->
  fp_coeff u
  = sigma c (fun i => sigma N (fun j => item u i j * item u i j)) / INR N /\
  / INR c <= fp_coeff u <= 1.
Proof. apply fp_coeff_bounds. Qed.

Section Engine.

Variable compute_distance : string -> matrix -> matrix -> matrix.
Variable random_rand : option Z -> nat -> nat -> matrix.

Hypothesis compute_distance_shape :
  forall metric x y, has_shape (compute_distance metric x y) (nrows y) (nrows x).
Hypothesis random_rand_shape :
  forall seed c n, has_shape (random_rand seed c n) c n.

Local Abbreviation cmeans0 := (cmeans0 compute_distance).
Local Abbreviation cmeans_predict0 := (cmeans_predict0 compute_distance).
Local Abbreviation train_pass := (train_pass compute_distance).
Local Abbreviation predict_pass := (predict_pass compute_distance).
Local Abbreviation train_distances := (train_distances compute_distance).
Local Abbreviation cmeans := (cmeans compute_distance random_rand).
Local Abbreviation cmeans_predict := (cmeans_predict compute_distance random_rand).

(** *** Clamped distances *)

(** X7.  Every distance a training or prediction step returns is at least
    [eps], and the objective value [jm] it returns is positive. *)
Theorem distances_at_least_eps
    (nf N c : nat) (data test_data cntr u_old : matrix) (m : R)
    (metric : string) :
  (0 < nf)%nat -> (0 < N)%nat -> (0 < c)%nat ->
  has_shape data nf N -> has_shape test_data nf N ->
  has_shape cntr c nf -> has_shape u_old c N ->
  let r := cmeans0 data u_old c m metric in
  let q := cmeans_predict0 test_data cntr u_old c m metric in
  (forall i j, (i < c)%nat -> (j < N)%nat ->
     eps <= item (so_d r) i j /\ eps <= item (po_d q) i j) /\
  0 < so_jm r /\ 0 < po_jm q.
Proof.
  intros Hnf HN Hc Hdata Htest Hcntr Hu r q.
  assert (Hd : has_shape (train_distances data u_old c m metric) c N)
    by now apply (has_shape_train_distances compute_distance
                    compute_distance_shape nf N c).
  assert (Hpd : has_shape (compute_distance metric (transpose test_data) cntr)
                  c N)
    by now apply (has_shape_predict_distances compute_distance
                    compute_distance_shape nf N c).
  assert (Hobj : forall dist, 0 < objective c N u_old m dist).
  { intros dist. unfold objective. apply Rsum_seq_pos; [exact Hc|].
    intros i _. apply Rsum_seq_pos; [exact HN|]. intros j _.
    apply Rmult_lt_0_compat; [apply weight_pos|].
    apply pow_lt, clamped_pos. }
  conjs.
  - intros i j Hi Hj. split.
    + destruct (cmeans0_u compute_distance data u_old c m metric) as [_ [Hrd _]].
      unfold r. rewrite Hrd, (item_clamped _ c N) by assumption.
      apply Rmax_r.
    + destruct (cmeans_predict0_u compute_distance test_data cntr u_old c m
                  metric) as [_ [Hqd _]].
      unfold q. rewrite Hqd, (item_clamped _ c N) by assumption.
      apply Rmax_r.
  - change (so_jm r)
      with (sum_all (mul (um_of c u_old m)
                       (square (fmax (train_distances data u_old c m metric)
                                  eps)))).
    rewrite (jm_of_step N c) by assumption. apply Hobj.
  - change (po_jm q)
      with (sum_all (mul (um_of c u_old m)
                       (square (fmax (compute_distance metric
                                        (transpose test_data) cntr) eps)))).
    rewrite (jm_of_step N c) by assumption. apply Hobj.
Qed.

(** *** The initial guess *)

(** X8.  For data of shape [(S, N)], an [init], when it is given, of shape
    [(c, N)], [maxiter >= 2] and [m] other than 1, [cmeans] returns, and
    the initial guess [u0] it returns is [init] itself when [init] is given;
    without [init] it is the random draw of shape [(c, N)] divided by its
    column sums, whatever the passes of the loop did. *)
Theorem initial_guess_is_init_or_normalized
    (nf N c : nat) (data : matrix) (m error : R) (maxiter : Z)
    (metric : option string) (init : option matrix) (seed : option Z) :
  (0 < nf)%nat -> (0 < N)%nat -> (0 < c)%nat -> has_shape data nf N ->
  (forall u, init = Some u -> has_shape u c N) ->
  (2 <= maxiter)%Z -> m <> 1 ->
  exists r,
    cmeans data c m error maxiter metric init seed = Some (Ok r) /\
    (forall u, init = Some u -> r_u0 r = u) /\
    (init = None ->
     r_u0 r = by_column_sums c (random_rand seed c (ncols data))).
Proof.
  intros _ _ _ _ _ Hmax _.
  set (mt := keyword metric default_metric).
  set (u0 := setup_u0 random_rand (ncols data) c init seed).
  destruct (cmeans_loop_leaves compute_distance data c m error maxiter mt u0)
    as [k [_ [Hrun [_ [_ Hone]]]]].
  specialize (Hone Hmax). destruct k as [|k]; [lia|].
  pose proof (cmeans_final_of_pass compute_distance data c m mt u0
                (cmeans_start u0) k) as Hfinal.
  cbv zeta in Hfinal.
  eexists. split.
  - unfold Cluster.cmeans, cmeans_fuel. fold mt. fold u0.
    rewrite Hrun, Hfinal. reflexivity.
  - cbn [r_u0]. split.
    + intros u ->. reflexivity.
    + intros ->. reflexivity.
Qed.

End Engine.

End EngineMore.

(** ** Input and output files *)

Module ValidationFacts.
Import Os OsFacts IoUtils IoUtilsFacts Validation.
Open Scope string_scope.
Open Scope py_scope.

Lemma check_inputs_find (fs : node) (ps : list path) :
  check_inputs fs ps
  = match find (fun p => negb (isfile fs p)) ps with
    | Some p => Raise (SystemExit (msg_no_file p))
    | None => Ok tt
    end.
Proof.
  induction ps as [|p ps IH]; simpl; [reflexivity|].
  unfold check_input. destruct (negb (isfile fs p)); simpl; [reflexivity|].
  exact IH.
Qed.

Lemma check_optional_inputs_find (fs : node) (ps : list (option path)) :
  check_optional_inputs fs ps = check_inputs fs (somes ps).
Proof.
  induction ps as [|[p|] ps IH]; simpl; [reflexivity | | exact IH].
  now rewrite IH.
Qed.

Lemma find_app (A : Type) (f : A -> bool) (l1 l2 : list A) :
  find f (l1 ++ l2)
  = match find f l1 with
    | Some x => Some x
    | None => find f l2
    end.
Proof.
  induction l1 as [|x l1 IH]; simpl; [reflexivity|].
  destruct (f x); [reflexivity | exact IH].
Qed.

Lemma find_none_iff (A : Type) (f : A -> bool) (l : list A) :
  find f l = None <-> forall x, In x l -> f x = false.
Proof.
  split.
  - apply find_none.
  - induction l as [|x l IH]; intros H; simpl; [reflexivity|].
    rewrite (H x) by now left. apply IH. intros y Hy. apply H. now right.
Qed.

(** X9.  [assert_input] exits with ["File ... does not exist."] for the
    first path, required paths first and then the optional ones that are not
    [None], that is not a regular file; it returns exactly when every such
    path is a regular file. *)
Theorem assert_input_names_first_missing_file
    (required : paths_arg path) (optional : option (paths_arg (option path)))
    (fs : node) :
  assert_input required optional fs
  = match find (fun p => negb (isfile fs p)) (checked required optional) with
    | Some p => Raise (SystemExit (msg_no_file p))
    | None => Ok tt
    end /\
  (assert_input required optional fs = Ok tt <->
   forall p, In p (checked required optional) -> isfile fs p = true).
Proof.
  assert (Heq : assert_input required optional fs
    = match find (fun p => negb (isfile fs p)) (checked required optional) with
      | Some p => Raise (SystemExit (msg_no_file p))
      | None => Ok tt
      end).
  { unfold assert_input, checked, given.
    rewrite check_inputs_find, check_optional_inputs_find, check_inputs_find.
    rewrite find_app.
    now destruct (find _ (as_list (fun p => p) required)). }
  split; [exact Heq|]. rewrite Heq.
  destruct (find _ (checked required optional)) as [p|] eqn:Hfind.
  - split; [discriminate|]. intros Hall.
    apply find_some in Hfind. destruct Hfind as [Hin Hp].
    rewrite (Hall p Hin) in Hp. discriminate.
  - split; [|reflexivity]. intros _ p Hin.
    rewrite find_none_iff in Hfind. specialize (Hfind p Hin).
    now apply negb_false_iff in Hfind.
Qed.

Lemma check_output_ok (overwrite check_dir : bool) (fs : node) (p : path) :
  check_output overwrite check_dir fs p = Ok tt
  <-> acceptable overwrite check_dir fs p.
Proof.
  unfold check_output, acceptable.
  destruct (isfile fs p), overwrite, check_dir; simpl;
    destruct (dirname p) as [|d ds]; simpl;
    try destruct (isdir fs (d :: ds)); simpl;
    intuition (try discriminate; auto).
Qed.

Lemma check_outputs_ok (overwrite check_dir : bool) (fs : node)
    (ps : list path) :
  check_outputs overwrite check_dir fs ps = Ok tt
  <-> forall p, In p ps -> acceptable overwrite check_dir fs p.
Proof.
  induction ps as [|p ps IH]; simpl.
  - split; [intros _ q [] | reflexivity].
  - destruct (check_output overwrite check_dir fs p) as [[]|e] eqn:Hp; simpl.
    + rewrite IH. apply check_output_ok in Hp. split.
      * intros H q [<-|Hq]; auto.
      * intros H q Hq. apply H. now right.
    + split; [discriminate|]. intros H.
      assert (Hacc : acceptable overwrite check_dir fs p) by (apply H; now left).
      apply check_output_ok in Hacc. congruence.
Qed.

Lemma check_optional_outputs_somes (overwrite check_dir : bool) (fs : node)
    (ps : list (option path)) :
  check_optional_outputs overwrite check_dir fs ps
  = check_outputs overwrite check_dir fs (somes ps).
Proof.
  induction ps as [|[p|] ps IH]; simpl; [reflexivity | | exact IH].
  now rewrite IH.
Qed.

Lemma check_outputs_app (overwrite check_dir : bool) (fs : node)
    (l1 l2 : list path) :
  check_outputs overwrite check_dir fs (l1 ++ l2)
  = (_ <- check_outputs overwrite check_dir fs l1 ;;
     check_outputs overwrite check_dir fs l2).
Proof.
  induction l1 as [|p l1 IH]; simpl; [reflexivity|].
  destruct (check_output overwrite check_dir fs p) as [[]|e]; simpl;
    [exact IH | reflexivity].
Qed.

(** X10.  [assert_output] returns exactly when every required path and every
    truthy optional path is not an existing file unless [overwrite] is set,
    and, when [check_dir] is set, has a parent that is the empty string or an
    existing directory.  When it exits, the message is about one of these
    paths: an existing file without [overwrite], or a missing parent
    directory. *)
Theorem assert_output_passes_iff_acceptable
    (overwrite check_dir : bool) (required : paths_arg path)
    (optional : option (paths_arg (option path))) (fs : node) :
  (assert_output overwrite required optional check_dir fs = Ok tt <->
   forall p, In p (checked required optional) ->
     (isfile fs p = false \/ overwrite = true) /\
     (check_dir = false \/ dirname p = [] \/ isdir fs (dirname p) = true)) /\
  (forall e,
     assert_output overwrite required optional check_dir fs = Raise e ->
     exists p, In p (checked required optional) /\
       (e = SystemExit (msg_exists p) /\ isfile fs p = true /\
        overwrite = false \/
        e = SystemExit (msg_no_dir (dirname p)) /\ check_dir = true /\
        isdir fs (dirname p) = false)).
Proof.
  assert (Heq : assert_output overwrite required optional check_dir fs
                = check_outputs overwrite check_dir fs
                    (checked required optional)).
  { unfold assert_output, checked, given.
    now rewrite check_optional_outputs_somes, check_outputs_app. }
  rewrite Heq. clear Heq. split; [apply check_outputs_ok|].
  induction (checked required optional) as [|p ps IH]; simpl; intros e He;
    [discriminate|].
  destruct (check_output overwrite check_dir fs p) as [[]|e'] eqn:Hp; simpl in He.
  - destruct (IH e He) as [q [Hq H]]. exists q. auto.
  - injection He as <-. exists p. split; [now left|].
    unfold check_output in Hp.
    destruct (isfile fs p) eqn:Hf, overwrite; simpl in Hp;
      try (injection Hp as <-; now left);
      (destruct check_dir; [|discriminate]);
      (destruct (nonempty (dirname p)); simpl in Hp; [|discriminate]);
      (destruct (isdir fs (dirname p)); simpl in Hp; [discriminate|]);
      injection Hp as <-; right; auto.
Qed.

End ValidationFacts.

(** ** More on the output directories *)

Module DirectoryFacts.
Import Os OsFacts IoUtils IoUtilsFacts Validation ValidationFacts.
Open Scope string_scope.
Open Scope py_scope.

Lemma assoc_replace_other (n name : string) (t : node)
    (es : list (string * node)) :
  n <> name -> assoc n (replace name t es) = assoc n es.
Proof.
  intros Hne. induction es as [|[x y] es IH]; simpl; [reflexivity|].
  destruct (String.eqb_spec x name) as [->|Hx]; simpl.
  - destruct (String.eqb_spec name n); [congruence | exact IH].
  - destruct (String.eqb x n); [reflexivity | exact IH].
Qed.

Lemma assoc_app_other (n name : string) (t : node)
    (es : list (string * node)) :
  n <> name -> assoc n (es ++ [(name, t)]) = assoc n es.
Proof.
  intros Hne. induction es as [|[x y] es IH]; simpl.
  - destruct (String.eqb_spec name n); [congruence | reflexivity].
  - destruct (String.eqb x n); [reflexivity | exact IH].
Qed.

Lemma assoc_remove_other (n name : string) (es : list (string * node)) :
  n <> name -> assoc n (remove name es) = assoc n es.
Proof.
  intros Hne. induction es as [|[x y] es IH]; simpl; [reflexivity|].
  destruct (String.eqb_spec x name) as [->|Hx]; simpl.
  - destruct (String.eqb_spec name n); [congruence | exact IH].
  - destruct (String.eqb x n); [reflexivity | exact IH].
Qed.

Lemma apart_sym (p q : path) : apart p q = apart q p.
Proof.
  revert q. induction p as [|a p IH]; intros [|b q]; simpl; try reflexivity.
  rewrite (String.eqb_sym b a). destruct (String.eqb a b); [apply IH | reflexivity].
Qed.

Lemma apart_app (p l q : path) : apart p q = true -> apart (p ++ l)%list q = true.
Proof.
  revert q. induction p as [|a p IH]; intros [|b q]; simpl; try discriminate.
  destruct (String.eqb a b); [apply IH | reflexivity].
Qed.

Lemma lookup_fresh_apart (p q : path) :
  apart p q = true -> lookup (fresh_dirs p) q = None.
Proof.
  revert q. induction p as [|a p IH]; intros [|b q]; simpl; try discriminate.
  destruct (String.eqb a b); [apply IH | reflexivity].
Qed.

(** [os.makedirs] and the removal of an entry leave every path apart from
    theirs as it was. *)
Lemma makedirs_from_frame (pre p q : path) (fs fs' : node) :
  makedirs_from pre fs p = Ok fs' -> apart p q = true ->
  lookup fs' q = lookup fs q.
Proof.
  revert pre q fs fs'.
  induction p as [|a p IH]; intros pre [|b q] fs fs' Hmk Hap;
    simpl in Hap; try discriminate.
  destruct fs as [|es]; [discriminate|]. simpl in Hmk.
  destruct (assoc a es) as [child|] eqn:Ha.
  - destruct (makedirs_from (pre ++ [a])%list child p) as [child'|e] eqn:Hc;
      [|discriminate].
    injection Hmk as <-. simpl.
    destruct (String.eqb_spec a b) as [->|Hne].
    + rewrite (assoc_replace b child' child es Ha), Ha.
      now apply (IH (pre ++ [b])%list q child).
    + now rewrite assoc_replace_other by congruence.
  - injection Hmk as <-. simpl.
    destruct (String.eqb_spec a b) as [->|Hne].
    + rewrite (assoc_app_new b _ es Ha), Ha. now apply lookup_fresh_apart.
    + now rewrite assoc_app_other by congruence.
Qed.

Lemma delete_frame (p q : path) (fs : node) :
  apart p q = true -> lookup (delete fs p) q = lookup fs q.
Proof.
  revert q fs. induction p as [|a p IH]; intros [|b q] fs Hap;
    simpl in Hap; try discriminate.
  destruct fs as [|es]; [reflexivity|]. simpl.
  destruct p as [|a' p'].
  - destruct (String.eqb_spec a b) as [->|Hne]; [discriminate|].
    simpl. now rewrite assoc_remove_other by congruence.
  - destruct (assoc a es) as [child|] eqn:Ha; [|reflexivity]. simpl.
    destruct (String.eqb_spec a b) as [->|Hne].
    + rewrite (assoc_replace b _ child es Ha), Ha. now apply IH.
    + now rewrite assoc_replace_other by congruence.
Qed.

Lemma clear_entry_frame (p q : path) (fs : node) (name : string) :
  apart p q = true -> lookup (clear_entry p fs name) q = lookup fs q.
Proof.
  intros Hap. unfold clear_entry, unlink, rmtree, isfile, isdir.
  rewrite entry_app.
  destruct (lookup fs (p ++ [name])%list) as [[|es]|]; try reflexivity;
    apply delete_frame, apart_app, Hap.
Qed.

Lemma clear_all_frame (names : list string) (p q : path) (fs : node) :
  apart p q = true ->
  lookup (fold_left (clear_entry p) names fs) q = lookup fs q.
Proof.
  intros Hap. revert fs. induction names as [|name names IH]; intros fs; simpl.
  - reflexivity.
  - rewrite IH. now apply clear_entry_frame.
Qed.

(** What [os.makedirs] leaves when it returns. *)
Lemma makedirs_from_ok (pre p : path) (fs fs' : node) :
  makedirs_from pre fs p = Ok fs' ->
  (exists es, lookup fs' p = Some (Dir es)) /\
  ((forall es, lookup fs p <> Some (Dir es)) -> lookup fs' p = Some (Dir [])).
Proof.
  revert pre fs fs'. induction p as [|a p IH]; intros pre fs fs' Hmk.
  - destruct fs as [|es]; [discriminate|]. injection Hmk as <-.
    split; [now exists es|]. intros Hnot. destruct (Hnot es). reflexivity.
  - destruct fs as [|es]; [discriminate|]. simpl in Hmk.
    destruct (assoc a es) as [child|] eqn:Ha.
    + destruct (makedirs_from (pre ++ [a])%list child p) as [child'|e] eqn:Hc;
        [|discriminate].
      injection Hmk as <-. destruct (IH _ child child' Hc) as [Hdir Hempty].
      simpl. rewrite (assoc_replace a child' child es Ha), Ha.
      split; [exact Hdir | exact Hempty].
    + injection Hmk as <-. simpl.
      rewrite (assoc_app_new a _ es Ha), lookup_fresh_dirs.
      split; [now exists [] | reflexivity].
Qed.

Lemma empty_dir_lookup (fs : node) (p : path) :
  empty_dir fs p <-> p <> [] /\ lookup fs p = Some (Dir []).
Proof.
  unfold empty_dir, isdir, listdir. split.
  - intros [Hd Hl]. destruct p as [|a p]; [discriminate|].
    split; [discriminate|]. rewrite entry_cons in *.
    destruct (lookup fs (a :: p)) as [[|es]|]; try discriminate.
    injection Hl as Hl. apply map_eq_nil in Hl. now subst.
  - intros [Hne Hl]. rewrite (entry_lookup fs p Hne), Hl. auto.
Qed.

Lemma check_leaves_empty_dir (overwrite create_dir : bool) (fs fs' : node)
    (p : path) :
  check overwrite create_dir fs p = Ok fs' -> empty_dir fs' p.
Proof.
  unfold check. intros Hcheck.
  destruct (isdir fs p) eqn:Hdir; simpl in Hcheck.
  - destruct (listdir fs p) as [names|e] eqn:Hlist; simpl in Hcheck;
      [|discriminate].
    destruct names as [|name names].
    + injection Hcheck as <-. split; assumption.
    + destruct overwrite; simpl in Hcheck; [|discriminate].
      injection Hcheck as <-. apply empty_dir_lookup.
      destruct (isdir_lookup fs p Hdir) as [Hne [es Hl]].
      split; [exact Hne|].
      unfold listdir in Hlist. rewrite (entry_lookup fs p Hne), Hl in Hlist.
      injection Hlist as Hlist.
      pose proof (clear_all_lookup (name :: names) fs p es Hl) as Hclear.
      rewrite (remove_all_names (name :: names) es) in Hclear
        by (intros e He; rewrite <- Hlist; now apply in_map).
      exact Hclear.
  - destruct create_dir; simpl in Hcheck; [|discriminate].
    destruct p as [|a p]; [discriminate|].
    unfold makedirs in Hcheck.
    destruct (makedirs_from [] fs (a :: p)) as [fs1|e] eqn:Hmk;
      simpl in Hcheck; [|discriminate].
    destruct (makedirs_from_ok [] (a :: p) fs fs1 Hmk) as [_ Hl].
    assert (Hnew : lookup fs1 (a :: p) = Some (Dir [])).
    { apply Hl. intros es Hes. unfold isdir in Hdir.
      rewrite entry_cons, Hes in Hdir. discriminate. }
    unfold listdir in Hcheck. rewrite entry_cons, Hnew in Hcheck.
    simpl in Hcheck. injection Hcheck as <-.
    apply empty_dir_lookup. split; [discriminate | exact Hnew].
Qed.

Lemma check_frame (overwrite create_dir : bool) (fs fs' : node) (p q : path) :
  check overwrite create_dir fs p = Ok fs' -> apart p q = true ->
  lookup fs' q = lookup fs q.
Proof.
  unfold check. intros Hcheck Hap.
  destruct (isdir fs p) eqn:Hdir; simpl in Hcheck.
  - destruct (listdir fs p) as [names|e]; simpl in Hcheck; [|discriminate].
    destruct names as [|name names].
    + now injection Hcheck as <-.
    + destruct overwrite; simpl in Hcheck; [|discriminate].
      injection Hcheck as <-. now apply (clear_all_frame (name :: names)).
  - destruct create_dir; simpl in Hcheck; [|discriminate].
    destruct p as [|a p]; [discriminate|].
    unfold makedirs in Hcheck.
    destruct (makedirs_from [] fs (a :: p)) as [fs1|e] eqn:Hmk;
      simpl in Hcheck; [|discriminate].
    destruct (listdir fs1 (a :: p)) as [names|e]; simpl in Hcheck;
      [|discriminate].
    assert (Hfs1 : lookup fs1 q = lookup fs q)
      by now apply (makedirs_from_frame [] (a :: p) q fs).
    destruct names as [|name names].
    + now injection Hcheck as <-.
    + destruct overwrite; simpl in Hcheck; [|discriminate].
      injection Hcheck as <-. rewrite <- Hfs1.
      now apply (clear_all_frame (name :: names)).
Qed.

(** X11.  Whenever [check] of [assert_output_dir_exist] returns, the path is
    an existing directory and it is empty; checking it again, with any
    flags, returns too and leaves the file system as it is. *)
Theorem validated_directory_is_empty
    (overwrite create_dir overwrite' create_dir' : bool) (fs fs' : node)
    (p : path) :
  check overwrite create_dir fs p = Ok fs' ->
  isdir fs' p = true /\ listdir fs' p = Ok [] /\
  check overwrite' create_dir' fs' p = Ok fs'.
Proof.
  intros Hcheck. destruct (check_leaves_empty_dir _ _ _ _ _ Hcheck) as [Hd Hl].
  conjs; try assumption. unfold check. rewrite Hd. simpl. now rewrite Hl.
Qed.

(** X12.  [check] touches nothing outside its path: every path that parts
    from the checked path at some component is afterwards what it was
    before. *)
Theorem check_touches_only_its_path
    (overwrite create_dir : bool) (fs fs' : node) (p q : path) :
  check overwrite create_dir fs p = Ok fs' -> apart p q = true ->
  lookup fs' q = lookup fs q /\
  isfile fs' q = isfile fs q /\ isdir fs' q = isdir fs q /\
  listdir fs' q = listdir fs q.
Proof.
  intros Hcheck Hap. pose proof (check_frame _ _ _ _ _ _ Hcheck Hap) as H.
  unfold isfile, isdir, listdir, entry.
  destruct q as [|b q]; [auto|]. now rewrite H.
Qed.

(** X13.  After [check] of [assert_output_dir_exist] has returned for a
    directory, no file of that directory exists and [assert_output] accepts
    any file name in it, with or without [overwrite] and [check_dir]. *)
Theorem output_file_accepted_in_validated_directory
    (overwrite create_dir overwrite' check_dir : bool) (fs fs' : node)
    (p : path) (file : string) :
  check overwrite create_dir fs p = Ok fs' ->
  isfile fs' (p ++ [file])%list = false /\
  assert_output overwrite' (OnePath (p ++ [file])%list) None check_dir fs'
    = Ok tt.
Proof.
  intros Hcheck.
  pose proof (check_leaves_empty_dir _ _ _ _ _ Hcheck) as Hempty.
  destruct Hempty as [Hd Hl].
  assert (Hlook : lookup fs' p = Some (Dir []))
    by (apply empty_dir_lookup; now split).
  assert (Hfile : isfile fs' (p ++ [file])%list = false)
    by (unfold isfile;
        now rewrite entry_app, (lookup_child fs' p file [] Hlook)).
  split; [exact Hfile|].
  unfold assert_output. simpl. unfold check_output, dirname.
  rewrite Hfile, removelast_last, Hd. simpl.
  destruct check_dir; [|reflexivity].
  now destruct (nonempty p).
Qed.

Lemma check_optional_somes (overwrite create_dir : bool) (fs : node)
    (ps : list (option path)) :
  check_optional overwrite create_dir fs ps
  = check_required overwrite create_dir fs (somes ps).
Proof.
  revert fs. induction ps as [|[p|] ps IH]; intros fs; simpl;
    [reflexivity | | apply IH].
  destruct (check overwrite create_dir fs p); simpl; [apply IH | reflexivity].
Qed.

Lemma check_required_app (overwrite create_dir : bool) (fs : node)
    (l1 l2 : list path) :
  check_required overwrite create_dir fs (l1 ++ l2)
  = (fs' <- check_required overwrite create_dir fs l1 ;;
     check_required overwrite create_dir fs' l2).
Proof.
  revert fs. induction l1 as [|p l1 IH]; intros fs; simpl; [reflexivity|].
  destruct (check overwrite create_dir fs p); simpl; [apply IH | reflexivity].
Qed.

Lemma check_required_apart (overwrite create_dir : bool) (ps : list path) :
  forall fs fs',
  check_required overwrite create_dir fs ps = Ok fs' ->
  ForallOrdPairs (fun p q => apart p q = true) ps ->
  (forall p, In p ps -> empty_dir fs' p) /\
  (forall q, (forall p, In p ps -> apart p q = true) ->
     lookup fs' q = lookup fs q).
Proof.
  induction ps as [|p ps IH]; intros fs fs' Hrun Hpairs; simpl in Hrun.
  - injection Hrun as <-. split; [intros p [] | reflexivity].
  - destruct (check overwrite create_dir fs p) as [fs1|e] eqn:Hp;
      simpl in Hrun; [|discriminate].
    inversion Hpairs as [|x l Hhead Htail]; subst.
    destruct (IH fs1 fs' Hrun Htail) as [Hempty Hframe].
    rewrite Forall_forall in Hhead.
    split.
    + intros q [<-|Hq]; [|now apply Hempty].
      pose proof (check_leaves_empty_dir _ _ _ _ _ Hp) as Hfirst.
      apply empty_dir_lookup in Hfirst. destruct Hfirst as [Hne Hfirst].
      apply empty_dir_lookup. split; [exact Hne|]. rewrite Hframe.
      * exact Hfirst.
      * intros p' Hp'. rewrite apart_sym. now apply Hhead.
    + intros q Hq. rewrite Hframe by (intros p' Hp'; apply Hq; now right).
      apply (check_frame _ _ _ _ _ _ Hp). apply Hq. now left.
Qed.

(** X14.  When the checked paths part from one another pairwise and
    [assert_output_dir_exist] returns, every one of them is an existing,
    empty directory at the end, and every path that parts from all of them
    is what it was before. *)
Theorem separate_directories_all_validated
    (overwrite create_dir : bool) (required : paths_arg path)
    (optional : option (paths_arg (option path))) (fs fs' : node) :
  assert_output_dir_exist overwrite required optional create_dir fs = Ok fs' ->
  ForallOrdPairs (fun p q => apart p q = true) (checked required optional) ->
  (forall p, In p (checked required optional) ->
     isdir fs' p = true /\ listdir fs' p = Ok []) /\
  (forall q, (forall p, In p (checked required optional) -> apart p q = true) ->
     lookup fs' q = lookup fs q).
Proof.
  intros Hrun Hpairs.
  assert (Heq : assert_output_dir_exist overwrite required optional create_dir fs
                = check_required overwrite create_dir fs
                    (checked required optional)).
  { unfold assert_output_dir_exist, checked, given.
    rewrite check_required_app.
    destruct (check_required overwrite create_dir fs
                (as_list (fun p => p) required)); simpl; [|reflexivity].
    apply check_optional_somes. }
  rewrite Heq in Hrun.
  exact (check_required_apart _ _ _ _ _ Hrun Hpairs).
Qed.

End DirectoryFacts.

(** ** The chapters of the report *)

Module ReportFacts.
Import Report.
Open Scope string_scope.

Section Chapter.

Variable image_size : string -> result (Z * Z).
Local Abbreviation print_chapter := (print_chapter image_size).

(** X15.  [print_chapter] without an image ([None] or the empty string)
    raises [UnboundLocalError] on [orientation]: no page is added. *)
Theorem chapter_without_image_raises (num title text : string)
    (image : option string) :
  image = None \/ image = Some "" ->
  print_chapter num title text image = Raise (UnboundLocalError "orientation").
Proof. intros [-> | ->]; reflexivity. Qed.

Lemma px_to_mm_pos : (0 < px_to_mm)%Q.
Proof. reflexivity. Qed.

Lemma scaled_lt (a b : Z) :
  (inject_Z a * px_to_mm < inject_Z b * px_to_mm)%Q <-> (a < b)%Z.
Proof.
  rewrite Qmult_lt_r by exact px_to_mm_pos. rewrite Zlt_Qlt. reflexivity.
Qed.

Lemma fit_le (x bound : Q) : (fit x bound <= bound)%Q /\ (fit x bound <= x)%Q.
Proof.
  unfold fit. destruct (Qlt_le_dec x bound); split;
    auto using Qle_refl, Qlt_le_weak.
Qed.

(** [print_chapter] with an image, in one expression. *)
Lemma print_chapter_with_image (num title text img : string) (w h : Z) :
  img <> "" -> image_size img = Ok (w, h) ->
  let width := (inject_Z w * px_to_mm)%Q in
  let height := (inject_Z h * px_to_mm)%Q in
  let orientation := if Qlt_le_dec width height then "P" else "L" in
  let cw := fit width (pdf_w orientation - 100) in
  let ch := fit height (pdf_h orientation - 100) in
  print_chapter num title text (Some img)
  = Ok ((AddPage orientation :: chapter_title num title ++ chapter_body text)
        ++ [if Qlt_le_dec ch cw then Image img None (Some ch)
            else Image img (Some cw) None])%list.
Proof.
  intros Himg Hsize. apply String.eqb_neq in Himg.
  unfold Report.print_chapter, truthy. rewrite Himg, Hsize. simpl.
  destruct (Qlt_le_dec (inject_Z w * px_to_mm) (inject_Z h * px_to_mm));
    simpl;
    match goal with
    | |- context [Qlt_le_dec ?a ?b] => destruct (Qlt_le_dec a b)
    end; reflexivity.
Qed.

(** X16.  [print_chapter] with an image of [w] by [h] pixels adds a page,
    the title, the body and the image, in this order; [width] and [height]
    are the size in millimetres.  When [w < h] the page is portrait and the
    image is sized by its width, clamped to 110.  When [h <= w] the page is
    landscape, and the image is sized by its height, clamped to 110, when
    that is less than the width clamped to 197; otherwise the two clamped
    sizes are equal and the image is sized by this width.  The size given is
    at most 110 mm, and positive when [w] and [h] are. *)
Theorem chapter_image_fits (num title text img : string) (w h : Z) :
  img <> "" -> image_size img = Ok (w, h) ->
  let width := (inject_Z w * px_to_mm)%Q in
  let height := (inject_Z h * px_to_mm)%Q in
  let page := fun orientation =>
    (AddPage orientation :: chapter_title num title ++ chapter_body text)%list
  in
  ((w < h)%Z ->
   print_chapter num title text (Some img)
   = Ok (page "P" ++ [Image img (Some (fit width 110)) None])%list) /\
  ((h <= w)%Z -> (fit height 110 < fit width 197)%Q ->
   print_chapter num title text (Some img)
   = Ok (page "L" ++ [Image img None (Some (fit height 110))])%list) /\
  ((h <= w)%Z -> ~ (fit height 110 < fit width 197)%Q ->
   (fit width 197 == fit height 110)%Q /\
   print_chapter num title text (Some img)
   = Ok (page "L" ++ [Image img (Some (fit width 197)) None])%list) /\
  ((fit width 110 <= 110)%Q /\ (fit height 110 <= 110)%Q) /\
  ((0 < w)%Z -> (0 < h)%Z ->
   (0 < fit width 110)%Q /\ (0 < fit height 110)%Q /\ (0 < fit width 197)%Q).
Proof.
  intros Himg Hsize width height page.
  pose proof (print_chapter_with_image num title text img w h Himg Hsize)
    as Hprint.
  cbv zeta in Hprint. fold width height in Hprint.
  assert (Hscaled : (width < height)%Q <-> (w < h)%Z) by apply scaled_lt.
  conjs.
  - intros Hwh. rewrite Hprint.
    destruct (Qlt_le_dec width height) as [Hlt|Hge];
      [|apply Hscaled in Hwh; exfalso; Lqa.lra].
    change (pdf_w "P" - 100)%Q with 110%Q.
    change (pdf_h "P" - 100)%Q with 197%Q.
    destruct (Qlt_le_dec (fit height 197) (fit width 110)) as [Hc|Hc];
      [|reflexivity].
    exfalso. revert Hc. unfold fit.
    destruct (Qlt_le_dec width 110), (Qlt_le_dec height 197); intros Hc;
      Lqa.lra.
  - intros Hwh Hless. rewrite Hprint.
    destruct (Qlt_le_dec width height) as [Hlt|Hge];
      [apply Hscaled in Hlt; lia|].
    change (pdf_w "L" - 100)%Q with 197%Q.
    change (pdf_h "L" - 100)%Q with 110%Q.
    destruct (Qlt_le_dec (fit height 110) (fit width 197)) as [Hc|Hc];
      [reflexivity | exfalso; Lqa.lra].
  - intros Hwh Hnot.
    assert (Hge : (height <= width)%Q).
    { destruct (Qlt_le_dec width height) as [Hlt|Hge0]; [|exact Hge0].
      apply Hscaled in Hlt. lia. }
    assert (Hle : (fit height 110 <= fit width 197)%Q).
    { unfold fit.
      destruct (Qlt_le_dec height 110), (Qlt_le_dec width 197); Lqa.lra. }
    split.
    + apply Qle_antisym; [|exact Hle]. apply Qnot_lt_le. exact Hnot.
    + rewrite Hprint.
      destruct (Qlt_le_dec width height) as [Hlt|_];
        [apply Hscaled in Hlt; lia|].
      change (pdf_w "L" - 100)%Q with 197%Q.
      change (pdf_h "L" - 100)%Q with 110%Q.
      destruct (Qlt_le_dec (fit height 110) (fit width 197)) as [Hc|Hc];
        [contradiction | reflexivity].
  - apply fit_le.
  - apply fit_le.
  - intros Hw Hh.
    assert (Hpw : (0 < width)%Q)
      by (apply Qmult_lt_0_compat;
          [now rewrite <- (Zlt_Qlt 0) | exact px_to_mm_pos]).
    assert (Hph : (0 < height)%Q)
      by (apply Qmult_lt_0_compat;
          [now rewrite <- (Zlt_Qlt 0) | exact px_to_mm_pos]).
    unfold fit.
    destruct (Qlt_le_dec width 110), (Qlt_le_dec height 110),
      (Qlt_le_dec width 197); conjs; Lqa.lra.
Qed.

End Chapter.

End ReportFacts.

(** ** The labels and the width of the bars *)

Module BarLabelsFacts.
Import IoViz IoVizFacts BarLabels.
Open Scope Q_scope.

(** X17.  [autolabel] makes one label per bar, in order, centred on the bar
    at [x + width / 2] and showing its height: it is anchored at
    [1.05 * height], above the top, for a bar of positive height, and at
    [1.05 * height - 0.15], below the bar and below zero, otherwise. *)
Theorem labels_over_or_under_the_bars
    (format_3f : Q -> string) (rects : list rect) (i : nat) (r : rect) :
  nth_error rects i = Some r ->
  length (autolabel format_3f rects) = length rects /\
  exists t,
    nth_error (autolabel format_3f rects) i = Some t /\
    text_x t = get_x r + get_width r / 2 /\
    text_s t = format_3f (get_height r) /\
    (0 < get_height r ->
     text_y t = get_height r * (105 # 100) /\ get_height r < text_y t) /\
    (get_height r <= 0 ->
     text_y t = get_height r * (105 # 100) - (15 # 100) /\
     text_y t < get_height r /\ text_y t < 0).
Proof.
  intros Hr. unfold autolabel. split; [apply length_map|].
  exists (label format_3f r). split; [now apply map_nth_error|].
  unfold label. destruct (Qlt_le_dec 0 (get_height r)) as [Hpos|Hneg]; simpl.
  - conjs; try reflexivity.
    + intros _. split; [reflexivity | Lqa.lra].
    + intros Hle. exfalso. Lqa.lra.
  - conjs; try reflexivity.
    + intros Hlt. exfalso. Lqa.lra.
    + intros _. conjs; [reflexivity | Lqa.lra | Lqa.lra].
Qed.

(** X18.  For [num_axes >= 1] the width [0.8 / num_cols] of the bars of
    [flexible_barplot] is positive and at most 0.8, so two bars centred on
    consecutive integers never touch. *)
Theorem bars_never_touch (num_axes : Z) (k : Z) :
  (1 <= num_axes)%Z ->
  0 < bar_width num_axes /\ bar_width num_axes <= 8 # 10 /\
  inject_Z k + bar_width num_axes / 2
    < inject_Z (k + 1) - bar_width num_axes / 2.
Proof.
  intros Hn. unfold bar_width, determine_layout. simpl snd.
  set (rows := Z.sqrt num_axes).
  pose proof (Z.sqrt_spec num_axes ltac:(lia)) as Hsqrt. fold rows in Hsqrt.
  cbv zeta in Hsqrt.
  assert (Hrows : (1 <= rows)%Z) by nia.
  pose proof (ceil_div_spec num_axes rows ltac:(lia)) as Hcols.
  set (cols := ceil_div num_axes rows) in *.
  assert (Hc : (1 <= cols)%Z) by nia.
  assert (HcQ : 1 <= inject_Z cols) by (now rewrite <- (Zle_Qle 1)).
  assert (Hinv : 0 < / inject_Z cols /\ / inject_Z cols <= 1).
  { split.
    - apply Qinv_lt_0_compat.
      apply Qlt_le_trans with 1; [reflexivity | exact HcQ].
    - apply Qle_shift_inv_r;
        [apply Qlt_le_trans with 1; [reflexivity | exact HcQ]|].
      now rewrite Qmult_1_l. }
  unfold Qdiv. rewrite inject_Z_plus.
  destruct Hinv as [H0 H1].
  set (v := / inject_Z cols) in *.
  conjs.
  - apply Qmult_lt_0_compat; [reflexivity | exact H0].
  - setoid_replace (8 # 10) with ((8 # 10) * 1) at 2 by ring.
    apply Qmult_le_l; [reflexivity | exact H1].
  - assert ((8 # 10) * v <= 8 # 10).
    { setoid_replace (8 # 10) with ((8 # 10) * 1) at 2 by ring.
      apply Qmult_le_l; [reflexivity | exact H1]. }
    change (inject_Z 1) with 1. clearbody v. clear HcQ.
    generalize (inject_Z k). intros kq. change (/ 2) with (1 # 2). Lqa.lra.
Qed.

End BarLabelsFacts.

(** ** The legend and the pairs of clusters *)

Module ClusterVizFacts.
Import ClusterViz.
Open Scope Z_scope.

Section Legend.

Variable handle : Type.
Variable same_handle : handle -> handle -> bool.
Variable int_of_float : string -> result Z.

Local Abbreviation insert := (insert handle).
Local Abbreviation sort := (sort handle).

Local Abbreviation by_tag := (by_tag handle).

Lemma insert_perm (a : Z * handle) (l : list (Z * handle)) :
  Permutation (insert a l) (a :: l).
Proof.
  induction l as [|b l IH]; simpl; [reflexivity|].
  destruct (fst a <=? fst b); [reflexivity|].
  rewrite IH. apply perm_swap.
Qed.

Lemma sort_perm (l : list (Z * handle)) : Permutation (sort l) l.
Proof.
  induction l as [|a l IH]; simpl; [reflexivity|].
  rewrite insert_perm. now apply perm_skip.
Qed.

Lemma insert_sorted (a : Z * handle) (l : list (Z * handle)) :
  Sorted by_tag l -> Sorted by_tag (insert a l).
Proof.
  induction 1 as [|b l Hs IH Hhd]; simpl; [repeat constructor|].
  destruct (Z.leb_spec (fst a) (fst b)) as [Hle|Hgt].
  - constructor; [now constructor | now constructor].
  - constructor; [exact IH|].
    destruct l as [|c l]; simpl.
    + constructor. unfold by_tag. lia.
    + destruct (fst a <=? fst c).
      * constructor. unfold by_tag. lia.
      * constructor. now inversion Hhd.
Qed.

Lemma sort_sorted (l : list (Z * handle)) : Sorted by_tag (sort l).
Proof.
  induction l as [|a l IH]; simpl; [constructor | now apply insert_sorted].
Qed.

Lemma sorted_tags (l : list (Z * handle)) :
  Sorted by_tag l -> Sorted Z.le (map fst l).
Proof.
  induction 1 as [|a l Hs IH Hhd]; simpl; constructor; [exact IH|].
  destruct Hhd; simpl; constructor. assumption.
Qed.

Lemma combine_fst_snd (l : list (Z * handle)) :
  combine (map fst l) (map snd l) = l.
Proof.
  induction l as [|[t h] l IH]; simpl; [reflexivity | now rewrite IH].
Qed.

(** X19.  When [sort_int_labels_legend] returns, the tags it gives to
    [ax.legend] are the integers of the tags in increasing order, each handle
    is the one that came with its tag, and the title is the one given. *)
Theorem legend_is_sorted_by_number
    (handles hs : list handle) (tags : tag_list) (ts : list Z)
    (title t : option string) :
  sort_int_labels_legend handle same_handle int_of_float handles tags title
    = Ok (hs, ts, t) ->
  exists ints,
    (tags = IntTags ints \/
     exists strs, tags = StrTags strs /\
                  convert int_of_float strs = Ok ints) /\
    Sorted Z.le ts /\
    Permutation (combine ts hs) (combine ints handles) /\
    length hs = length ts /\ ts <> [] /\ t = title.
Proof.
  unfold sort_int_labels_legend. intros Hrun.
  assert (Hconv : exists ints,
    (tags = IntTags ints \/
     exists strs, tags = StrTags strs /\
                  convert int_of_float strs = Ok ints) /\
    (pairs <- sorted handle same_handle (combine ints handles) ;;
     match pairs with
     | [] => Raise (LibraryError "ValueError")
     | _ :: _ => Ok (map snd pairs, map fst pairs, title)
     end)%py = Ok (hs, ts, t)).
  { destruct tags as [[|s strs]|[|i ints]]; try discriminate.
    - destruct (convert int_of_float (s :: strs)) as [ints|e] eqn:Hc;
        [|discriminate].
      exists ints. split; [right; eauto | exact Hrun].
    - exists (i :: ints). split; [now left | exact Hrun]. }
  destruct Hconv as [ints [Htags Hsorted]]. exists ints.
  split; [exact Htags|]. clear Hrun Htags.
  unfold sorted in Hsorted.
  destruct (has_unordered handle same_handle (combine ints handles));
    [discriminate|].
  simpl in Hsorted.
  pose proof (sorted_tags _ (sort_sorted (combine ints handles))) as H1.
  pose proof (sort_perm (combine ints handles)) as H2.
  rewrite <- (combine_fst_snd (sort (combine ints handles))) in H2 at 1.
  assert (H3 : length (map snd (sort (combine ints handles)))
               = length (map fst (sort (combine ints handles))))
    by now rewrite !length_map.
  destruct (sort (combine ints handles)) as [|a l]; [discriminate|].
  injection Hsorted as <- <- <-.
  conjs; try assumption; [discriminate | reflexivity].
Qed.

End Legend.

(** *** The pairs of clusters *)

Lemma pair_of_lt (var : string) (c1 c2 : Z) :
  c1 < c2 -> pair_of var c1 c2 = [((var, c1), (var, c2))].
Proof.
  intros H. unfold pair_of.
  destruct (Z.eqb_spec c1 c2); [lia|].
  rewrite Z.gtb_ltb. destruct (Z.ltb_spec c2 c1); [lia | reflexivity].
Qed.

Lemma pair_of_ge (var : string) (c1 c2 : Z) :
  c2 <= c1 -> pair_of var c1 c2 = [].
Proof.
  intros H. unfold pair_of.
  destruct (Z.eqb_spec c1 c2); [reflexivity|].
  rewrite Z.gtb_ltb. destruct (Z.ltb_spec c2 c1); [reflexivity | lia].
Qed.

Lemma pairs_above (var : string) (a : Z) (l : list Z) :
  Forall (Z.lt a) l -> length (flat_map (pair_of var a) l) = length l.
Proof.
  induction 1 as [|c l Hc _ IH]; simpl; [reflexivity|].
  rewrite (pair_of_lt var a c Hc). simpl. now rewrite IH.
Qed.

Lemma pairs_skip_lower (var : string) (a : Z) (inner outer : list Z) :
  Forall (Z.lt a) outer ->
  flat_map (fun c1 => flat_map (pair_of var c1) (a :: inner)) outer
  = flat_map (fun c1 => flat_map (pair_of var c1) inner) outer.
Proof.
  induction 1 as [|c l Hc _ IH]; simpl; [reflexivity|].
  rewrite (pair_of_ge var c a) by lia. simpl. f_equal. exact IH.
Qed.

Lemma flat_map_step (A B : Type) (f : A -> list B) (x : A) (l : list A) :
  flat_map f (x :: l) = (f x ++ flat_map f l)%list.
Proof. reflexivity. Qed.

Lemma pairs_of_feature (var : string) (clusters : list Z) :
  StronglySorted Z.lt clusters ->
  (2 * length (flat_map (fun c1 => flat_map (pair_of var c1) clusters)
                 clusters)
   = length clusters * (length clusters - 1))%nat.
Proof.
  induction 1 as [|a l Hs IH Hall]; [reflexivity|].
  rewrite (flat_map_step _ _ (fun c1 => flat_map (pair_of var c1) (a :: l))).
  rewrite length_app, (flat_map_step _ _ (pair_of var a)), length_app.
  rewrite (pair_of_ge var a a) by lia.
  rewrite (pairs_above var a l Hall).
  rewrite (pairs_skip_lower var a l l Hall).
  cbn [length]. nia.
Qed.

Lemma length_flat_map_const (A B : Type) (f : A -> list B) (n : nat)
    (l : list A) :
  (forall x, length (f x) = n) ->
  length (flat_map f l) = (length l * n)%nat.
Proof.
  intros H. induction l as [|x l IH]; simpl; [reflexivity|].
  now rewrite length_app, H, IH.
Qed.

(** X20.  For clusters in increasing order, as [np.unique] gives them, the
    list [pairs] of [plot_grouped_barplot] has [k * (k - 1) / 2] pairs per
    feature for [k] clusters: exactly the pairs of a lower with a higher
    cluster of one same feature. *)
Theorem pairs_compare_each_two_clusters_once
    (features : list string) (clusters : list Z) :
  StronglySorted Z.lt clusters ->
  (2 * length (pairs features clusters)
   = length features * (length clusters * (length clusters - 1)))%nat /\
  (forall v1 c1 v2 c2,
     In ((v1, c1), (v2, c2)) (pairs features clusters) <->
     v1 = v2 /\ In v1 features /\ In c1 clusters /\ In c2 clusters /\ c1 < c2).
Proof.
  intros Hsorted. split.
  - unfold pairs. fold pair_of.
    assert (Hn : exists n, forall var,
              length (flat_map (fun c1 => flat_map (pair_of var c1) clusters)
                        clusters) = n).
    { exists (length (flat_map (fun c1 => flat_map (pair_of ""%string c1)
                                             clusters) clusters)).
      intros var. clear Hsorted.
      generalize clusters at 1 3 as inner. intros inner.
      induction clusters as [|c l IH]; simpl; [reflexivity|].
      rewrite !length_app, IH. f_equal.
      clear IH. induction inner as [|d inner IH]; simpl; [reflexivity|].
      rewrite !length_app, IH. f_equal. unfold pair_of.
      now destruct (negb (c =? d) && negb (c >? d)). }
    destruct Hn as [n Hn].
    rewrite (length_flat_map_const _ _ _ n) by exact Hn.
    pose proof (pairs_of_feature ""%string clusters Hsorted) as H.
    rewrite Hn in H. nia.
  - intros v1 c1 v2 c2. unfold pairs. fold pair_of. rewrite in_flat_map. split.
    + intros [var [Hvar Hin]]. apply in_flat_map in Hin.
      destruct Hin as [d1 [Hd1 Hin]]. apply in_flat_map in Hin.
      destruct Hin as [d2 [Hd2 Hin]]. unfold pair_of in Hin.
      destruct (Z.eqb_spec d1 d2); simpl in Hin; [destruct Hin|].
      rewrite Z.gtb_ltb in Hin.
      destruct (Z.ltb_spec d2 d1); simpl in Hin; [destruct Hin|].
      destruct Hin as [Heq|[]]. injection Heq as <- <- <- <-.
      repeat split; auto. lia.
    + intros [<- [Hv [H1 [H2 Hlt]]]]. exists v1. split; [exact Hv|].
      apply in_flat_map. exists c1. split; [exact H1|].
      apply in_flat_map. exists c2. split; [exact H2|].
      change (In (v1, c1, (v1, c2)) (pair_of v1 c1 c2)).
      rewrite (pair_of_lt v1 c1 c2 Hlt). now left.
Qed.

End ClusterVizFacts.

(** ** Examples for the further properties *)

Module EngineMoreExamples.
Import Numpy NumpyFacts Update Cluster Pieces EngineMore.
Import Distance MoreFixtures.
Open Scope R_scope.

Local Abbreviation euclidean_shape := EngineExamples.euclidean_shape.
Local Abbreviation half_rand_shape := EngineExamples.half_rand_shape.

Ltac shape := split; [reflexivity | repeat constructor].

Lemma item_lt_2x2 (P : nat -> nat -> Prop) :
  P 0%nat 0%nat -> P 0%nat 1%nat -> P 1%nat 0%nat -> P 1%nat 1%nat ->
  forall i j, (i < 2)%nat -> (j < 2)%nat -> P i j.
Proof.
  intros H00 H01 H10 H11 i j Hi Hj.
  destruct i as [|[|i]]; destruct j as [|[|j]]; try lia; assumption.
Defined.

Lemma fp_coeff_of_partition_witness :
  columns_sum_to_1 2 2 u_partition /\ / INR 2 <= fp_coeff u_partition <= 1.
Proof.
  assert (Hcols : columns_sum_to_1 2 2 u_partition).
  { split; [shape|]. intros j Hj.
    destruct j as [|[|j]]; try lia; unfold u_partition, sigma, item; simpl;
      lra. }
  split; [exact Hcols|].
  apply (fp_coeff_of_partition 2 2 u_partition); try lia; try exact Hcols.
  apply item_lt_2x2; unfold u_partition, item; simpl; lra.
Defined.

Lemma distances_at_least_eps_witness :
  (has_shape data_1x2 1 2 /\ has_shape cntr_2x1 2 1 /\ has_shape u_2x2 2 2) /\
  eps <= item (so_d (cmeans0 euclidean data_1x2 u_2x2 2 2 "euclidean")) 0 0 /\
  0 < so_jm (cmeans0 euclidean data_1x2 u_2x2 2 2 "euclidean").
Proof.
  assert (Hd : has_shape data_1x2 1 2) by shape.
  assert (Hc : has_shape cntr_2x1 2 1) by shape.
  assert (Hu : has_shape u_2x2 2 2) by shape.
  split; [auto|].
  pose proof (distances_at_least_eps euclidean euclidean_shape 1 2 2 data_1x2
                data_1x2 cntr_2x1 u_2x2 2 "euclidean" ltac:(lia) ltac:(lia)
                ltac:(lia) Hd Hd Hc Hu) as [Hdist [Hjm _]].
  split; [|exact Hjm].
  apply (Hdist 0%nat 0%nat); lia.
Defined.

Lemma initial_guess_is_init_or_normalized_witness :
  (has_shape data_1x2 1 2 /\ (2 <= 10)%Z /\ 2 <> 1) /\
  exists r,
    cmeans euclidean half_rand data_1x2 2 2 (/ 1000) 10 None None None
      = Some (Ok r) /\
    r_u0 r = by_column_sums 2 (half_rand None 2 2).
Proof.
  assert (Hd : has_shape data_1x2 1 2)
    by (split; [reflexivity | repeat constructor]).
  assert (Hinit : forall u : matrix, None = Some u -> has_shape u 2 2)
    by (intros u Heq; discriminate Heq).
  assert (Hmax : (2 <= 10)%Z) by lia.
  assert (Hm : 2 <> 1) by lra.
  split; [auto|].
  destruct (initial_guess_is_init_or_normalized euclidean half_rand 1 2 2
              data_1x2 2 (/ 1000) 10 None None None
              ltac:(lia) ltac:(lia) ltac:(lia) Hd Hinit Hmax Hm)
    as [r [Hr [_ Hnone]]].
  exists r. split; [exact Hr | now apply Hnone].
Defined.

End EngineMoreExamples.

Module IoMoreExamples.
Import Os IoUtils IoFixtures Validation ValidationFacts DirectoryFacts.
Import MoreFixtures.
Open Scope string_scope.

Lemma validated_directory_is_empty_witness :
  check true false fs_results ["results"] = Ok fs_emptied /\
  isdir fs_emptied ["results"] = true /\
  listdir fs_emptied ["results"] = Ok [] /\
  check false false fs_emptied ["results"] = Ok fs_emptied.
Proof.
  assert (H : check true false fs_results ["results"] = Ok fs_emptied)
    by reflexivity.
  split; [exact H|].
  apply (validated_directory_is_empty true false false false fs_results
           fs_emptied ["results"] H).
Defined.

Lemma check_touches_only_its_path_witness :
  (check true true fs_results ["results"] = Ok fs_emptied /\
   apart ["results"] ["out"] = true) /\
  lookup fs_emptied ["out"] = lookup fs_results ["out"] /\
  isfile fs_emptied ["out"] = isfile fs_results ["out"] /\
  isdir fs_emptied ["out"] = isdir fs_results ["out"] /\
  listdir fs_emptied ["out"] = listdir fs_results ["out"].
Proof.
  assert (H : check true true fs_results ["results"] = Ok fs_emptied)
    by reflexivity.
  assert (Ha : apart ["results"] ["out"] = true) by reflexivity.
  split; [auto|].
  apply (check_touches_only_its_path true true fs_results fs_emptied
           ["results"] ["out"] H Ha).
Defined.

Lemma output_file_accepted_in_validated_directory_witness :
  check true false fs_results ["results"] = Ok fs_emptied /\
  isfile fs_emptied ["results"; "fig.png"] = false /\
  assert_output false (OnePath ["results"; "fig.png"]) None true fs_emptied
    = Ok tt.
Proof.
  assert (H : check true false fs_results ["results"] = Ok fs_emptied)
    by reflexivity.
  split; [exact H|].
  apply (output_file_accepted_in_validated_directory true false false true
           fs_results fs_emptied ["results"] "fig.png" H).
Defined.

Lemma separate_directories_all_validated_witness :
  (assert_output_dir_exist true (PathList [["results"]; ["tmp"]])
     (Some (PathList [None; Some ["logs"]])) true fs_results = Ok fs_validated /\
   ForallOrdPairs (fun p q => apart p q = true)
     [["results"]; ["tmp"]; ["logs"]]) /\
  (isdir fs_validated ["logs"] = true /\ listdir fs_validated ["logs"] = Ok []) /\
  lookup fs_validated ["out"] = lookup fs_results ["out"].
Proof.
  assert (H : assert_output_dir_exist true (PathList [["results"]; ["tmp"]])
                (Some (PathList [None; Some ["logs"]])) true fs_results
              = Ok fs_validated) by reflexivity.
  assert (Ha : ForallOrdPairs (fun p q => apart p q = true)
                 (checked (PathList [["results"]; ["tmp"]])
                    (Some (PathList [None; Some ["logs"]]))))
    by (repeat constructor).
  split; [split; [exact H | exact Ha]|].
  destruct (separate_directories_all_validated true true
              (PathList [["results"]; ["tmp"]])
              (Some (PathList [None; Some ["logs"]])) fs_results fs_validated H Ha)
    as [Hall Hframe].
  split.
  - apply Hall. simpl. auto.
  - apply Hframe. intros p Hp. simpl in Hp.
    destruct Hp as [<- | [<- | [<- | []]]]; reflexivity.
Defined.

End IoMoreExamples.

Module ReportExamples.
Import Report ReportFacts MoreFixtures.
Open Scope string_scope.

Lemma chapter_without_image_raises_witness :
  print_chapter wide_image "1" "Summary" "Two clusters." None
  = Raise (UnboundLocalError "orientation").
Proof.
  apply (chapter_without_image_raises wide_image "1" "Summary"
           "Two clusters." None).
  left. reflexivity.
Defined.

Lemma chapter_image_fits_witness :
  ("fig.png" <> "" /\ wide_image "fig.png" = Ok (3000, 1000)%Z /\
   (1000 <= 3000)%Z /\
   (fit (inject_Z 1000 * px_to_mm) 110 < fit (inject_Z 3000 * px_to_mm) 197)%Q)
  /\
  print_chapter wide_image "1" "Summary" "Two clusters." (Some "fig.png")
  = Ok ((AddPage "L" :: chapter_title "1" "Summary"
           ++ chapter_body "Two clusters.")
        ++ [Image "fig.png" None
              (Some (fit (inject_Z 1000 * px_to_mm) 110))])%list.
Proof.
  assert (Hn : "fig.png" <> "") by discriminate.
  assert (Hs : wide_image "fig.png" = Ok (3000, 1000)%Z) by reflexivity.
  assert (Hwh : (1000 <= 3000)%Z) by lia.
  assert (Hless : (fit (inject_Z 1000 * px_to_mm) 110
                   < fit (inject_Z 3000 * px_to_mm) 197)%Q) by reflexivity.
  split; [auto|].
  destruct (chapter_image_fits wide_image "1" "Summary" "Two clusters."
              "fig.png" 3000 1000 Hn Hs) as [_ [Hheight _]].
  exact (Hheight Hwh Hless).
Defined.

End ReportExamples.

Module BarLabelsExamples.
Import IoViz BarLabels BarLabelsFacts MoreFixtures.
Open Scope Q_scope.

Lemma labels_over_or_under_the_bars_witness :
  nth_error two_bars 1
    = Some {| get_x := 9 # 10; get_width := 2 # 10;
              get_height := - (1 # 4) |} /\
  length (autolabel format_3f two_bars) = 2%nat /\
  exists t,
    nth_error (autolabel format_3f two_bars) 1 = Some t /\
    text_s t = "-0.250"%string /\ text_y t < 0.
Proof.
  assert (H : nth_error two_bars 1
              = Some {| get_x := 9 # 10; get_width := 2 # 10;
                        get_height := - (1 # 4) |}) by reflexivity.
  split; [exact H|].
  destruct (labels_over_or_under_the_bars format_3f two_bars 1 _ H)
    as [Hlen [t [Ht [_ [Hs [_ Hunder]]]]]].
  split; [exact Hlen|].
  exists t. split; [exact Ht|]. split; [exact Hs|].
  apply Hunder. simpl. discriminate.
Defined.

Lemma bars_never_touch_witness :
  (1 <= 7)%Z /\
  0 < bar_width 7 /\ bar_width 7 <= 8 # 10 /\
  inject_Z 0 + bar_width 7 / 2 < inject_Z (0 + 1) - bar_width 7 / 2.
Proof.
  assert (H : (1 <= 7)%Z) by lia.
  split; [exact H|].
  apply (bars_never_touch 7 0 H).
Defined.

End BarLabelsExamples.

Module ClusterVizExamples.
Import ClusterViz ClusterVizFacts MoreFixtures.
Open Scope string_scope.
Open Scope Z_scope.

Lemma legend_is_sorted_by_number_witness :
  sort_int_labels_legend string String.eqb int_of_float ["a"; "b"; "c"]
    (StrTags ["10.0"; "2.0"; "1.0"]) (Some "Cluster")
  = Ok (["c"; "b"; "a"], [1; 2; 10], Some "Cluster") /\
  Sorted Z.le [1; 2; 10] /\
  Permutation (combine [1; 2; 10] ["c"; "b"; "a"])
    (combine [10; 2; 1] ["a"; "b"; "c"]).
Proof.
  assert (H : sort_int_labels_legend string String.eqb int_of_float
                ["a"; "b"; "c"] (StrTags ["10.0"; "2.0"; "1.0"])
                (Some "Cluster")
              = Ok (["c"; "b"; "a"], [1; 2; 10], Some "Cluster"))
    by reflexivity.
  split; [exact H|].
  destruct (legend_is_sorted_by_number string String.eqb int_of_float
              ["a"; "b"; "c"] ["c"; "b"; "a"]
              (StrTags ["10.0"; "2.0"; "1.0"]) [1; 2; 10] (Some "Cluster")
              (Some "Cluster") H)
    as [ints [Htags [Hsorted [Hperm _]]]].
  split; [exact Hsorted|].
  destruct Htags as [Hint | [strs [Hstr Hconv]]]; [discriminate Hint|].
  injection Hstr as <-. injection Hconv as <-.
  exact Hperm.
Defined.

Lemma pairs_compare_each_two_clusters_once_witness :
  StronglySorted Z.lt three_clusters /\
  (2 * length (pairs ["age"; "iq"] three_clusters) = 2 * (3 * (3 - 1)))%nat /\
  In (("iq", 1), ("iq", 3)) (pairs ["age"; "iq"] three_clusters).
Proof.
  assert (H : StronglySorted Z.lt three_clusters)
    by (repeat constructor; lia).
  split; [exact H|].
  destruct (pairs_compare_each_two_clusters_once ["age"; "iq"] three_clusters
              H)
    as [Hlen Hin].
  split; [exact Hlen|].
  apply Hin. simpl. repeat split; auto; lia.
Defined.

End ClusterVizExamples.
